(** * GammaGL: the heterogeneous graph transformer layer [HGTConv]

    A shallow embedding of [gammagl/layers/conv/hgt_conv.py] over the real
    numbers.  A dense tensor is its shape together with its element function;
    every tensor operation the layer calls is written out with the shape
    checks the numeric backend performs, so that a call either returns a
    tensor or raises.  Python dictionaries are association lists in insertion
    order. *)

From Stdlib Require Import Reals Lra Lia String List Arith Bool Permutation.
Import ListNotations.

Set Implicit Arguments.

(* ================================================================= *)
(** ** Exceptions and the error monad *)

(** The exception classes a call can end in. *)
Inductive error : Type :=
| ShapeMismatch          (* reshape, matmul or broadcasting on unfit shapes *)
| IndexOutOfRange        (* gather or segment id outside the node range *)
| MissingArgument        (* the inspector finds no value for a parameter *)
| UnknownNodeOrEdgeType  (* KeyError on a per-type dictionary *)
| KeyError               (* KeyError on the keyword dictionary *)
| EmptySequence          (* stack of an empty list of tensors *)
| TypeMismatch           (* a keyword value of the wrong dynamic type *)
| ZeroDivision           (* out_channels // 0 *)
| ZeroWidth              (* TypeError: a dense layer built with in_features = 0 *)
| UnknownAggr.           (* an aggregation label outside sum/mean/min/max *)

Inductive result (A : Type) : Type :=
| Ok (a : A)
| Err (e : error).

Arguments Ok {A} a.
Arguments Err {A} e.

Definition bind {A B : Type} (c : result A) (k : A -> result B) : result B :=
  match c with
  | Ok a => k a
  | Err e => Err e
  end.

Notation "x <- c ;; k" := (bind c (fun x => k))
  (at level 61, c at next level, right associativity).

Definition is_ok {A : Type} (c : result A) : bool :=
  match c with Ok _ => true | Err _ => false end.

(** [d[key]]: a missing key raises [KeyError]. *)
Definition dict (V : Type) : Type := list (string * V).

Fixpoint lookup {V : Type} (key : string) (d : dict V) : option V :=
  match d with
  | [] => None
  | (k, v) :: rest => if String.eqb key k then Some v else lookup key rest
  end.

Definition getitem {V : Type} (d : dict V) (key : string) : result V :=
  match lookup key d with
  | Some v => Ok v
  | None => Err UnknownNodeOrEdgeType
  end.

(** [d[key] = v]: overwrite in place, or append a new key at the end. *)
Fixpoint setitem {V : Type} (key : string) (v : V) (d : dict V) : dict V :=
  match d with
  | [] => [(key, v)]
  | (k, w) :: rest =>
      if String.eqb key k then (k, v) :: rest else (k, w) :: setitem key v rest
  end.

(* ================================================================= *)
(** ** Dense tensors *)

Record Tensor1 : Type := { len1 : nat; at1 : nat -> R }.
Record Tensor2 : Type := { rows2 : nat; cols2 : nat; at2 : nat -> nat -> R }.
Record Tensor3 : Type :=
  { dim0 : nat; dim1 : nat; dim2 : nat; at3 : nat -> nat -> nat -> R }.

(** Tensors from Python lists (row major). *)
Definition of_list1 (l : list R) : Tensor1 :=
  {| len1 := length l; at1 := fun i => nth i l 0%R |}.

Definition of_rows (c : nat) (l : list (list R)) : Tensor2 :=
  {| rows2 := length l; cols2 := c;
     at2 := fun i j => nth j (nth i l []) 0%R |}.

(** Sums are exact: the elements are real numbers.  The float32 sums of the
    program agree with them up to rounding, and unlike them depend on the
    order of the terms. *)
Definition Rsum (l : list R) : R := fold_right Rplus 0%R l.

Definition sum_upto (n : nat) (f : nat -> R) : R := Rsum (map f (seq 0 n)).

(** Greatest element of a list; the empty list gives the additive identity. *)
Definition Rmax_list (l : list R) : R :=
  match l with
  | [] => 0%R
  | x :: t => fold_right Rmax x t
  end.

Definition Rmin_list (l : list R) : R :=
  match l with
  | [] => 0%R
  | x :: t => fold_right Rmin x t
  end.

(** Broadcasting of one dimension: equal sizes, or one of them is 1. *)
Definition bdim (a b : nat) : option nat :=
  if a =? b then Some a
  else if a =? 1 then Some b
  else if b =? 1 then Some a
  else None.

(** The index read in an operand whose dimension has size [a]. *)
Definition bidx (a i : nat) : nat := if a =? 1 then 0 else i.

(** [tlx.ops.reshape(t, (-1, H, D))] on a 2-d tensor. *)
Definition reshape_2_3 (t : Tensor2) (H D : nat) : result Tensor3 :=
  let total := rows2 t * cols2 t in
  if H * D =? 0 then Err ShapeMismatch
  else if total mod (H * D) =? 0 then
    Ok {| dim0 := total / (H * D); dim1 := H; dim2 := D;
          at3 := fun n h d =>
            let f := n * (H * D) + h * D + d in
            at2 t (f / cols2 t) (f mod cols2 t) |}
  else Err ShapeMismatch.

(** [tlx.ops.reshape(t, (-1, C))] on a 3-d tensor. *)
Definition reshape_3_2 (t : Tensor3) (C : nat) : result Tensor2 :=
  let total := dim0 t * dim1 t * dim2 t in
  if C =? 0 then Err ShapeMismatch
  else if total mod C =? 0 then
    Ok {| rows2 := total / C; cols2 := C;
          at2 := fun r c =>
            let f := r * C + c in
            at3 t (f / (dim1 t * dim2 t))
                  ((f mod (dim1 t * dim2 t)) / dim2 t)
                  (f mod dim2 t) |}
  else Err ShapeMismatch.

(** [tlx.nn.Transpose([1, 0, 2])]. *)
Definition transpose (t : Tensor3) : Tensor3 :=
  {| dim0 := dim1 t; dim1 := dim0 t; dim2 := dim2 t;
     at3 := fun i j k => at3 t j i k |}.

(** [x @ y] on 3-d tensors: a matrix product per leading (batch) index. *)
Definition matmul (x y : Tensor3) : result Tensor3 :=
  match bdim (dim0 x) (dim0 y) with
  | None => Err ShapeMismatch
  | Some B =>
      if dim2 x =? dim1 y then
        Ok {| dim0 := B; dim1 := dim1 x; dim2 := dim2 y;
              at3 := fun b n m =>
                sum_upto (dim2 x)
                  (fun k => (at3 x (bidx (dim0 x) b) n k
                             * at3 y (bidx (dim0 y) b) k m)%R) |}
      else Err ShapeMismatch
  end.

(** [tlx.gather(t, index, axis=0)]. *)
Definition gather (t : Tensor3) (index : list nat) : result Tensor3 :=
  if forallb (fun i => i <? dim0 t) index then
    Ok {| dim0 := length index; dim1 := dim1 t; dim2 := dim2 t;
          at3 := fun e h d => at3 t (nth e index 0) h d |}
  else Err IndexOutOfRange.

(** [x * y] on 3-d tensors, with broadcasting. *)
Definition mul3 (x y : Tensor3) : result Tensor3 :=
  match bdim (dim0 x) (dim0 y), bdim (dim1 x) (dim1 y),
        bdim (dim2 x) (dim2 y) with
  | Some a, Some b, Some c =>
      Ok {| dim0 := a; dim1 := b; dim2 := c;
            at3 := fun i j k =>
              (at3 x (bidx (dim0 x) i) (bidx (dim1 x) j) (bidx (dim2 x) k)
               * at3 y (bidx (dim0 y) i) (bidx (dim1 y) j) (bidx (dim2 y) k))%R
         |}
  | _, _, _ => Err ShapeMismatch
  end.

(** [tlx.ops.reduce_sum(t, axis=-1, keepdims=False)]. *)
Definition reduce_sum_last (t : Tensor3) : Tensor2 :=
  {| rows2 := dim0 t; cols2 := dim1 t;
     at2 := fun i j => sum_upto (dim2 t) (fun k => at3 t i j k) |}.

(** [alpha * rel] for a 2-d tensor and a vector: [rel] runs along the last
    axis. *)
Definition mul2_vec (x : Tensor2) (v : Tensor1) : result Tensor2 :=
  match bdim (cols2 x) (len1 v) with
  | Some c =>
      Ok {| rows2 := rows2 x; cols2 := c;
            at2 := fun i j =>
              (at2 x i (bidx (cols2 x) j) * at1 v (bidx (len1 v) j))%R |}
  | None => Err ShapeMismatch
  end.

(** [t / s] for a Python float [s]. *)
Definition div_scalar (x : Tensor2) (s : R) : Tensor2 :=
  {| rows2 := rows2 x; cols2 := cols2 x;
     at2 := fun i j => (at2 x i j / s)%R |}.

(** [tlx.expand_dims(t, -1)]. *)
Definition expand_dims (x : Tensor2) : Tensor3 :=
  {| dim0 := rows2 x; dim1 := cols2 x; dim2 := 1;
     at3 := fun i j _ => at2 x i j |}.

Definition same_shape (x y : Tensor2) : bool :=
  (rows2 x =? rows2 y) && (cols2 x =? cols2 y).

(** [tlx.stack(outs)]: the list must be non-empty and of one shape. *)
Definition stack (outs : list Tensor2) : result Tensor3 :=
  match outs with
  | [] => Err EmptySequence
  | o :: rest =>
      if forallb (same_shape o) rest then
        Ok {| dim0 := length outs; dim1 := rows2 o; dim2 := cols2 o;
              at3 := fun k i j =>
                at2 (nth k outs o) i j |}
      else Err ShapeMismatch
  end.

(** [tlx.ops.reduce_sum(t, axis=0, keepdims=False)]. *)
Definition reduce_sum_first (t : Tensor3) : Tensor2 :=
  {| rows2 := dim1 t; cols2 := dim2 t;
     at2 := fun i j => sum_upto (dim0 t) (fun k => at3 t k i j) |}.

Definition sigmoid (x : R) : R := (1 / (1 + exp (- x)))%R.

Definition relu6 (x : R) : R := Rmin (Rmax x 0) 6.

(** [alpha * out + (1 - alpha) * x] for a scalar [alpha]: the two products
    keep their shapes and the sum broadcasts. *)
Definition blend (alpha : R) (out x : Tensor2) : result Tensor2 :=
  match bdim (rows2 out) (rows2 x), bdim (cols2 out) (cols2 x) with
  | Some r, Some c =>
      Ok {| rows2 := r; cols2 := c;
            at2 := fun i j =>
              (alpha * at2 out (bidx (rows2 out) i) (bidx (cols2 out) j)
               + (1 - alpha) * at2 x (bidx (rows2 x) i) (bidx (cols2 x) j))%R
         |}
  | _, _ => Err ShapeMismatch
  end.

(** [tlx.nn.Linear(in_features, out_features, act='relu6')]. *)
Record Linear : Type :=
  { in_features : nat; out_features : nat;
    weights : nat -> nat -> R; biases : nat -> R }.

Definition Linear_forward (l : Linear) (x : Tensor2) : result Tensor2 :=
  if cols2 x =? in_features l then
    Ok {| rows2 := rows2 x; cols2 := out_features l;
          at2 := fun i j =>
            relu6 (sum_upto (in_features l)
                     (fun k => (at2 x i k * weights l k j)%R)
                   + biases l j)%R |}
  else Err ShapeMismatch.

(** [tlx.layers.Dropout(rate)] for one sampled pass; [keep] is the random
    draw, one Boolean per element.  A rate of 0 keeps every element. *)
Definition dropout (rate : R) (keep : nat -> nat -> bool) (x : Tensor2)
  : Tensor2 :=
  {| rows2 := rows2 x; cols2 := cols2 x;
     at2 := fun i j =>
       if Req_dec_T rate 0 then at2 x i j
       else if keep i j then (at2 x i j / (1 - rate))%R else 0%R |}.

(* ================================================================= *)
(** ** Segment reduction, segment softmax, the inspector *)

Inductive reduce_op : Type := op_sum | op_mean | op_min | op_max.

Definition reduce_list (op : reduce_op) (l : list R) : R :=
  match op with
  | op_sum => Rsum l
  | op_mean =>
      match l with
      | [] => 0%R
      | _ => (Rsum l / INR (length l))%R
      end
  | op_min => Rmin_list l
  | op_max => Rmax_list l
  end.

(** The positions of the values tagged with group [g]. *)
Definition members (ids : list nat) (g : nat) : list nat :=
  filter (fun e => nth e ids 0 =? g) (seq 0 (length ids)).

(** Modelled from the spec: the Segment Reduction Primitive
    [reduce(values, group_ids, group_count, op)] that
    [gammagl/layers/conv/message_passing.py] and [gammagl/utils/softmax.py]
    call; the spec's section 4.1.  One value row per group id, ids below
    [group_count], an empty group gives the additive identity. *)
Definition segment_reduce (op : reduce_op) (values : Tensor2)
    (group_ids : list nat) (group_count : nat) : result Tensor2 :=
  if negb (rows2 values =? length group_ids) then Err ShapeMismatch
  else if forallb (fun g => g <? group_count) group_ids then
    Ok {| rows2 := group_count; cols2 := cols2 values;
          at2 := fun g c =>
            reduce_list op
              (map (fun e => at2 values e c) (members group_ids g)) |}
  else Err IndexOutOfRange.

(** Modelled from the spec: [segment_softmax] of [gammagl/utils/softmax.py];
    the spec's section 4.2, steps (1) to (4), on a score per edge and head:
    the per-group maximum gathered back to each edge, the exponential of the
    shifted score, the per-group sum of the exponentials, the quotient. *)
Definition segment_softmax (scores : Tensor2) (group_ids : list nat)
    (group_count : nat) : result Tensor2 :=
  mx <- segment_reduce op_max scores group_ids group_count ;;
  let ex := {| rows2 := rows2 scores; cols2 := cols2 scores;
               at2 := fun e h =>
                 exp (at2 scores e h - at2 mx (nth e group_ids 0%nat) h) |} in
  sm <- segment_reduce op_sum ex group_ids group_count ;;
  Ok {| rows2 := rows2 scores; cols2 := cols2 scores;
        at2 := fun e h =>
          (at2 ex e h / at2 sm (nth e group_ids 0%nat) h)%R |}.

(** An edge index is a (2, E) integer tensor: one (source, target) column per
    edge; [edge_index[0]] and [edge_index[1]] are its two rows. *)
Definition EdgeIndex : Type := list (nat * nat).

Definition row0 (edge_index : EdgeIndex) : list nat := map fst edge_index.
Definition row1 (edge_index : EdgeIndex) : list nat := map snd edge_index.

(** The values a keyword argument can hold. *)
Inductive value : Type :=
| VTensor3 (t : Tensor3)
| VTensor1 (t : Tensor1)
| VIndex (l : list nat)
| VEdgeIndex (ei : EdgeIndex)
| VInt (n : nat)
| VStr (s : string).

(** Modelled from the spec: [Inspector.distribute] of
    [gammagl/utils/inspector.py]; the spec's section 4.4.  Every declared
    parameter name is looked up among the collected values, and a name
    without a value raises. *)
Fixpoint distribute (params : list string) (coll_dict : dict value)
  : result (dict value) :=
  match params with
  | [] => Ok []
  | p :: rest =>
      match lookup p coll_dict with
      | None => Err MissingArgument
      | Some v =>
          out <- distribute rest coll_dict ;;
          Ok ((p, v) :: out)
      end
  end.

Definition aggr_op (aggr : string) : result reduce_op :=
  if String.eqb aggr "sum" then Ok op_sum
  else if String.eqb aggr "mean" then Ok op_mean
  else if String.eqb aggr "min" then Ok op_min
  else if String.eqb aggr "max" then Ok op_max
  else Err UnknownAggr.

(** Modelled from the spec: [MessagePassing.aggregate] of
    [gammagl/layers/conv/message_passing.py]; the spec's section 4.4: the
    messages and the target indices go to Segment Reduction, keyed by target
    index and destination node count. *)
Definition MessagePassing_aggregate (msg : Tensor2) (edge_index : EdgeIndex)
    (num_nodes : nat) (aggr : string) : result Tensor2 :=
  op <- aggr_op aggr ;;
  segment_reduce op msg (row1 edge_index) num_nodes.

(** Modelled from the spec: [MessagePassing.update] of
    [gammagl/layers/conv/message_passing.py]: the optional post-aggregation
    stage, which the base class leaves as the identity. *)
Definition MessagePassing_update (x : Tensor2) : Tensor2 := x.

(* ================================================================= *)
(** ** The layer *)

Definition EdgeType : Type := (string * string * string)%type.

(** ['__'.join(edge_type)]. *)
Definition join (edge_type : EdgeType) : string :=
  let '(src_type, relation, dst_type) := edge_type in
  (src_type ++ "__" ++ relation ++ "__" ++ dst_type)%string.

Record HGTConv : Type :=
  { in_channels : dict nat;
    out_channels : nat;
    heads : nat;
    group : string;
    dropout_rate : R;
    k_lin : dict Linear;
    q_lin : dict Linear;
    v_lin : dict Linear;
    a_lin : dict Linear;
    skip : dict R;
    a_rel : dict Tensor3;
    m_rel : dict Tensor3;
    p_rel : dict Tensor1 }.

(** The values the initializers draw: the weights and biases of the four
    dense layers of a node type, and the two relation transforms of an edge
    type, by parameter name. *)
Record Initial : Type :=
  { W0 : string -> string -> nat -> nat -> R;
    b0 : string -> string -> nat -> R;
    rel0 : string -> nat -> nat -> nat -> R }.

Definition new_Linear (ini : Initial) (role node_type : string)
    (n_in n_out : nat) : Linear :=
  {| in_features := n_in; out_features := n_out;
     weights := W0 ini role node_type; biases := b0 ini role node_type |}.

Definition get_weights (ini : Initial) (name : string) (a b c : nat)
  : Tensor3 :=
  {| dim0 := a; dim1 := b; dim2 := c; at3 := rel0 ini name |}.

Definition ones (n : nat) : Tensor1 := {| len1 := n; at1 := fun _ => 1%R |}.

(** [Linear(in_features=n_in, out_features=n_out, act='relu6')] builds its
    weights when it is constructed; with [in_features = 0] the constructor
    takes the width for missing and raises TypeError. *)
Definition Linear_init (ini : Initial) (role node_type : string)
    (n_in n_out : nat) : result Linear :=
  if n_in =? 0 then Err ZeroWidth
  else Ok (new_Linear ini role node_type n_in n_out).

(** The dictionaries the loop over the node types fills. *)
Record NodeParams : Type :=
  { nk_lin : dict Linear; nq_lin : dict Linear; nv_lin : dict Linear;
    na_lin : dict Linear; nskip : dict R }.

(** Lines 58 to 63: the loop over [self.in_channels.items()]. *)
Fixpoint init_node_types (ini : Initial) (out_channels : nat)
    (items : dict nat) (acc : NodeParams) : result NodeParams :=
  match items with
  | [] => Ok acc
  | (node_type, n_in) :: rest =>
      k <- Linear_init ini "k" node_type n_in out_channels ;;
      q <- Linear_init ini "q" node_type n_in out_channels ;;
      v <- Linear_init ini "v" node_type n_in out_channels ;;
      a <- Linear_init ini "a" node_type out_channels out_channels ;;
      init_node_types ini out_channels rest
        {| nk_lin := setitem node_type k (nk_lin acc);
           nq_lin := setitem node_type q (nq_lin acc);
           nv_lin := setitem node_type v (nv_lin acc);
           na_lin := setitem node_type a (na_lin acc);
           nskip := setitem node_type 1%R (nskip acc) |}
  end.

(** [HGTConv.__init__]: the loop over the node types, then
    [dim = out_channels // heads] and the loop over the edge types. *)
Definition HGTConv_init (in_channels : nat + dict nat) (out_channels : nat)
    (metadata : list string * list EdgeType) (heads : nat) (group : string)
    (dropout_rate : R) (ini : Initial) : result HGTConv :=
  let in_channels :=
    match in_channels with
    | inl n => fold_left (fun d node_type => setitem node_type n d)
                 (fst metadata) []
    | inr d => d
    end in
  nodes <- init_node_types ini out_channels in_channels
             {| nk_lin := []; nq_lin := []; nv_lin := []; na_lin := [];
                nskip := [] |} ;;
  if heads =? 0 then Err ZeroDivision
  else
    let dim := out_channels / heads in
    Ok {| in_channels := in_channels;
          out_channels := out_channels;
          heads := heads;
          group := group;
          dropout_rate := dropout_rate;
          k_lin := nk_lin nodes;
          q_lin := nq_lin nodes;
          v_lin := nv_lin nodes;
          a_lin := na_lin nodes;
          skip := nskip nodes;
          a_rel :=
            fold_left (fun d et =>
                         let name := (join et ++ "a")%string in
                         setitem name (get_weights ini name heads dim dim) d)
              (snd metadata) [];
          m_rel :=
            fold_left (fun d et =>
                         let name := (join et ++ "m")%string in
                         setitem name (get_weights ini name heads dim dim) d)
              (snd metadata) [];
          p_rel :=
            fold_left (fun d et => setitem (join et) (ones heads) d)
              (snd metadata) [] |}.

(** The parameter names the inspector records for [message]: its signature
    without [self]. *)
Definition message_params : list string :=
  ["k_j"; "q_i"; "v_j"; "rel"; "target_index"; "num_nodes"]%string.

(** [HGTConv.message], lines 140 to 143: the attention weights. *)
Definition attention (self : HGTConv) (keep : nat -> nat -> bool)
    (k_j q_i : Tensor3) (rel : Tensor1) (target_index : list nat)
    (num_nodes : nat) : result Tensor2 :=
  kq <- mul3 k_j q_i ;;
  let alpha := reduce_sum_last kq in
  alpha <- mul2_vec alpha rel ;;
  let alpha := div_scalar alpha (sqrt (INR (dim2 q_i))) in
  alpha <- segment_softmax alpha target_index num_nodes ;;
  Ok (dropout (dropout_rate self) keep alpha).

(** [HGTConv.message], line 144: the per-edge weighted values. *)
Definition weighted_values (self : HGTConv) (keep : nat -> nat -> bool)
    (k_j q_i v_j : Tensor3) (rel : Tensor1) (target_index : list nat)
    (num_nodes : nat) : result Tensor3 :=
  alpha <- attention self keep k_j q_i rel target_index num_nodes ;;
  mul3 v_j (expand_dims alpha).

(** [HGTConv.message]. *)
Definition message (self : HGTConv) (keep : nat -> nat -> bool)
    (k_j q_i v_j : Tensor3) (rel : Tensor1) (target_index : list nat)
    (num_nodes : nat) : result Tensor2 :=
  out <- weighted_values self keep k_j q_i v_j rel target_index num_nodes ;;
  reshape_3_2 out (out_channels self).

Definition as_tensor3 (v : value) : result Tensor3 :=
  match v with VTensor3 t => Ok t | _ => Err TypeMismatch end.
Definition as_tensor1 (v : value) : result Tensor1 :=
  match v with VTensor1 t => Ok t | _ => Err TypeMismatch end.
Definition as_index (v : value) : result (list nat) :=
  match v with VIndex l => Ok l | _ => Err TypeMismatch end.
Definition as_int (v : value) : result nat :=
  match v with VInt n => Ok n | _ => Err TypeMismatch end.

Definition kwarg (kwargs : dict value) (name : string) : result value :=
  match lookup name kwargs with
  | Some v => Ok v
  | None => Err KeyError
  end.

(** The call of [self.message] with the distributed keyword arguments. *)
Definition call_message (self : HGTConv) (keep : nat -> nat -> bool)
    (msg_kwargs : dict value) : result Tensor2 :=
  k_j <- bind (kwarg msg_kwargs "k_j") as_tensor3 ;;
  q_i <- bind (kwarg msg_kwargs "q_i") as_tensor3 ;;
  v_j <- bind (kwarg msg_kwargs "v_j") as_tensor3 ;;
  rel <- bind (kwarg msg_kwargs "rel") as_tensor1 ;;
  target_index <- bind (kwarg msg_kwargs "target_index") as_index ;;
  num_nodes <- bind (kwarg msg_kwargs "num_nodes") as_int ;;
  message self keep k_j q_i v_j rel target_index num_nodes.

(** [HGTConv.aggregate] and [HGTConv.update] defer to the base class. *)
Definition aggregate (msg : Tensor2) (edge_index : EdgeIndex)
    (num_nodes : nat) (aggr : string) : result Tensor2 :=
  MessagePassing_aggregate msg edge_index num_nodes aggr.

Definition update (x : Tensor2) : Tensor2 := MessagePassing_update x.

(** [HGTConv.propagate]. *)
Definition propagate (self : HGTConv) (keep : nat -> nat -> bool)
    (edge_index : EdgeIndex) (aggr : string) (kwargs : dict value)
  : result Tensor2 :=
  let coll_dict := fold_left (fun d '(k, v) => setitem k v d) kwargs [] in
  let coll_dict := setitem "edge_index" (VEdgeIndex edge_index) coll_dict in
  let coll_dict := setitem "aggr" (VStr aggr) coll_dict in
  let coll_dict :=
    setitem "target_index" (VIndex (row1 edge_index)) coll_dict in
  msg_kwargs <- distribute message_params coll_dict ;;
  msg <- call_message self keep msg_kwargs ;;
  num_nodes <- bind (kwarg kwargs "num_nodes") as_int ;;
  x <- aggregate msg edge_index num_nodes aggr ;;
  Ok (update x).

(** Lines 99 and 102: the relation transform of a (N, H, D) tensor. *)
Definition rel_transform (t rel : Tensor3) : result Tensor3 :=
  r <- matmul (transpose t) rel ;;
  Ok (transpose r).

(** The dictionaries of the forward pass. *)
Record Projections : Type :=
  { k_dict : dict Tensor3;
    q_dict : dict Tensor3;
    v_dict : dict Tensor3;
    out_dict : dict (list Tensor2) }.

(** Lines 86 to 90: the body of the first loop over node types. *)
Definition project (self : HGTConv) (H D : nat) (st : Projections)
    (node_type : string) (x : Tensor2) : result Projections :=
  kl <- getitem (k_lin self) node_type ;;
  kx <- Linear_forward kl x ;;
  k <- reshape_2_3 kx H D ;;
  ql <- getitem (q_lin self) node_type ;;
  qx <- Linear_forward ql x ;;
  q <- reshape_2_3 qx H D ;;
  vl <- getitem (v_lin self) node_type ;;
  vx <- Linear_forward vl x ;;
  v <- reshape_2_3 vx H D ;;
  Ok {| k_dict := setitem node_type k (k_dict st);
        q_dict := setitem node_type q (q_dict st);
        v_dict := setitem node_type v (v_dict st);
        out_dict := setitem node_type [] (out_dict st) |}.

Fixpoint project_all (self : HGTConv) (H D : nat) (items : dict Tensor2)
    (st : Projections) : result Projections :=
  match items with
  | [] => Ok st
  | (node_type, x) :: rest =>
      st' <- project self H D st node_type x ;;
      project_all self H D rest st'
  end.

(** Lines 93 to 113: the body of the loop over edge types. *)
Definition edge_step (self : HGTConv) (keep : nat -> nat -> bool)
    (x_dict : dict Tensor2) (st : Projections)
    (out_dict : dict (list Tensor2)) (edge_type : EdgeType)
    (edge_index : EdgeIndex) : result (dict (list Tensor2)) :=
  let '(src_type, _, dst_type) := edge_type in
  let edge_type := join edge_type in
  a_rel <- getitem (a_rel self) (edge_type ++ "a") ;;
  ks <- getitem (k_dict st) src_type ;;
  k <- rel_transform ks a_rel ;;
  m_rel <- getitem (m_rel self) (edge_type ++ "m") ;;
  vs <- getitem (v_dict st) src_type ;;
  v <- rel_transform vs m_rel ;;
  let source_index := row0 edge_index in
  let target_index := row1 edge_index in
  qd <- getitem (q_dict st) dst_type ;;
  q_i <- gather qd target_index ;;
  v_j <- gather v source_index ;;
  k_j <- gather k source_index ;;
  rel <- getitem (p_rel self) edge_type ;;
  xd <- getitem x_dict dst_type ;;
  out <- propagate self keep edge_index "sum"
           [("q_i", VTensor3 q_i); ("k_j", VTensor3 k_j);
            ("v_j", VTensor3 v_j); ("rel", VTensor1 rel);
            ("num_nodes", VInt (rows2 xd))]%string ;;
  outs <- getitem out_dict dst_type ;;
  Ok (setitem dst_type (outs ++ [out]) out_dict).

(** The loop over edge types; [keep n] is the dropout draw of its [n]-th
    message call. *)
Fixpoint edge_loop (self : HGTConv) (keep : nat -> nat -> nat -> bool)
    (x_dict : dict Tensor2) (st : Projections) (n : nat)
    (items : list (EdgeType * EdgeIndex)) (out_dict : dict (list Tensor2))
  : result (dict (list Tensor2)) :=
  match items with
  | [] => Ok out_dict
  | (edge_type, edge_index) :: rest =>
      out_dict' <- edge_step self (keep n) x_dict st out_dict
                     edge_type edge_index ;;
      edge_loop self keep x_dict st (S n) rest out_dict'
  end.

(** Lines 117 to 121: the body of the second loop over node types. *)
Definition update_node (self : HGTConv) (x_dict : dict Tensor2)
    (node_type : string) (outs : list Tensor2) : result Tensor2 :=
  outs <- stack outs ;;
  let out := reduce_sum_first outs in
  al <- getitem (a_lin self) node_type ;;
  out <- Linear_forward al out ;;
  s <- getitem (skip self) node_type ;;
  let alpha := sigmoid s in
  x <- getitem x_dict node_type ;;
  blend alpha out x.

Fixpoint update_all (self : HGTConv) (x_dict : dict Tensor2)
    (items : dict (list Tensor2)) : result (dict Tensor2) :=
  match items with
  | [] => Ok []
  | (node_type, outs) :: rest =>
      out <- update_node self x_dict node_type outs ;;
      done <- update_all self x_dict rest ;;
      Ok ((node_type, out) :: done)
  end.

(** [HGTConv.forward]. *)
Definition forward (self : HGTConv) (keep : nat -> nat -> nat -> bool)
    (x_dict : dict Tensor2) (edge_index_dict : list (EdgeType * EdgeIndex))
  : result (dict Tensor2) :=
  if heads self =? 0 then Err ZeroDivision
  else
    let H := heads self in
    let D := out_channels self / heads self in
    st <- project_all self H D x_dict
            {| k_dict := []; q_dict := []; v_dict := []; out_dict := [] |} ;;
    outs <- edge_loop self keep x_dict st 0 edge_index_dict (out_dict st) ;;
    update_all self x_dict outs.

(* ================================================================= *)
(** ** Sample layers and inputs *)

(** The value of Segment Softmax at edge [e] and head [h], for scores [s]
    and group ids [ids]: the closed form of the four steps. *)
Definition group_max (s : nat -> nat -> R) (ids : list nat) (g h : nat) : R :=
  Rmax_list (map (fun e => s e h) (members ids g)).

Definition shifted_exp (s : nat -> nat -> R) (ids : list nat) (e h : nat)
  : R :=
  exp (s e h - group_max s ids (nth e ids 0) h).

Definition softmax_value (s : nat -> nat -> R) (ids : list nat) (e h : nat)
  : R :=
  (shifted_exp s ids e h
   / Rsum (map (fun e' => shifted_exp s ids e' h)
             (members ids (nth e ids 0%nat))))%R.

(** The attention score of the message stage, as the spec words it: the dot
    product of key and query over the head dimension, times the edge type's
    importance scalar of the head, scaled by the root of the head
    dimension. *)
Definition score (k_j q_i : Tensor3) (rel : Tensor1) (e h : nat) : R :=
  (sum_upto (dim2 q_i) (fun d => at3 k_j e h d * at3 q_i e h d)
   * at1 rel h / sqrt (INR (dim2 q_i)))%R.

Definition scores (k_j q_i : Tensor3) (rel : Tensor1) : Tensor2 :=
  {| rows2 := dim0 q_i; cols2 := dim1 q_i; at2 := score k_j q_i rel |}.

Definition shape3 (t : Tensor3) : nat * nat * nat := (dim0 t, dim1 t, dim2 t).

(** The inputs [forward] hands to the message stage for [E] edges, [H] heads
    of width [D] and [n] destination nodes. *)
Definition message_inputs (E H D n : nat) (k_j q_i v_j : Tensor3)
    (rel : Tensor1) (target_index : list nat) : Prop :=
  shape3 k_j = (E, H, D) /\ shape3 q_i = (E, H, D)
  /\ shape3 v_j = (E, H, D) /\ len1 rel = H
  /\ length target_index = E /\ Forall (fun t => t < n) target_index.

(** One element of the dropout layer's output. *)
Definition dropped (rate : R) (keep : bool) (x : R) : R :=
  if Req_dec_T rate 0 then x
  else if keep then (x / (1 - rate))%R else 0%R.

(** Initial values: every weight 1, every bias 0. *)
Definition unit_init : Initial :=
  {| W0 := fun _ _ _ _ => 1%R; b0 := fun _ _ _ => 0%R;
     rel0 := fun _ _ _ _ => 1%R |}.

Definition empty_layer : HGTConv :=
  {| in_channels := []; out_channels := 0; heads := 0; group := "sum";
     dropout_rate := 0%R; k_lin := []; q_lin := []; v_lin := [];
     a_lin := []; skip := []; a_rel := []; m_rel := []; p_rel := [] |}.

Definition constructed (r : result HGTConv) : HGTConv :=
  match r with Ok self => self | Err _ => empty_layer end.

(** [HGTConv(1, 1, (['a', 'b'], [('a', 'to', 'b'), ('b', 'to', 'a')]))]. *)
Definition layer_ab : HGTConv :=
  constructed
    (HGTConv_init (inl 1) 1
       (["a"; "b"], [("a", "to", "b"); ("b", "to", "a")])%string
       1 "sum" 0%R unit_init).

Definition const3 (a b c : nat) (x : R) : Tensor3 :=
  {| dim0 := a; dim1 := b; dim2 := c; at3 := fun _ _ _ => x |}.

Definition const2 (a b : nat) (x : R) : Tensor2 :=
  {| rows2 := a; cols2 := b; at2 := fun _ _ => x |}.

Definition keep_all : nat -> nat -> nat -> bool := fun _ _ _ => true.

(** One node of type a and one of type b, an edge each way. *)
Definition x_ab : dict Tensor2 :=
  [("a", of_rows 1 [[1%R]]); ("b", of_rows 1 [[1%R]])]%string.

Definition edges_ab : list (EdgeType * EdgeIndex) :=
  [(("a", "to", "b"), [(0, 0)]); (("b", "to", "a"), [(0, 0)])]%string.

(** Two tensors with the same shape and the same elements. *)
Definition tensor2_eq (a b : Tensor2) : Prop :=
  rows2 a = rows2 b /\ cols2 a = cols2 b
  /\ forall i j, i < rows2 a -> j < cols2 a -> at2 a i j = at2 b i j.

Definition tensor3_eq (a b : Tensor3) : Prop :=
  dim0 a = dim0 b /\ dim1 a = dim1 b /\ dim2 a = dim2 b
  /\ forall i j k, i < dim0 a -> j < dim1 a -> k < dim2 a ->
       at3 a i j k = at3 b i j k.

(** Two calls that raise the same exception or return related values. *)
Definition result_rel {A B : Type} (R : A -> B -> Prop) (c : result A)
    (c' : result B) : Prop :=
  match c, c' with
  | Ok a, Ok a' => R a a'
  | Err e, Err e' => e = e'
  | _, _ => False
  end.

(** Dictionaries with the same keys in the same order and equal tensors. *)
Definition same_outputs (d d' : dict Tensor2) : Prop :=
  Forall2 (fun p q => fst p = fst q /\ tensor2_eq (snd p) (snd q)) d d'.

Definition same_collected (d d' : dict (list Tensor2)) : Prop :=
  Forall2 (fun p q => fst p = fst q /\ Forall2 tensor2_eq (snd p) (snd q))
    d d'.

(** Edge index dictionaries with the same edge types, the edges of each
    type permuted. *)
Definition edges_permuted (d d' : list (EdgeType * EdgeIndex)) : Prop :=
  Forall2 (fun p q => fst p = fst q /\ Permutation (snd p) (snd q)) d d'.

(** Per-edge tensors of two runs over two orders of the same edges: the
    element at position [e] is one function of the edge at that position. *)
Definition edgewise3 (ei ei' : EdgeIndex) (t t' : Tensor3) : Prop :=
  dim0 t = length ei /\ dim0 t' = length ei'
  /\ dim1 t = dim1 t' /\ dim2 t = dim2 t'
  /\ exists F : nat * nat -> nat -> nat -> R,
       (forall e h d, e < length ei -> at3 t e h d = F (nth e ei (0, 0)) h d)
       /\ (forall e h d, e < length ei' ->
             at3 t' e h d = F (nth e ei' (0, 0)) h d).

Definition edgewise2 (ei ei' : EdgeIndex) (t t' : Tensor2) : Prop :=
  rows2 t = length ei /\ rows2 t' = length ei' /\ cols2 t = cols2 t'
  /\ exists F : nat * nat -> nat -> R,
       (forall e h, e < length ei -> at2 t e h = F (nth e ei (0, 0)) h)
       /\ (forall e h, e < length ei' -> at2 t' e h = F (nth e ei' (0, 0)) h).

(** Segment Softmax read off the edge list: the weight of edge [p] under
    per-edge scores [S], among the edges that share its target. *)
Definition edges_max (S : nat * nat -> nat -> R) (ei : EdgeIndex)
    (g h : nat) : R :=
  Rmax_list (map (fun p => S p h) (filter (fun p => snd p =? g) ei)).

Definition edges_exp (S : nat * nat -> nat -> R) (ei : EdgeIndex)
    (p : nat * nat) (h : nat) : R :=
  exp (S p h - edges_max S ei (snd p) h).

Definition edges_softmax (S : nat * nat -> nat -> R) (ei : EdgeIndex)
    (p : nat * nat) (h : nat) : R :=
  (edges_exp S ei p h
   / Rsum (map (fun p' => edges_exp S ei p' h)
             (filter (fun p' => snd p' =? snd p) ei)))%R.

(** [HGTConv(1, 1, (['a'], [('a','to','a'), ('a','cites','a')]),
    group='mean')]: two relations into one node type. *)
Definition layer_mean : HGTConv :=
  constructed
    (HGTConv_init (inl 1) 1
       (["a"], [("a", "to", "a"); ("a", "cites", "a")])%string
       1 "mean" 0%R unit_init).

(** [HGTConv(1, 2, (['a'], [('a','to','a')]))]: input width 1, output
    width 2. *)
Definition layer_narrow : HGTConv :=
  constructed
    (HGTConv_init (inl 1) 2 (["a"], [("a", "to", "a")])%string
       1 "sum" 0%R unit_init).

(** One node of type a with feature [1.0]. *)
Definition x_a : dict Tensor2 := [("a", of_rows 1 [[1%R]])]%string.

Definition edges_two : list (EdgeType * EdgeIndex) :=
  [(("a", "to", "a"), [(0, 0)]); (("a", "cites", "a"), [(0, 0)])]%string.

Definition edges_loop : list (EdgeType * EdgeIndex) :=
  [(("a", "to", "a"), [(0, 0)])]%string.

(** Type b is a source only: no edge type ends in it. *)
Definition edges_a_to_b : list (EdgeType * EdgeIndex) :=
  [(("a", "to", "b"), [(0, 0)])]%string.

(** Two nodes of type a, one of type b. *)
Definition x_two : dict Tensor2 :=
  [("a", of_rows 1 [[1%R]; [2%R]]); ("b", of_rows 1 [[1%R]])]%string.

Definition edges_in_order : list (EdgeType * EdgeIndex) :=
  [(("a", "to", "b"), [(0, 0); (1, 0)]);
   (("b", "to", "a"), [(0, 0); (0, 1)])]%string.

Definition edges_swapped : list (EdgeType * EdgeIndex) :=
  [(("a", "to", "b"), [(1, 0); (0, 0)]);
   (("b", "to", "a"), [(0, 0); (0, 1)])]%string.

(** The keys of a dictionary, in insertion order. *)
Definition keys {V : Type} (d : dict V) : list string := map fst d.

Definition src_type_of (edge_type : EdgeType) : string := fst (fst edge_type).
Definition dst_type_of (edge_type : EdgeType) : string := snd edge_type.

Definition head_dim (self : HGTConv) : nat := out_channels self / heads self.

(** The shapes [__init__] gives the parameters, for a head count that
    divides a positive number of output channels. *)
Definition well_formed (self : HGTConv) : Prop :=
  heads self <> 0 /\ out_channels self <> 0
  /\ heads self * head_dim self = out_channels self
  /\ (forall nt l, lookup nt (k_lin self) = Some l ->
        out_features l = out_channels self)
  /\ (forall nt l, lookup nt (q_lin self) = Some l ->
        out_features l = out_channels self)
  /\ (forall nt l, lookup nt (v_lin self) = Some l ->
        out_features l = out_channels self)
  /\ (forall nt l, lookup nt (a_lin self) = Some l ->
        in_features l = out_channels self
        /\ out_features l = out_channels self)
  /\ (forall name t, lookup name (a_rel self) = Some t ->
        shape3 t = (heads self, head_dim self, head_dim self))
  /\ (forall name t, lookup name (m_rel self) = Some t ->
        shape3 t = (heads self, head_dim self, head_dim self))
  /\ (forall name t, lookup name (p_rel self) = Some t ->
        len1 t = heads self).

(** Inputs that fit a layer: node types without duplicates, each with its
    parameters, features of the width its projections expect and of a width
    the blend can add to [out_channels], and an edge type that ends in it;
    edge types with their parameters, features for both ends and indices
    inside the node ranges. *)
Definition valid_input (self : HGTConv) (x_dict : dict Tensor2)
    (edge_index_dict : list (EdgeType * EdgeIndex)) : Prop :=
  NoDup (keys x_dict)
  /\ (forall nt x, In (nt, x) x_dict ->
        (exists kl ql vl,
           lookup nt (k_lin self) = Some kl
           /\ lookup nt (q_lin self) = Some ql
           /\ lookup nt (v_lin self) = Some vl
           /\ in_features kl = cols2 x /\ in_features ql = cols2 x
           /\ in_features vl = cols2 x)
        /\ lookup nt (a_lin self) <> None
        /\ lookup nt (skip self) <> None
        /\ (cols2 x = out_channels self \/ cols2 x = 1
            \/ out_channels self = 1)
        /\ exists et ei,
             In (et, ei) edge_index_dict /\ dst_type_of et = nt)
  /\ (forall et ei, In (et, ei) edge_index_dict ->
        lookup (join et ++ "a") (a_rel self) <> None
        /\ lookup (join et ++ "m") (m_rel self) <> None
        /\ lookup (join et) (p_rel self) <> None
        /\ exists xs xd,
             lookup (src_type_of et) x_dict = Some xs
             /\ lookup (dst_type_of et) x_dict = Some xd
             /\ Forall (fun p => fst p < rows2 xs /\ snd p < rows2 xd) ei).

(** The state after the first loop: every node type of the input has its
    three projections, of shape (nodes, heads, head_dim). *)
Definition projected_for (self : HGTConv) (st : Projections) (nt : string)
    (x : Tensor2) : Prop :=
  exists k q v,
    lookup nt (k_dict st) = Some k /\ lookup nt (q_dict st) = Some q
    /\ lookup nt (v_dict st) = Some v
    /\ shape3 k = (rows2 x, heads self, head_dim self)
    /\ shape3 q = (rows2 x, heads self, head_dim self)
    /\ shape3 v = (rows2 x, heads self, head_dim self).

(** The per-relation outputs collected so far: one list per node type of the
    input, each output with one row per node and [out_channels] columns. *)
Definition collected_ok (self : HGTConv) (x_dict : dict Tensor2)
    (o : dict (list Tensor2)) : Prop :=
  keys o = keys x_dict
  /\ forall nt outs, lookup nt o = Some outs ->
       exists x,
         lookup nt x_dict = Some x
         /\ Forall (fun t => rows2 t = rows2 x
                             /\ cols2 t = out_channels self) outs.

(** What [valid_input] asks of one edge type. *)
Definition edge_type_ok (self : HGTConv) (x_dict : dict Tensor2)
    (et : EdgeType) (ei : EdgeIndex) : Prop :=
  lookup (join et ++ "a") (a_rel self) <> None
  /\ lookup (join et ++ "m") (m_rel self) <> None
  /\ lookup (join et) (p_rel self) <> None
  /\ exists xs xd,
       lookup (src_type_of et) x_dict = Some xs
       /\ lookup (dst_type_of et) x_dict = Some xd
       /\ Forall (fun p => fst p < rows2 xs /\ snd p < rows2 xd) ei.

(** Type a to type b without any edge; the second node of type a has no
    incoming edge. *)
Definition edges_sparse : list (EdgeType * EdgeIndex) :=
  [(("a", "to", "b"), []); (("b", "to", "a"), [(0, 0)])]%string.

(** The tensor an edge type contributes to its destination: the body of
    the loop over edge types up to the call of [propagate] (lines 93 to
    112), which does not read [out_dict]. *)
Definition edge_out (self : HGTConv) (keep : nat -> nat -> bool)
    (x_dict : dict Tensor2) (st : Projections) (edge_type : EdgeType)
    (edge_index : EdgeIndex) : result Tensor2 :=
  let '(src_type, _, dst_type) := edge_type in
  let edge_type := join edge_type in
  a_rel <- getitem (a_rel self) (edge_type ++ "a") ;;
  ks <- getitem (k_dict st) src_type ;;
  k <- rel_transform ks a_rel ;;
  m_rel <- getitem (m_rel self) (edge_type ++ "m") ;;
  vs <- getitem (v_dict st) src_type ;;
  v <- rel_transform vs m_rel ;;
  let source_index := row0 edge_index in
  let target_index := row1 edge_index in
  qd <- getitem (q_dict st) dst_type ;;
  q_i <- gather qd target_index ;;
  v_j <- gather v source_index ;;
  k_j <- gather k source_index ;;
  rel <- getitem (p_rel self) edge_type ;;
  xd <- getitem x_dict dst_type ;;
  propagate self keep edge_index "sum"
    [("q_i", VTensor3 q_i); ("k_j", VTensor3 k_j);
     ("v_j", VTensor3 v_j); ("rel", VTensor1 rel);
     ("num_nodes", VInt (rows2 xd))]%string.





(** Initial values with key projections 0 (every score is 0, every softmax
    uniform), every other weight 1 and every bias 0. *)
Definition zero_key_init : Initial :=
  {| W0 := fun role _ _ _ => if String.eqb role "k" then 0%R else 1%R;
     b0 := fun _ _ _ => 0%R;
     rel0 := fun _ _ _ _ => 1%R |}.

(** [HGTConv(1, 1, (['a'], [('a','to','a')]), dropout_rate=0.5)]. *)
Definition layer_dropout : HGTConv :=
  constructed
    (HGTConv_init (inl 1) 1 (["a"], [("a", "to", "a")])%string
       1 "sum" (1 / 2)%R zero_key_init).

(** Two nodes of type a with features [1.0] and [2.0]. *)
Definition x_pair : dict Tensor2 :=
  [("a", of_rows 1 [[1%R]; [2%R]])]%string.

(** Both nodes send to node 0; the same two edges in two orders. *)
Definition edges_first : list (EdgeType * EdgeIndex) :=
  [(("a", "to", "a"), [(0, 0); (1, 0)])]%string.

Definition edges_second : list (EdgeType * EdgeIndex) :=
  [(("a", "to", "a"), [(1, 0); (0, 0)])]%string.

(** The draw that zeroes the first row of the attention weights and keeps
    the others. *)
Definition keep_but_first : nat -> nat -> nat -> bool :=
  fun _ e _ => negb (e =? 0).



(** Tensors of one shape, whatever their elements. *)
Definition shape2_eq (a b : Tensor2) : Prop :=
  rows2 a = rows2 b /\ cols2 a = cols2 b.

Definition shape3_eq (a b : Tensor3) : Prop :=
  dim0 a = dim0 b /\ dim1 a = dim1 b /\ dim2 a = dim2 b.

(** Dictionaries with the same keys in the same order and tensors of the
    same shapes. *)
Definition same_shapes (d d' : dict Tensor2) : Prop :=
  Forall2 (fun p q => fst p = fst q /\ shape2_eq (snd p) (snd q)) d d'.

(** The tensors collected for a node type, up to their order and their
    elements. *)
Definition outs_shapes (l l' : list Tensor2) : Prop :=
  exists m, Permutation l m /\ Forall2 shape2_eq m l'.

(** Collections with the same node types in the same order, the tensors of
    each node type up to their order and their elements. *)
Definition collected_shapes (d d' : dict (list Tensor2)) : Prop :=
  Forall2 (fun p q => fst p = fst q /\ outs_shapes (snd p) (snd q)) d d'.

(** [HGTConv(1, 1, metadata, heads=2)]: more heads than output channels. *)
Definition layer_two_heads : HGTConv :=
  constructed
    (HGTConv_init (inl 1) 1
       (["a"; "b"], [("a", "to", "b"); ("b", "to", "a")])%string
       2 "sum" 0%R unit_init).

Unset Implicit Arguments.

(** Evaluation of a call on concrete tensors, down to real arithmetic. *)
Ltac run :=
  lazy -[Rplus Rmult Rminus Ropp Rinv Rdiv exp sqrt IZR Rmax Rmin INR
         Req_dec_T relu6 sigmoid].

Ltac run_in H :=
  lazy -[Rplus Rmult Rminus Ropp Rinv Rdiv exp sqrt IZR Rmax Rmin INR
         Req_dec_T relu6 sigmoid] in H.

(* ================================================================= *)
(** ** Sums, broadcasting and dictionaries *)

Lemma bdim_same (a : nat) : bdim a a = Some a.
Proof. unfold bdim. now rewrite Nat.eqb_refl. Qed.

Lemma bdim_one_r (a : nat) : bdim a 1 = Some a.
Proof.
  unfold bdim. destruct (a =? 1) eqn:E.
  - apply Nat.eqb_eq in E. now subst.
  - reflexivity.
Qed.

Lemma bidx_lt (a i : nat) : i < a -> bidx a i = i.
Proof.
  unfold bidx. intros Hi. destruct (a =? 1) eqn:E; [|reflexivity].
  apply Nat.eqb_eq in E. lia.
Qed.

Lemma bdim_Some_iff (a b c : nat) :
  bdim a b = Some c <->
  (a = b /\ c = a) \/ (a = 1 /\ c = b /\ a <> b)
  \/ (b = 1 /\ c = a /\ a <> b /\ a <> 1).
Proof.
  unfold bdim.
  destruct (a =? b) eqn:E1; [apply Nat.eqb_eq in E1|apply Nat.eqb_neq in E1].
  - split; [intros [= <-]; left; auto|].
    intros [[_ ->]|[[-> [-> Hn]]|[-> [-> [Hn _]]]]]; congruence.
  - destruct (a =? 1) eqn:E2;
      [apply Nat.eqb_eq in E2|apply Nat.eqb_neq in E2].
    + split; [intros [= <-]; right; left; auto|].
      intros [[Hab _]|[[_ [-> _]]|[_ [_ [_ Hn]]]]]; congruence.
    + destruct (b =? 1) eqn:E3;
        [apply Nat.eqb_eq in E3|apply Nat.eqb_neq in E3].
      * split; [intros [= <-]; right; right; auto|].
        intros [[Hab _]|[[Ha _]|[_ [-> _]]]]; congruence.
      * split; [discriminate|].
        intros [[Hab _]|[[Ha _]|[Hb _]]]; congruence.
Qed.

Lemma bdim_None_iff (a b : nat) :
  bdim a b = None <-> a <> b /\ a <> 1 /\ b <> 1.
Proof.
  unfold bdim.
  destruct (a =? b) eqn:E1; [apply Nat.eqb_eq in E1|apply Nat.eqb_neq in E1];
    [split; [discriminate|intros [? _]; congruence]|].
  destruct (a =? 1) eqn:E2; [apply Nat.eqb_eq in E2|apply Nat.eqb_neq in E2];
    [split; [discriminate|intros [_ [? _]]; congruence]|].
  destruct (b =? 1) eqn:E3; [apply Nat.eqb_eq in E3|apply Nat.eqb_neq in E3];
    [split; [discriminate|intros [_ [_ ?]]; congruence]|].
  tauto.
Qed.

Lemma Rsum_app (l1 l2 : list R) : Rsum (l1 ++ l2) = (Rsum l1 + Rsum l2)%R.
Proof.
  induction l1 as [|x l1 IH]; simpl; [lra|]. rewrite IH. lra.
Qed.

Lemma Rsum_Permutation (l1 l2 : list R) :
  Permutation l1 l2 -> Rsum l1 = Rsum l2.
Proof.
  induction 1; simpl; lra.
Qed.

Lemma Rsum_map_ext {A : Type} (f g : A -> R) (l : list A) :
  (forall a, In a l -> f a = g a) -> Rsum (map f l) = Rsum (map g l).
Proof.
  intros H. f_equal. now apply map_ext_in.
Qed.

Lemma sum_upto_ext (n : nat) (f g : nat -> R) :
  (forall i, i < n -> f i = g i) -> sum_upto n f = sum_upto n g.
Proof.
  intros H. apply Rsum_map_ext. intros i Hi. apply in_seq in Hi.
  apply H. lia.
Qed.

Lemma Rsum_map_div {A : Type} (f : A -> R) (s : R) (l : list A) :
  Rsum (map (fun a => (f a / s)%R) l) = (Rsum (map f l) / s)%R.
Proof.
  induction l as [|a l IH]; simpl; [lra|]. rewrite IH. lra.
Qed.

Lemma lookup_setitem {V : Type} (key k : string) (v : V) (d : dict V) :
  lookup key (setitem k v d) = if String.eqb key k then Some v else lookup key d.
Proof.
  induction d as [|[k' w] d IH]; simpl.
  - reflexivity.
  - destruct (String.eqb k k') eqn:E; simpl.
    + apply String.eqb_eq in E. subst k'.
      destruct (String.eqb key k); reflexivity.
    + destruct (String.eqb key k') eqn:E'.
      * apply String.eqb_eq in E'. subst k'.
        rewrite String.eqb_sym in E. now rewrite E.
      * exact IH.
Qed.

Lemma lookup_fold_setitem {V : Type} (key : string) (items acc : dict V) :
  lookup key items = None ->
  lookup key (fold_left (fun d '(k, v) => setitem k v d) items acc)
  = lookup key acc.
Proof.
  revert acc. induction items as [|[k v] items IH]; intros acc H; simpl.
  - reflexivity.
  - simpl in H. destruct (String.eqb key k) eqn:E; [discriminate|].
    rewrite IH by exact H. rewrite lookup_setitem. now rewrite E.
Qed.

Lemma distribute_missing (params : list string) (coll : dict value)
    (p : string) :
  In p params -> lookup p coll = None ->
  distribute params coll = Err MissingArgument.
Proof.
  induction params as [|q params IH]; intros Hin Hp; [contradiction|].
  simpl. destruct (lookup q coll) eqn:Hq.
  - destruct Hin as [->|Hin]; [congruence|].
    now rewrite IH.
  - reflexivity.
Qed.

(* ================================================================= *)
(** ** The relation transform *)

Lemma rel_transform_spec (t rel : Tensor3) :
  dim1 t = dim0 rel -> dim2 t = dim1 rel ->
  exists r,
    rel_transform t rel = Ok r
    /\ dim0 r = dim0 t /\ dim1 r = dim1 t /\ dim2 r = dim2 rel
    /\ forall n h m, h < dim1 t ->
         at3 r n h m
         = sum_upto (dim2 t) (fun d => (at3 t n h d * at3 rel h d m)%R).
Proof.
  intros H1 H2. unfold rel_transform, matmul. cbn [transpose dim0 dim1 dim2].
  rewrite H1, bdim_same, H2, Nat.eqb_refl. cbn [bind].
  eexists. split; [reflexivity|]. cbn [transpose dim0 dim1 dim2 at3].
  repeat split; try congruence.
  intros n h m Hh. rewrite bidx_lt by lia.
  apply sum_upto_ext. intros d Hd. reflexivity.
Qed.

(* ================================================================= *)
(** ** Parameter routing *)

Lemma message_params_not_reserved (p : string) :
  In p message_params -> p <> "edge_index"%string /\ p <> "aggr"%string.
Proof.
  unfold message_params. simpl.
  intros [<-|[<-|[<-|[<-|[<-|[<-|[]]]]]]]; split; discriminate.
Qed.

(** C8.  A call of [propagate] in which a parameter of [message] has no value
    among the keyword values of the caller (and is not the target index,
    which [propagate] itself supplies) ends in a MissingArgument error; no
    default is put in its place. *)
Theorem propagate_missing_argument (self : HGTConv)
    (keep : nat -> nat -> bool) (edge_index : EdgeIndex) (aggr : string)
    (kwargs : dict value) (p : string) :
  In p message_params -> p <> "target_index"%string ->
  lookup p kwargs = None ->
  propagate self keep edge_index aggr kwargs = Err MissingArgument.
Proof.
  intros Hin Ht Hk. unfold propagate.
  destruct (message_params_not_reserved p Hin) as [He Ha].
  rewrite (distribute_missing message_params _ p Hin); [reflexivity|].
  rewrite !lookup_setitem.
  apply String.eqb_neq in Ht, He, Ha. rewrite Ht, Ha, He.
  now rewrite lookup_fold_setitem.
Qed.

(* ================================================================= *)
(** ** Segment reduction and segment softmax *)

Lemma forallb_ltb (n : nat) (l : list nat) :
  forallb (fun g => g <? n) l = true <-> Forall (fun g => g < n) l.
Proof.
  rewrite forallb_forall, Forall_forall.
  split; intros H x Hx; specialize (H x Hx); now apply Nat.ltb_lt.
Qed.

Lemma segment_reduce_ok (op : reduce_op) (values : Tensor2)
    (ids : list nat) (n : nat) :
  rows2 values = length ids -> Forall (fun g => g < n) ids ->
  segment_reduce op values ids n
  = Ok {| rows2 := n; cols2 := cols2 values;
          at2 := fun g c =>
            reduce_list op (map (fun e => at2 values e c) (members ids g)) |}.
Proof.
  intros Hr Hf. unfold segment_reduce.
  rewrite Hr, Nat.eqb_refl. cbn [negb].
  apply forallb_ltb in Hf. now rewrite Hf.
Qed.

Lemma segment_reduce_inv (op : reduce_op) (values : Tensor2)
    (ids : list nat) (n : nat) (out : Tensor2) :
  segment_reduce op values ids n = Ok out ->
  rows2 values = length ids /\ Forall (fun g => g < n) ids.
Proof.
  unfold segment_reduce.
  destruct (rows2 values =? length ids) eqn:E; cbn [negb]; [|discriminate].
  destruct (forallb _ ids) eqn:F; [|discriminate].
  intros _. split; [now apply Nat.eqb_eq|now apply forallb_ltb].
Qed.

Lemma members_spec (ids : list nat) (g e : nat) :
  In e (members ids g) <-> e < length ids /\ nth e ids 0 = g.
Proof.
  unfold members. rewrite filter_In, in_seq, Nat.eqb_eq. lia.
Qed.

Lemma segment_softmax_ok (s : Tensor2) (ids : list nat) (n : nat) :
  rows2 s = length ids -> Forall (fun g => g < n) ids ->
  segment_softmax s ids n
  = Ok {| rows2 := rows2 s; cols2 := cols2 s;
          at2 := softmax_value (at2 s) ids |}.
Proof.
  intros Hr Hf. unfold segment_softmax.
  rewrite segment_reduce_ok by assumption. cbn [bind].
  rewrite segment_reduce_ok by assumption. cbn [bind].
  reflexivity.
Qed.

Lemma segment_softmax_inv (s : Tensor2) (ids : list nat) (n : nat)
    (out : Tensor2) :
  segment_softmax s ids n = Ok out ->
  rows2 s = length ids /\ Forall (fun g => g < n) ids.
Proof.
  unfold segment_softmax.
  destruct (segment_reduce op_max s ids n) eqn:E; [|discriminate].
  intros _. now apply segment_reduce_inv in E.
Qed.

Lemma Rsum_exp_pos {A : Type} (f : A -> R) (l : list A) :
  l <> [] -> (0 < Rsum (map (fun a => exp (f a)) l))%R.
Proof.
  destruct l as [|a l]; [congruence|]. intros _. simpl.
  assert (H : (0 <= Rsum (map (fun a => exp (f a)) l))%R).
  { induction l as [|b l IH]; simpl; [lra|].
    pose proof (exp_pos (f b)). lra. }
  pose proof (exp_pos (f a)). lra.
Qed.

Lemma softmax_value_group_sum (s : nat -> nat -> R) (ids : list nat)
    (g h : nat) :
  members ids g <> [] ->
  Rsum (map (fun e => softmax_value s ids e h) (members ids g)) = 1%R.
Proof.
  intros Hne.
  set (S := Rsum (map (fun e' => shifted_exp s ids e' h) (members ids g))).
  assert (HS : (0 < S)%R) by (apply (Rsum_exp_pos _ _ Hne)).
  rewrite (Rsum_map_ext _ (fun e => (shifted_exp s ids e h / S)%R)).
  - rewrite Rsum_map_div. fold S. field. lra.
  - intros e He. apply members_spec in He. destruct He as [_ He].
    unfold softmax_value. now rewrite He.
Qed.

Lemma softmax_value_ext (s s' : nat -> nat -> R) (ids : list nat)
    (e h : nat) :
  (forall e', e' < length ids -> s e' h = s' e' h) ->
  e < length ids ->
  softmax_value s ids e h = softmax_value s' ids e h.
Proof.
  intros Hs He.
  assert (Hm : forall g, group_max s ids g h = group_max s' ids g h).
  { intros g. unfold group_max. f_equal. apply map_ext_in.
    intros e' He'. apply members_spec in He'. now apply Hs. }
  assert (Hx : forall e', e' < length ids ->
                 shifted_exp s ids e' h = shifted_exp s' ids e' h).
  { intros e' He'. unfold shifted_exp. now rewrite Hm, Hs. }
  unfold softmax_value. rewrite Hx by assumption. f_equal.
  apply Rsum_map_ext. intros e' He'. apply members_spec in He'.
  now apply Hx.
Qed.

(* ================================================================= *)
(** ** The message stage *)

Lemma shape3_inv (t : Tensor3) (a b c : nat) :
  shape3 t = (a, b, c) -> dim0 t = a /\ dim1 t = b /\ dim2 t = c.
Proof. unfold shape3. intros [= ? ? ?]. auto. Qed.

Lemma attention_spec (self : HGTConv) (keep : nat -> nat -> bool)
    (k_j q_i v_j : Tensor3) (rel : Tensor1) (tgt : list nat)
    (E H D n : nat) :
  message_inputs E H D n k_j q_i v_j rel tgt ->
  exists alpha,
    attention self keep k_j q_i rel tgt n = Ok alpha
    /\ rows2 alpha = E /\ cols2 alpha = H
    /\ forall e h, e < E -> h < H ->
         at2 alpha e h
         = dropped (dropout_rate self) (keep e h)
             (softmax_value (score k_j q_i rel) tgt e h).
Proof.
  intros (Hk & Hq & _ & Hr & Ht & Hf).
  apply shape3_inv in Hk, Hq.
  destruct Hk as (Hk0 & Hk1 & Hk2), Hq as (Hq0 & Hq1 & Hq2).
  unfold attention, mul3.
  rewrite Hk0, Hk1, Hk2, Hq0, Hq1, Hq2, !bdim_same. cbn [bind].
  unfold mul2_vec. cbn [reduce_sum_last rows2 cols2 dim0 dim1 dim2].
  rewrite Hr, bdim_same. cbn [bind].
  rewrite segment_softmax_ok; cbn [div_scalar rows2 cols2]; auto.
  cbn [bind]. eexists. split; [reflexivity|].
  cbn [dropout rows2 cols2 at2]. repeat split.
  intros e h He Hh. unfold dropped.
  assert (X : forall s s', s = s' ->
     (if Req_dec_T (dropout_rate self) 0 then s
      else if keep e h then (s / (1 - dropout_rate self))%R else 0%R)
     = (if Req_dec_T (dropout_rate self) 0 then s'
        else if keep e h then (s' / (1 - dropout_rate self))%R else 0%R))
    by (intros ? ? ->; reflexivity).
  apply X. apply softmax_value_ext; [|lia].
  intros e' He'. cbn [at2 at3 div_scalar reduce_sum_last dim2]. unfold score.
  rewrite Hq2, !(bidx_lt H h) by lia.
  f_equal. f_equal. apply sum_upto_ext. intros d Hd.
  rewrite !(bidx_lt E e'), !(bidx_lt D d) by lia. reflexivity.
Qed.

Lemma weighted_values_unfold (self : HGTConv) (keep : nat -> nat -> bool)
    (k_j q_i v_j : Tensor3) (rel : Tensor1) (tgt : list nat)
    (E H D n : nat) :
  message_inputs E H D n k_j q_i v_j rel tgt ->
  exists alpha,
    (forall e h, e < E -> h < H ->
       at2 alpha e h
       = dropped (dropout_rate self) (keep e h)
           (softmax_value (score k_j q_i rel) tgt e h))
    /\ weighted_values self keep k_j q_i v_j rel tgt n
       = Ok {| dim0 := E; dim1 := H; dim2 := D;
               at3 := fun i j k =>
                 (at3 v_j (bidx E i) (bidx H j) (bidx D k)
                  * at2 alpha (bidx E i) (bidx H j))%R |}.
Proof.
  intros Hin.
  destruct (attention_spec self keep k_j q_i v_j rel tgt E H D n Hin)
    as (alpha & Ha & Hr & Hc & Hv).
  destruct Hin as (_ & _ & Hs & _).
  apply shape3_inv in Hs. destruct Hs as (H0 & H1 & H2).
  exists alpha. split; [exact Hv|].
  unfold weighted_values. rewrite Ha. cbn [bind]. unfold mul3.
  cbn [expand_dims dim0 dim1 dim2 at3].
  rewrite H0, H1, H2, Hr, Hc, !bdim_same, bdim_one_r.
  reflexivity.
Qed.

Lemma message_unfold (self : HGTConv) (keep : nat -> nat -> bool)
    (k_j q_i v_j : Tensor3) (rel : Tensor1) (tgt : list nat)
    (E H D n : nat) :
  message_inputs E H D n k_j q_i v_j rel tgt ->
  exists alpha,
    (forall e h, e < E -> h < H ->
       at2 alpha e h
       = dropped (dropout_rate self) (keep e h)
           (softmax_value (score k_j q_i rel) tgt e h))
    /\ message self keep k_j q_i v_j rel tgt n
       = reshape_3_2
           {| dim0 := E; dim1 := H; dim2 := D;
              at3 := fun i j k =>
                (at3 v_j (bidx E i) (bidx H j) (bidx D k)
                 * at2 alpha (bidx E i) (bidx H j))%R |}
           (out_channels self).
Proof.
  intros Hin.
  destruct (weighted_values_unfold self keep k_j q_i v_j rel tgt E H D n Hin)
    as (alpha & Hv & Hw).
  exists alpha. split; [exact Hv|].
  unfold message. now rewrite Hw.
Qed.


Lemma flat_index (e h d H D : nat) :
  h < H -> d < D ->
  (e * (H * D) + (h * D + d)) / (H * D) = e
  /\ ((e * (H * D) + (h * D + d)) mod (H * D)) / D = h
  /\ (e * (H * D) + (h * D + d)) mod D = d.
Proof.
  intros Hh Hd.
  assert (Hlt : h * D + d < H * D) by nia.
  assert (E1 : (e * (H * D) + (h * D + d)) / (H * D) = e).
  { symmetry. apply (Nat.div_unique _ _ _ (h * D + d)); [exact Hlt|lia]. }
  assert (E2 : (e * (H * D) + (h * D + d)) mod (H * D) = h * D + d).
  { symmetry. apply (Nat.mod_unique _ _ e); [exact Hlt|lia]. }
  repeat split.
  - exact E1.
  - rewrite E2. symmetry. apply (Nat.div_unique _ _ _ d); [exact Hd|lia].
  - symmetry. apply (Nat.mod_unique _ _ (e * H + h)); [exact Hd|nia].
Qed.

Lemma message_value (self : HGTConv) (keep : nat -> nat -> bool)
    (k_j q_i v_j : Tensor3) (rel : Tensor1) (tgt : list nat)
    (E H D n : nat) :
  message_inputs E H D n k_j q_i v_j rel tgt ->
  H * D <> 0 -> H * D = out_channels self ->
  exists out,
    message self keep k_j q_i v_j rel tgt n = Ok out
    /\ rows2 out = E /\ cols2 out = H * D
    /\ forall e h d, e < E -> h < H -> d < D ->
         at2 out e (h * D + d)
         = (at3 v_j e h d
            * dropped (dropout_rate self) (keep e h)
                (softmax_value (score k_j q_i rel) tgt e h))%R.
Proof.
  intros Hin Hpos HC.
  destruct (message_unfold self keep k_j q_i v_j rel tgt E H D n Hin)
    as (alpha & Hv & ->).
  unfold reshape_3_2. cbn [dim0 dim1 dim2]. rewrite <- HC.
  apply Nat.eqb_neq in Hpos. rewrite Hpos.
  replace (E * H * D) with (E * (H * D)) by lia.
  rewrite Nat.Div0.mod_mul, Nat.eqb_refl.
  eexists. split; [reflexivity|]. cbn [rows2 cols2 at2].
  apply Nat.eqb_neq in Hpos.
  split; [now apply Nat.div_mul|]. split; [reflexivity|].
  intros e h d He Hh Hd. cbv zeta. cbn [at3].
  destruct (flat_index e h d H D Hh Hd) as (F1 & F2 & F3).
  rewrite F1, F2, F3, (bidx_lt E e), (bidx_lt H h), (bidx_lt D d) by lia.
  now rewrite Hv.
Qed.

Lemma dropped_rate_0 (keep : bool) (x : R) : dropped 0 keep x = x.
Proof.
  unfold dropped. destruct (Req_dec_T 0 0); [reflexivity|contradiction].
Qed.

(** C1.  With dropout disabled (rate 0), for [E] edges, [H] heads of width
    [D] and [H * D = out_channels]: the message stage returns a tensor of
    shape (E, H * D) whose entry for edge [e], head [h] and position [d] is
    the relation-specific value [v_j[e, h, d]] times the edge's normalized
    attention weight, and that weight is the output of Segment Softmax,
    grouped by target index, on the scores
    [dot(k_j[e, h, :], q_i[e, h, :]) * rel[h] / sqrt(D)]. *)
Theorem message_is_value_times_attention (self : HGTConv)
    (keep : nat -> nat -> bool) (k_j q_i v_j : Tensor3) (rel : Tensor1)
    (target_index : list nat) (E H D num_nodes : nat) :
  dropout_rate self = 0%R ->
  message_inputs E H D num_nodes k_j q_i v_j rel target_index ->
  H * D <> 0 -> H * D = out_channels self ->
  exists w out,
    segment_softmax (scores k_j q_i rel) target_index num_nodes = Ok w
    /\ message self keep k_j q_i v_j rel target_index num_nodes = Ok out
    /\ rows2 out = E /\ cols2 out = H * D
    /\ (forall e h, e < E -> h < H ->
          score k_j q_i rel e h
          = (sum_upto D (fun d => at3 k_j e h d * at3 q_i e h d)
             * at1 rel h / sqrt (INR D))%R)
    /\ forall e h d, e < E -> h < H -> d < D ->
         at2 out e (h * D + d) = (at3 v_j e h d * at2 w e h)%R.
Proof.
  intros Hrate Hin Hpos HC.
  destruct (message_value self keep k_j q_i v_j rel target_index E H D
              num_nodes Hin Hpos HC) as (out & Hm & Hr & Hc & Hv).
  destruct Hin as (_ & Hq & _ & _ & Ht & Hf).
  apply shape3_inv in Hq. destruct Hq as (Hq0 & Hq1 & Hq2).
  eexists. exists out. split.
  - apply segment_softmax_ok; [cbn [scores rows2]; lia|exact Hf].
  - split; [exact Hm|]. split; [exact Hr|]. split; [exact Hc|]. split.
    + intros e h _ _. unfold score. now rewrite Hq2.
    + intros e h d He Hh Hd. rewrite (Hv e h d He Hh Hd), Hrate.
      now rewrite dropped_rate_0.
Qed.

(* ================================================================= *)
(** ** Normalization *)

Lemma Rsum_singleton (x : R) : Rsum [x] = x.
Proof. simpl. lra. Qed.

(** C3.  Segment Softmax, on any scores with one row per group id and ids
    below the group count, returns weights that sum to 1 over every
    non-empty group, for each head; the weight of the only edge of a
    one-edge group is 1; and with dropout disabled the attention weights the
    message stage computes for the edges of one destination node sum to 1,
    for each head. *)
Theorem segment_softmax_sums_to_one (s : Tensor2) (ids : list nat)
    (n : nat) :
  rows2 s = length ids -> Forall (fun g => g < n) ids ->
  exists w,
    segment_softmax s ids n = Ok w
    /\ (forall g h, members ids g <> [] ->
          Rsum (map (fun e => at2 w e h) (members ids g)) = 1%R)
    /\ (forall g e h, members ids g = [e] -> at2 w e h = 1%R)
    /\ (forall self keep k_j q_i v_j rel E H D,
          dropout_rate self = 0%R ->
          message_inputs E H D n k_j q_i v_j rel ids ->
          exists alpha,
            attention self keep k_j q_i rel ids n = Ok alpha
            /\ forall g h, h < H -> members ids g <> [] ->
                 Rsum (map (fun e => at2 alpha e h) (members ids g)) = 1%R).
Proof.
  intros Hr Hf. eexists. split; [now apply segment_softmax_ok|].
  cbn [at2]. split; [|split].
  - intros g h Hne. now apply softmax_value_group_sum.
  - intros g e h Hg.
    pose proof (softmax_value_group_sum (at2 s) ids g h) as Hs.
    rewrite Hg in Hs. cbn [map] in Hs. rewrite Rsum_singleton in Hs.
    apply Hs. discriminate.
  - intros self keep k_j q_i v_j rel E H D Hrate Hin.
    destruct (attention_spec self keep k_j q_i v_j rel ids E H D n Hin)
      as (alpha & Ha & _ & _ & Hv).
    exists alpha. split; [exact Ha|]. intros g h Hh Hne.
    destruct Hin as (_ & _ & _ & _ & Ht & _).
    rewrite <- (softmax_value_group_sum (score k_j q_i rel) ids g h Hne).
    apply Rsum_map_ext. intros e He. apply members_spec in He.
    rewrite Hv by lia. rewrite Hrate. apply dropped_rate_0.
Qed.

Lemma C3_witness :
  exists w,
    segment_softmax (const2 2 1 0%R) [0; 0] 1 = Ok w
    /\ (forall g h, members [0; 0] g <> [] ->
          Rsum (map (fun e => at2 w e h) (members [0; 0] g)) = 1%R)
    /\ (forall g e h, members [0; 0] g = [e] -> at2 w e h = 1%R)
    /\ (forall self keep k_j q_i v_j rel E H D,
          dropout_rate self = 0%R ->
          message_inputs E H D 1 k_j q_i v_j rel [0; 0] ->
          exists alpha,
            attention self keep k_j q_i rel [0; 0] 1 = Ok alpha
            /\ forall g h, h < H -> members [0; 0] g <> [] ->
                 Rsum (map (fun e => at2 alpha e h) (members [0; 0] g))
                 = 1%R).
Proof.
  apply (segment_softmax_sums_to_one (const2 2 1 0%R) [0; 0] 1).
  - reflexivity.
  - repeat constructor.
Defined.

Lemma C1_witness :
  exists w out,
    segment_softmax (scores (const3 1 1 1 1%R) (const3 1 1 1 1%R) (ones 1))
      [0] 1 = Ok w
    /\ message layer_ab (fun _ _ => true) (const3 1 1 1 1%R)
         (const3 1 1 1 1%R) (const3 1 1 1 2%R) (ones 1) [0] 1 = Ok out
    /\ rows2 out = 1 /\ cols2 out = 1 * 1
    /\ (forall e h, e < 1 -> h < 1 ->
          score (const3 1 1 1 1%R) (const3 1 1 1 1%R) (ones 1) e h
          = (sum_upto 1 (fun d => at3 (const3 1 1 1 1%R) e h d
                                  * at3 (const3 1 1 1 1%R) e h d)
             * at1 (ones 1) h / sqrt (INR 1))%R)
    /\ forall e h d, e < 1 -> h < 1 -> d < 1 ->
         at2 out e (h * 1 + d)
         = (at3 (const3 1 1 1 2%R) e h d * at2 w e h)%R.
Proof.
  apply (message_is_value_times_attention layer_ab (fun _ _ => true)
           (const3 1 1 1 1%R) (const3 1 1 1 1%R) (const3 1 1 1 2%R)
           (ones 1) [0] 1 1 1 1).
  - reflexivity.
  - repeat split. repeat constructor.
  - discriminate.
  - reflexivity.
Defined.

(* ================================================================= *)
(** ** Heads and output channels *)




(* ================================================================= *)
(** ** The update stage *)

Lemma blend_ok_iff (alpha : R) (out x : Tensor2) :
  rows2 out = rows2 x ->
  (exists final, blend alpha out x = Ok final)
  <-> cols2 x = cols2 out \/ cols2 x = 1 \/ cols2 out = 1.
Proof.
  intros Hr. unfold blend. rewrite Hr, bdim_same.
  destruct (bdim (cols2 out) (cols2 x)) as [c|] eqn:E.
  - split; [intros _|intros _; eexists; reflexivity].
    apply bdim_Some_iff in E. lia.
  - split; [intros [final [=]]|].
    apply bdim_None_iff in E. lia.
Qed.

Lemma blend_value (alpha : R) (out x final : Tensor2) :
  blend alpha out x = Ok final ->
  bdim (rows2 out) (rows2 x) = Some (rows2 final)
  /\ bdim (cols2 out) (cols2 x) = Some (cols2 final)
  /\ forall i j,
       at2 final i j
       = (alpha * at2 out (bidx (rows2 out) i) (bidx (cols2 out) j)
          + (1 - alpha) * at2 x (bidx (rows2 x) i) (bidx (cols2 x) j))%R.
Proof.
  unfold blend.
  destruct (bdim (rows2 out) (rows2 x)) as [r|]; [|discriminate].
  destruct (bdim (cols2 out) (cols2 x)) as [c|]; [|discriminate].
  intros [= <-]. cbn. auto.
Qed.

Lemma bind_Ok {A B : Type} (c : result A) (k : A -> result B) (b : B) :
  bind c k = Ok b -> exists a, c = Ok a /\ k a = Ok b.
Proof.
  destruct c as [a|e]; cbn; [|discriminate]. intros H. now exists a.
Qed.

Lemma update_node_inv (self : HGTConv) (x_dict : dict Tensor2)
    (node_type : string) (outs : list Tensor2) (final : Tensor2) :
  update_node self x_dict node_type outs = Ok final ->
  exists stacked lin projected s x,
    stack outs = Ok stacked
    /\ getitem (a_lin self) node_type = Ok lin
    /\ Linear_forward lin (reduce_sum_first stacked) = Ok projected
    /\ getitem (skip self) node_type = Ok s
    /\ getitem x_dict node_type = Ok x
    /\ blend (sigmoid s) projected x = Ok final.
Proof.
  unfold update_node. intros H.
  apply bind_Ok in H. destruct H as (stacked & H1 & H).
  apply bind_Ok in H. destruct H as (lin & H2 & H).
  apply bind_Ok in H. destruct H as (projected & H3 & H).
  apply bind_Ok in H. destruct H as (s & H4 & H).
  apply bind_Ok in H. destruct H as (x & H5 & H).
  exists stacked, lin, projected, s, x. auto 10.
Qed.

Lemma update_all_lookup (self : HGTConv) (x_dict : dict Tensor2)
    (items : dict (list Tensor2)) (done : dict Tensor2)
    (node_type : string) (outs : list Tensor2) :
  update_all self x_dict items = Ok done ->
  lookup node_type items = Some outs ->
  exists final,
    lookup node_type done = Some final
    /\ update_node self x_dict node_type outs = Ok final.
Proof.
  revert done. induction items as [|[nt o] items IH]; intros done H Hl.
  - discriminate.
  - cbn [update_all] in H.
    apply bind_Ok in H. destruct H as (out & H1 & H).
    apply bind_Ok in H. destruct H as (rest & H2 & H).
    injection H as <-. cbn [lookup] in *.
    destruct (String.eqb node_type nt) eqn:E.
    + apply String.eqb_eq in E. subst nt. injection Hl as <-.
      exists out. auto.
    + now apply (IH rest).
Qed.

Lemma lookup_setitem_same {V : Type} (k : string) (v : V) (d : dict V) :
  lookup k (setitem k v d) = Some v.
Proof. rewrite lookup_setitem. now rewrite String.eqb_refl. Qed.

Lemma lookup_setitem_keeps {V : Type} (key k : string) (v : V) (d : dict V) :
  lookup key d <> None -> lookup key (setitem k v d) <> None.
Proof.
  rewrite lookup_setitem. destruct (String.eqb key k); [discriminate|auto].
Qed.

Lemma project_out_dict (self : HGTConv) (H D : nat) (st st' : Projections)
    (node_type : string) (x : Tensor2) :
  project self H D st node_type x = Ok st' ->
  out_dict st' = setitem node_type [] (out_dict st).
Proof.
  unfold project. intros Hp.
  repeat (apply bind_Ok in Hp; destruct Hp as (? & _ & Hp)).
  now injection Hp as <-.
Qed.

Lemma project_all_keys (self : HGTConv) (H D : nat) (items : dict Tensor2)
    (st st' : Projections) (node_type : string) :
  project_all self H D items st = Ok st' ->
  lookup node_type items <> None \/ lookup node_type (out_dict st) <> None ->
  lookup node_type (out_dict st') <> None.
Proof.
  revert st. induction items as [|[nt x] items IH]; intros st Hp Hk.
  - injection Hp as <-. destruct Hk as [Hk|Hk]; [now cbn in Hk|exact Hk].
  - cbn [project_all] in Hp. apply bind_Ok in Hp.
    destruct Hp as (st1 & H1 & Hp). apply (IH st1 Hp).
    rewrite (project_out_dict _ _ _ _ _ _ _ H1), lookup_setitem.
    cbn [lookup] in Hk.
    destruct (String.eqb node_type nt) eqn:E; [right; discriminate|].
    exact Hk.
Qed.

Lemma edge_step_keys (self : HGTConv) (keep : nat -> nat -> bool)
    (x_dict : dict Tensor2) (st : Projections)
    (outs outs' : dict (list Tensor2)) (edge_type : EdgeType)
    (edge_index : EdgeIndex) (node_type : string) :
  edge_step self keep x_dict st outs edge_type edge_index = Ok outs' ->
  lookup node_type outs <> None -> lookup node_type outs' <> None.
Proof.
  unfold edge_step. destruct edge_type as [[src_type r] dst_type].
  intros Hs.
  repeat (apply bind_Ok in Hs; destruct Hs as (? & _ & Hs)).
  injection Hs as <-. apply lookup_setitem_keeps.
Qed.

Lemma edge_loop_keys (self : HGTConv) (keep : nat -> nat -> nat -> bool)
    (x_dict : dict Tensor2) (st : Projections) (n : nat)
    (items : list (EdgeType * EdgeIndex))
    (outs outs' : dict (list Tensor2)) (node_type : string) :
  edge_loop self keep x_dict st n items outs = Ok outs' ->
  lookup node_type outs <> None -> lookup node_type outs' <> None.
Proof.
  revert n outs. induction items as [|[et ei] items IH]; intros n outs Hl Hk.
  - now injection Hl as <-.
  - cbn [edge_loop] in Hl. apply bind_Ok in Hl.
    destruct Hl as (outs1 & H1 & Hl). apply (IH _ _ Hl).
    now apply (edge_step_keys _ _ _ _ _ _ _ _ _ H1).
Qed.

Lemma forward_inv (self : HGTConv) (keep : nat -> nat -> nat -> bool)
    (x_dict : dict Tensor2) (edge_index_dict : list (EdgeType * EdgeIndex))
    (done : dict Tensor2) :
  forward self keep x_dict edge_index_dict = Ok done ->
  heads self <> 0
  /\ exists st outs,
       project_all self (heads self) (out_channels self / heads self) x_dict
         {| k_dict := []; q_dict := []; v_dict := []; out_dict := [] |}
       = Ok st
       /\ edge_loop self keep x_dict st 0 edge_index_dict (out_dict st)
          = Ok outs
       /\ update_all self x_dict outs = Ok done.
Proof.
  unfold forward. destruct (heads self =? 0) eqn:E; [discriminate|].
  apply Nat.eqb_neq in E. intros H. split; [exact E|].
  apply bind_Ok in H. destruct H as (st & H1 & H).
  apply bind_Ok in H. destruct H as (outs & H2 & H).
  now exists st, outs.
Qed.

(** C4.  When [forward] returns, every node type of the input has an output
    [final], and [final = gate * projected + (1 - gate) * x], element by
    element (the sum broadcasts), where [x] is the node type's input feature,
    [gate] the sigmoid of its learned scalar, and [projected] its output
    projection [a_lin] applied to the sum over the stacked per-edge-type
    outputs that the loop over edge types collected for it. *)
Theorem update_stage_is_gated_blend (self : HGTConv)
    (keep : nat -> nat -> nat -> bool) (x_dict : dict Tensor2)
    (edge_index_dict : list (EdgeType * EdgeIndex)) (done : dict Tensor2)
    (node_type : string) (x : Tensor2) :
  forward self keep x_dict edge_index_dict = Ok done ->
  lookup node_type x_dict = Some x ->
  exists st collected outs stacked lin projected s final,
    project_all self (heads self) (out_channels self / heads self) x_dict
      {| k_dict := []; q_dict := []; v_dict := []; out_dict := [] |} = Ok st
    /\ edge_loop self keep x_dict st 0 edge_index_dict (out_dict st)
       = Ok collected
    /\ lookup node_type collected = Some outs
    /\ stack outs = Ok stacked
    /\ lookup node_type (a_lin self) = Some lin
    /\ Linear_forward lin (reduce_sum_first stacked) = Ok projected
    /\ lookup node_type (skip self) = Some s
    /\ lookup node_type done = Some final
    /\ (forall i j,
          at2 final i j
          = (sigmoid s
             * at2 projected (bidx (rows2 projected) i)
                 (bidx (cols2 projected) j)
             + (1 - sigmoid s)
               * at2 x (bidx (rows2 x) i) (bidx (cols2 x) j))%R)
    /\ (rows2 x = rows2 projected -> cols2 x = cols2 projected ->
        rows2 final = rows2 x /\ cols2 final = cols2 x
        /\ forall i j, i < rows2 x -> j < cols2 x ->
             at2 final i j
             = (sigmoid s * at2 projected i j
                + (1 - sigmoid s) * at2 x i j)%R).
Proof.
  intros Hf Hx.
  destruct (forward_inv _ _ _ _ _ Hf) as (_ & st & collected & H1 & H2 & H3).
  assert (Hk : lookup node_type collected <> None).
  { apply (edge_loop_keys _ _ _ _ _ _ _ _ _ H2).
    apply (project_all_keys _ _ _ _ _ _ _ H1). left. now rewrite Hx. }
  destruct (lookup node_type collected) as [outs|] eqn:Ho; [|congruence].
  destruct (update_all_lookup _ _ _ _ _ _ H3 Ho) as (final & Hd & Hu).
  destruct (update_node_inv _ _ _ _ _ Hu)
    as (stacked & lin & projected & s & x' & U1 & U2 & U3 & U4 & U5 & U6).
  unfold getitem in U2, U4, U5. rewrite Hx in U5. injection U5 as <-.
  destruct (lookup node_type (a_lin self)) as [lin'|] eqn:El; [|discriminate].
  injection U2 as ->.
  destruct (lookup node_type (skip self)) as [s'|] eqn:Es; [|discriminate].
  injection U4 as ->.
  destruct (blend_value _ _ _ _ U6) as (B1 & B2 & B3).
  exists st, collected, outs, stacked, lin, projected, s, final.
  do 8 (split; [assumption || reflexivity|]).
  split; [exact B3|].
  intros Er Ec. rewrite <- Er, bdim_same in B1. rewrite <- Ec, bdim_same in B2.
  injection B1 as B1. injection B2 as B2.
  split; [congruence|]. split; [congruence|].
  intros i j Hi Hj. rewrite B3, <- Er, <- Ec.
  rewrite !bidx_lt by lia. reflexivity.
Qed.

(* ================================================================= *)
(** ** Order of the edges *)

Lemma result_rel_bind {A A' B B' : Type} (R : A -> A' -> Prop)
    (S : B -> B' -> Prop) (c : result A) (c' : result A')
    (k : A -> result B) (k' : A' -> result B') :
  result_rel R c c' ->
  (forall a a', R a a' -> result_rel S (k a) (k' a')) ->
  result_rel S (bind c k) (bind c' k').
Proof.
  destruct c as [a|e], c' as [a'|e']; cbn; intros H Hk;
    try contradiction; auto.
Qed.

Lemma result_rel_same {A B : Type} (S : B -> B -> Prop) (c : result A)
    (k k' : A -> result B) :
  (forall a, result_rel S (k a) (k' a)) ->
  result_rel S (bind c k) (bind c k').
Proof.
  destruct c as [a|e]; cbn; auto.
Qed.

Lemma fold_right_Rmax_swap (x y : R) (l : list R) :
  Rmax y (fold_right Rmax x l) = Rmax x (fold_right Rmax y l).
Proof.
  induction l as [|a l IH]; cbn.
  - apply Rmax_comm.
  - rewrite !Rmax_assoc, (Rmax_comm y a), (Rmax_comm x a), <- !Rmax_assoc.
    now rewrite IH.
Qed.

Lemma fold_right_Rmin_swap (x y : R) (l : list R) :
  Rmin y (fold_right Rmin x l) = Rmin x (fold_right Rmin y l).
Proof.
  induction l as [|a l IH]; cbn.
  - apply Rmin_comm.
  - rewrite !Rmin_assoc, (Rmin_comm y a), (Rmin_comm x a), <- !Rmin_assoc.
    now rewrite IH.
Qed.

Lemma fold_right_Rmax_Permutation (x : R) (l l' : list R) :
  Permutation l l' -> fold_right Rmax x l = fold_right Rmax x l'.
Proof.
  induction 1 as [|a l l' _ IH|a b l|l l' l'' _ IH1 _ IH2]; cbn.
  - reflexivity.
  - now rewrite IH.
  - now rewrite !Rmax_assoc, (Rmax_comm b a).
  - congruence.
Qed.

Lemma Rmax_list_Permutation (l l' : list R) :
  Permutation l l' -> Rmax_list l = Rmax_list l'.
Proof.
  induction 1 as [|x l l' HP IH|x y l|l l' l'' _ IH1 _ IH2].
  - reflexivity.
  - cbn. now apply fold_right_Rmax_Permutation.
  - cbn. apply fold_right_Rmax_swap.
  - congruence.
Qed.

Lemma fold_right_Rmin_Permutation (x : R) (l l' : list R) :
  Permutation l l' -> fold_right Rmin x l = fold_right Rmin x l'.
Proof.
  induction 1 as [|a l l' _ IH|a b l|l l' l'' _ IH1 _ IH2]; cbn.
  - reflexivity.
  - now rewrite IH.
  - now rewrite !Rmin_assoc, (Rmin_comm b a).
  - congruence.
Qed.

Lemma Rmin_list_Permutation (l l' : list R) :
  Permutation l l' -> Rmin_list l = Rmin_list l'.
Proof.
  induction 1 as [|x l l' HP IH|x y l|l l' l'' _ IH1 _ IH2].
  - reflexivity.
  - cbn. now apply fold_right_Rmin_Permutation.
  - cbn. apply fold_right_Rmin_swap.
  - congruence.
Qed.

Lemma reduce_list_Permutation (op : reduce_op) (l l' : list R) :
  Permutation l l' -> reduce_list op l = reduce_list op l'.
Proof.
  intros HP. destruct op; cbn.
  - now apply Rsum_Permutation.
  - destruct l as [|x l], l' as [|x' l'].
    + reflexivity.
    + now apply Permutation_nil in HP.
    + apply Permutation_sym in HP. now apply Permutation_nil in HP.
    + rewrite (Rsum_Permutation _ _ HP), (Permutation_length HP).
      reflexivity.
  - now apply Rmin_list_Permutation.
  - now apply Rmax_list_Permutation.
Qed.

Lemma map_filter_positions {A B : Type} (l : list A) (P : A -> bool)
    (f : A -> B) (d : A) (a : nat) :
  map (fun e => f (nth (e - a) l d))
    (filter (fun e => P (nth (e - a) l d)) (seq a (length l)))
  = map f (filter P l).
Proof.
  revert a. induction l as [|x l IH]; intros a; [reflexivity|].
  cbn [length seq].
  assert (Hf : filter (fun e => P (nth (e - a) (x :: l) d))
                 (seq (S a) (length l))
               = filter (fun e => P (nth (e - S a) l d))
                   (seq (S a) (length l))).
  { apply filter_ext_in. intros e He. apply in_seq in He.
    replace (e - a) with (S (e - S a)) by lia. reflexivity. }
  assert (Hm : forall L, (forall e, In e L -> S a <= e) ->
             map (fun e => f (nth (e - a) (x :: l) d)) L
             = map (fun e => f (nth (e - S a) l d)) L).
  { intros L HL. apply map_ext_in. intros e He. apply HL in He.
    replace (e - a) with (S (e - S a)) by lia. reflexivity. }
  assert (HL : forall e, In e (filter (fun e => P (nth (e - S a) l d))
                                 (seq (S a) (length l))) -> S a <= e).
  { intros e He. apply filter_In in He. destruct He as [He _].
    apply in_seq in He. lia. }
  cbn [filter]. rewrite Hf, Nat.sub_diag.
  change (nth 0 (x :: l) d) with x.
  destruct (P x); cbn [map]; rewrite (Hm _ HL), (IH (S a));
    rewrite ?Nat.sub_diag; reflexivity.
Qed.

Lemma length_row1 (ei : EdgeIndex) : length (row1 ei) = length ei.
Proof. apply length_map. Qed.

Lemma length_row0 (ei : EdgeIndex) : length (row0 ei) = length ei.
Proof. apply length_map. Qed.

Lemma nth_row1 (ei : EdgeIndex) (e : nat) :
  nth e (row1 ei) 0 = snd (nth e ei (0, 0)).
Proof. unfold row1. apply (map_nth snd ei (0, 0) e). Qed.

Lemma nth_row0 (ei : EdgeIndex) (e : nat) :
  nth e (row0 ei) 0 = fst (nth e ei (0, 0)).
Proof. unfold row0. apply (map_nth fst ei (0, 0) e). Qed.

(** The values at the positions of one target are the values of the edges
    with that target. *)
Lemma map_members_row1 {B : Type} (ei : EdgeIndex) (g : nat)
    (f : nat * nat -> B) :
  map (fun e => f (nth e ei (0, 0))) (members (row1 ei) g)
  = map f (filter (fun p => snd p =? g) ei).
Proof.
  unfold members.
  rewrite <- (map_filter_positions ei (fun p => snd p =? g) f (0, 0) 0).
  unfold row1 at 2. rewrite length_map.
  rewrite (filter_ext (fun e => nth e (row1 ei) 0 =? g)
             (fun e => snd (nth (e - 0) ei (0, 0)) =? g)).
  - apply map_ext. intros e. now rewrite Nat.sub_0_r.
  - intros e. now rewrite nth_row1, Nat.sub_0_r.
Qed.

Lemma Permutation_filter {A : Type} (P : A -> bool) (l l' : list A) :
  Permutation l l' -> Permutation (filter P l) (filter P l').
Proof.
  induction 1 as [|x l l' _ IH|x y l|l l' l'' _ IH1 _ IH2]; cbn.
  - constructor.
  - destruct (P x); [now constructor|exact IH].
  - destruct (P x), (P y); try reflexivity. constructor.
  - now transitivity (filter P l').
Qed.

Lemma forallb_Permutation {A : Type} (P : A -> bool) (l l' : list A) :
  Permutation l l' -> forallb P l = forallb P l'.
Proof.
  induction 1 as [|x l l' _ IH|x y l|l l' l'' _ IH1 _ IH2]; cbn.
  - reflexivity.
  - now rewrite IH.
  - destruct (P x), (P y); reflexivity.
  - congruence.
Qed.

Lemma softmax_value_edges (S : nat * nat -> nat -> R) (s : Tensor2)
    (ei : EdgeIndex) (e h : nat) :
  (forall e', e' < length ei -> at2 s e' h = S (nth e' ei (0, 0)) h) ->
  e < length ei ->
  softmax_value (at2 s) (row1 ei) e h = edges_softmax S ei (nth e ei (0, 0)) h.
Proof.
  intros Hs He.
  assert (Hlen : length (row1 ei) = length ei) by apply length_map.
  assert (Hm : forall g, group_max (at2 s) (row1 ei) g h = edges_max S ei g h).
  { intros g. unfold group_max, edges_max.
    rewrite <- (map_members_row1 ei g (fun p => S p h)). f_equal.
    apply map_ext_in. intros e' He'. apply members_spec in He'.
    apply Hs. lia. }
  assert (Hx : forall e', e' < length ei ->
             shifted_exp (at2 s) (row1 ei) e' h
             = edges_exp S ei (nth e' ei (0, 0)) h).
  { intros e' He'. unfold shifted_exp, edges_exp.
    now rewrite Hm, nth_row1, Hs. }
  unfold softmax_value, edges_softmax. rewrite Hx by exact He. f_equal.
  rewrite nth_row1.
  rewrite <- (map_members_row1 ei _ (fun p' => edges_exp S ei p' h)).
  apply Rsum_map_ext. intros e' He'. apply members_spec in He'.
  apply Hx. lia.
Qed.

Lemma edges_softmax_Permutation (S : nat * nat -> nat -> R)
    (ei ei' : EdgeIndex) (p : nat * nat) (h : nat) :
  Permutation ei ei' -> edges_softmax S ei p h = edges_softmax S ei' p h.
Proof.
  intros HP.
  assert (Hm : forall g, edges_max S ei g h = edges_max S ei' g h).
  { intros g. unfold edges_max. apply Rmax_list_Permutation.
    now apply Permutation_map, Permutation_filter. }
  assert (Hx : forall q, edges_exp S ei q h = edges_exp S ei' q h).
  { intros q. unfold edges_exp. now rewrite Hm. }
  unfold edges_softmax. rewrite Hx. f_equal.
  rewrite (Rsum_map_ext _ (fun p' => edges_exp S ei' p' h))
    by (intros; apply Hx).
  apply Rsum_Permutation. now apply Permutation_map, Permutation_filter.
Qed.

Lemma segment_softmax_cases (s : Tensor2) (ids : list nat) (n : nat) :
  rows2 s = length ids ->
  segment_softmax s ids n
  = if forallb (fun g => g <? n) ids
    then Ok {| rows2 := rows2 s; cols2 := cols2 s;
               at2 := softmax_value (at2 s) ids |}
    else Err IndexOutOfRange.
Proof.
  intros Hr. destruct (forallb (fun g => g <? n) ids) eqn:F.
  - apply segment_softmax_ok; [exact Hr|now apply forallb_ltb].
  - unfold segment_softmax, segment_reduce.
    rewrite Hr, Nat.eqb_refl, F. reflexivity.
Qed.

Section Edgewise.

Variables ei ei' : EdgeIndex.
Hypothesis HP : Permutation ei ei'.

Lemma gather_row0_edgewise (t : Tensor3) :
  result_rel (edgewise3 ei ei') (gather t (row0 ei)) (gather t (row0 ei')).
Proof.
  unfold gather.
  rewrite (forallb_Permutation _ (row0 ei) (row0 ei'))
    by (now apply Permutation_map).
  destruct (forallb _ (row0 ei')); cbn; [|reflexivity].
  unfold edgewise3, row0. cbn. rewrite !length_map.
  repeat split.
  exists (fun p h d => at3 t (fst p) h d).
  split; intros e h d _; now rewrite <- nth_row0.
Qed.

Lemma gather_row1_edgewise (t : Tensor3) :
  result_rel (edgewise3 ei ei') (gather t (row1 ei)) (gather t (row1 ei')).
Proof.
  unfold gather.
  rewrite (forallb_Permutation _ (row1 ei) (row1 ei'))
    by (now apply Permutation_map).
  destruct (forallb _ (row1 ei')); cbn; [|reflexivity].
  unfold edgewise3, row1. cbn. rewrite !length_map.
  repeat split.
  exists (fun p h d => at3 t (snd p) h d).
  split; intros e h d _; now rewrite <- nth_row1.
Qed.

Lemma mul3_edgewise (a a' b b' : Tensor3) :
  edgewise3 ei ei' a a' -> edgewise3 ei ei' b b' ->
  result_rel (edgewise3 ei ei') (mul3 a b) (mul3 a' b').
Proof.
  intros (A0 & A0' & A1 & A2 & Fa & HFa & HFa')
         (B0 & B0' & B1 & B2 & Fb & HFb & HFb').
  unfold mul3. rewrite A0, B0, A0', B0', !bdim_same, <- A1, <- A2, <- B1, <- B2.
  destruct (bdim (dim1 a) (dim1 b)) as [m|]; cbn; [|reflexivity].
  destruct (bdim (dim2 a) (dim2 b)) as [k|]; cbn; [|reflexivity].
  repeat split.
  exists (fun p h d =>
            (Fa p (bidx (dim1 a) h) (bidx (dim2 a) d)
             * Fb p (bidx (dim1 b) h) (bidx (dim2 b) d))%R).
  split; intros e h d He; cbn [at3]; rewrite !(bidx_lt _ e) by lia.
  - now rewrite HFa, HFb.
  - now rewrite HFa', HFb'.
Qed.

Lemma reduce_sum_last_edgewise (a a' : Tensor3) :
  edgewise3 ei ei' a a' ->
  edgewise2 ei ei' (reduce_sum_last a) (reduce_sum_last a').
Proof.
  intros (A0 & A0' & A1 & A2 & Fa & HFa & HFa').
  unfold edgewise2. cbn. repeat split; auto.
  exists (fun p h => sum_upto (dim2 a) (fun k => Fa p h k)).
  split; intros e h He.
  - apply sum_upto_ext. intros k _. now apply HFa.
  - rewrite <- A2. apply sum_upto_ext. intros k _. now apply HFa'.
Qed.

Lemma mul2_vec_edgewise (a a' : Tensor2) (v : Tensor1) :
  edgewise2 ei ei' a a' ->
  result_rel (edgewise2 ei ei') (mul2_vec a v) (mul2_vec a' v).
Proof.
  intros (A0 & A0' & A1 & Fa & HFa & HFa').
  unfold mul2_vec. rewrite <- A1.
  destruct (bdim (cols2 a) (len1 v)) as [c|]; cbn; [|reflexivity].
  repeat split; auto.
  exists (fun p h => (Fa p (bidx (cols2 a) h) * at1 v (bidx (len1 v) h))%R).
  split; intros e h He; cbn [at2].
  - now rewrite HFa.
  - now rewrite HFa'.
Qed.

Lemma div_scalar_edgewise (a a' : Tensor2) (x : R) :
  edgewise2 ei ei' a a' ->
  edgewise2 ei ei' (div_scalar a x) (div_scalar a' x).
Proof.
  intros (A0 & A0' & A1 & Fa & HFa & HFa').
  unfold edgewise2. cbn. repeat split; auto.
  exists (fun p h => (Fa p h / x)%R).
  split; intros e h He; [now rewrite HFa|now rewrite HFa'].
Qed.

Lemma segment_softmax_edgewise (a a' : Tensor2) (n : nat) :
  edgewise2 ei ei' a a' ->
  result_rel (edgewise2 ei ei')
    (segment_softmax a (row1 ei) n) (segment_softmax a' (row1 ei') n).
Proof.
  intros (A0 & A0' & A1 & Fa & HFa & HFa').
  rewrite !segment_softmax_cases by (unfold row1; now rewrite length_map).
  rewrite (forallb_Permutation _ (row1 ei) (row1 ei'))
    by (now apply Permutation_map).
  destruct (forallb _ (row1 ei')); cbn; [|reflexivity].
  repeat split; auto.
  exists (edges_softmax Fa ei).
  split; intros e h He.
  - apply softmax_value_edges; auto.
  - rewrite (edges_softmax_Permutation Fa ei ei' _ h HP).
    apply softmax_value_edges; auto.
Qed.

Lemma dropout_edgewise (keep keep' : nat -> nat -> bool) (a a' : Tensor2) :
  edgewise2 ei ei' a a' ->
  edgewise2 ei ei' (dropout 0 keep a) (dropout 0 keep' a').
Proof.
  intros (A0 & A0' & A1 & Fa & HFa & HFa').
  unfold edgewise2. cbn. repeat split; auto.
  exists Fa.
  split; intros e h He; destruct (Req_dec_T 0 0); auto; contradiction.
Qed.

Lemma expand_dims_edgewise (a a' : Tensor2) :
  edgewise2 ei ei' a a' ->
  edgewise3 ei ei' (expand_dims a) (expand_dims a').
Proof.
  intros (A0 & A0' & A1 & Fa & HFa & HFa').
  unfold edgewise3. cbn. repeat split; auto.
  exists (fun p h _ => Fa p h).
  split; intros e h d He; auto.
Qed.

End Edgewise.

Lemma attention_edgewise (self : HGTConv) (keep keep' : nat -> nat -> bool)
    (ei ei' : EdgeIndex) (k_j k_j' q_i q_i' : Tensor3) (rel : Tensor1)
    (n : nat) :
  Permutation ei ei' -> dropout_rate self = 0%R ->
  edgewise3 ei ei' k_j k_j' -> edgewise3 ei ei' q_i q_i' ->
  result_rel (edgewise2 ei ei')
    (attention self keep k_j q_i rel (row1 ei) n)
    (attention self keep' k_j' q_i' rel (row1 ei') n).
Proof.
  intros HP Hrate Hk Hq. unfold attention.
  assert (Hd : dim2 q_i = dim2 q_i') by apply Hq. rewrite <- Hd, Hrate.
  apply (result_rel_bind (edgewise3 ei ei')); [now apply mul3_edgewise|].
  intros kq kq' Hkq.
  apply (result_rel_bind (edgewise2 ei ei')).
  { now apply mul2_vec_edgewise, reduce_sum_last_edgewise. }
  intros al al' Hal.
  apply (result_rel_bind (edgewise2 ei ei')).
  { now apply segment_softmax_edgewise, div_scalar_edgewise. }
  intros sm sm' Hsm. cbn. now apply dropout_edgewise.
Qed.

Lemma weighted_values_edgewise (self : HGTConv)
    (keep keep' : nat -> nat -> bool) (ei ei' : EdgeIndex)
    (k_j k_j' q_i q_i' v_j v_j' : Tensor3) (rel : Tensor1) (n : nat) :
  Permutation ei ei' -> dropout_rate self = 0%R ->
  edgewise3 ei ei' k_j k_j' -> edgewise3 ei ei' q_i q_i' ->
  edgewise3 ei ei' v_j v_j' ->
  result_rel (edgewise3 ei ei')
    (weighted_values self keep k_j q_i v_j rel (row1 ei) n)
    (weighted_values self keep' k_j' q_i' v_j' rel (row1 ei') n).
Proof.
  intros HP Hrate Hk Hq Hv. unfold weighted_values.
  apply (result_rel_bind (edgewise2 ei ei')); [now apply attention_edgewise|].
  intros al al' Hal. now apply mul3_edgewise, expand_dims_edgewise.
Qed.

Lemma reshaped_index (e c E HD D C : nat) :
  E * HD = C * E -> e < E -> c < C -> HD = C /\
  (e * C + c) / C = e /\ (e * C + c) mod C = c.
Proof.
  intros HT He Hc.
  assert (HC : HD = C) by nia.
  split; [exact HC|]. split.
  - symmetry. apply (Nat.div_unique _ _ _ c); [exact Hc|lia].
  - symmetry. apply (Nat.mod_unique _ _ e); [exact Hc|lia].
Qed.

Lemma mod_of_flat (e c H D : nat) :
  (e * (H * D) + c) mod D = c mod D.
Proof.
  replace (e * (H * D) + c) with (c + (e * H) * D) by lia.
  apply Nat.Div0.mod_add.
Qed.

(** The reshape of the weighted values followed by the aggregation over the
    targets does not depend on the order of the edges. *)
Lemma aggregate_edgewise (ei ei' : EdgeIndex) (out out' : Tensor3)
    (C n : nat) (aggr : string) :
  Permutation ei ei' -> edgewise3 ei ei' out out' ->
  result_rel tensor2_eq
    (msg <- reshape_3_2 out C ;; aggregate msg ei n aggr)
    (msg <- reshape_3_2 out' C ;; aggregate msg ei' n aggr).
Proof.
  intros HP (A0 & A0' & A1 & A2 & F & HF & HF').
  pose proof (Permutation_length HP) as HL.
  unfold reshape_3_2. rewrite A0, A0', <- A1, <- A2, <- HL.
  destruct (C =? 0) eqn:EC; [reflexivity|]. apply Nat.eqb_neq in EC.
  set (T := length ei * dim1 out * dim2 out).
  destruct (T mod C =? 0) eqn:EM; [|reflexivity]. apply Nat.eqb_eq in EM.
  cbn [bind]. unfold aggregate, MessagePassing_aggregate.
  destruct (aggr_op aggr) as [op|err]; [|reflexivity]. cbn [bind].
  unfold segment_reduce. cbn [rows2 cols2 at2].
  rewrite !length_row1, <- HL.
  destruct (T / C =? length ei) eqn:ER; cbn [negb]; [|reflexivity].
  apply Nat.eqb_eq in ER.
  rewrite (forallb_Permutation _ (row1 ei) (row1 ei'))
    by (now apply Permutation_map).
  destruct (forallb _ (row1 ei')); [|reflexivity].
  cbn [result_rel]. unfold tensor2_eq. cbn [rows2 cols2 at2].
  split; [reflexivity|]. split; [reflexivity|].
  intros g c Hg Hc.
  assert (HT : length ei * (dim1 out * dim2 out) = C * length ei).
  { pose proof (Nat.div_mod_eq T C) as HD. rewrite EM, ER in HD.
    unfold T in HD. lia. }
  set (G := fun (p : nat * nat) =>
              F p (c / dim2 out) (c mod dim2 out)).
  assert (Hrow : forall l, length l = length ei ->
            forall t : Tensor3,
            (forall e h d, e < length l -> at3 t e h d = F (nth e l (0, 0)) h d) ->
            map (fun e =>
                   at3 t ((e * C + c) / (dim1 out * dim2 out))
                     ((e * C + c) mod (dim1 out * dim2 out) / dim2 out)
                     ((e * C + c) mod dim2 out))
              (members (row1 l) g)
            = map G (filter (fun p => snd p =? g) l)).
  { intros l Hl t Ht. rewrite <- (map_members_row1 l g G).
    apply map_ext_in. intros e He. apply members_spec in He.
    destruct He as [He _]. rewrite length_row1 in He.
    destruct (reshaped_index e c (length ei) (dim1 out * dim2 out)
                (dim2 out) C HT ltac:(lia) Hc) as (HC & Hq & Hr).
    rewrite HC, Hq, Hr, Ht by lia. unfold G. f_equal.
    rewrite <- HC. apply mod_of_flat. }
  rewrite (Hrow ei eq_refl out HF), (Hrow ei' (eq_sym HL) out' HF').
  apply reduce_list_Permutation.
  now apply Permutation_map, Permutation_filter.
Qed.

Lemma bind_assoc {A B C : Type} (c : result A) (k : A -> result B)
    (k2 : B -> result C) :
  bind (bind c k) k2 = bind c (fun a => bind (k a) k2).
Proof. destruct c; reflexivity. Qed.

(** The keyword arguments of [forward] reach the parameters of [message] of
    the same name, and [num_nodes] reaches [aggregate]. *)
Lemma propagate_forward_call (self : HGTConv) (keep : nat -> nat -> bool)
    (edge_index : EdgeIndex) (aggr : string) (q_i k_j v_j : Tensor3)
    (rel : Tensor1) (n : nat) :
  propagate self keep edge_index aggr
    [("q_i", VTensor3 q_i); ("k_j", VTensor3 k_j); ("v_j", VTensor3 v_j);
     ("rel", VTensor1 rel); ("num_nodes", VInt n)]%string
  = (msg <- message self keep k_j q_i v_j rel (row1 edge_index) n ;;
     x <- aggregate msg edge_index n aggr ;;
     Ok (update x)).
Proof. reflexivity. Qed.

Lemma tensor2_eq_refl (t : Tensor2) : tensor2_eq t t.
Proof. unfold tensor2_eq. auto. Qed.

Lemma propagate_edge_order (self : HGTConv) (keep keep' : nat -> nat -> bool)
    (ei ei' : EdgeIndex) (q_i q_i' k_j k_j' v_j v_j' : Tensor3)
    (rel : Tensor1) (n : nat) (aggr : string) :
  Permutation ei ei' -> dropout_rate self = 0%R ->
  edgewise3 ei ei' k_j k_j' -> edgewise3 ei ei' q_i q_i' ->
  edgewise3 ei ei' v_j v_j' ->
  result_rel tensor2_eq
    (propagate self keep ei aggr
       [("q_i", VTensor3 q_i); ("k_j", VTensor3 k_j); ("v_j", VTensor3 v_j);
        ("rel", VTensor1 rel); ("num_nodes", VInt n)]%string)
    (propagate self keep' ei' aggr
       [("q_i", VTensor3 q_i'); ("k_j", VTensor3 k_j');
        ("v_j", VTensor3 v_j'); ("rel", VTensor1 rel);
        ("num_nodes", VInt n)]%string).
Proof.
  intros HP Hrate Hk Hq Hv. rewrite !propagate_forward_call.
  unfold message. rewrite !bind_assoc.
  apply (result_rel_bind (edgewise3 ei ei'));
    [now apply weighted_values_edgewise|].
  intros out out' Ho. rewrite <- !bind_assoc.
  apply (result_rel_bind tensor2_eq); [now apply aggregate_edgewise|].
  intros x x' Hx. exact Hx.
Qed.

Lemma getitem_same_collected (o o' : dict (list Tensor2)) (key : string) :
  same_collected o o' ->
  result_rel (Forall2 tensor2_eq) (getitem o key) (getitem o' key).
Proof.
  unfold getitem. induction 1 as [|[k l] [k' l'] o o' [Hk Hl] _ IH]; cbn.
  - reflexivity.
  - cbn in Hk, Hl. subst k'. destruct (String.eqb key k); [exact Hl|exact IH].
Qed.

Lemma setitem_same_collected (o o' : dict (list Tensor2)) (key : string)
    (l l' : list Tensor2) :
  same_collected o o' -> Forall2 tensor2_eq l l' ->
  same_collected (setitem key l o) (setitem key l' o').
Proof.
  intros Ho Hl. induction Ho as [|[k a] [k' a'] o o' [Hk Ha] Ho IH]; cbn.
  - constructor; [split; [reflexivity|exact Hl]|constructor].
  - cbn in Hk, Ha. subst k'. destruct (String.eqb key k).
    + constructor; [split; [reflexivity|exact Hl]|exact Ho].
    + constructor; [split; [reflexivity|exact Ha]|exact IH].
Qed.

Lemma same_collected_refl (o : dict (list Tensor2)) : same_collected o o.
Proof.
  induction o as [|[k l] o IH]; constructor; [|exact IH].
  split; [reflexivity|]. cbn. induction l; constructor; auto.
  apply tensor2_eq_refl.
Qed.

Lemma edge_step_edge_order (self : HGTConv) (keep keep' : nat -> nat -> bool)
    (x_dict : dict Tensor2) (st : Projections)
    (o o' : dict (list Tensor2)) (edge_type : EdgeType)
    (ei ei' : EdgeIndex) :
  Permutation ei ei' -> dropout_rate self = 0%R -> same_collected o o' ->
  result_rel same_collected
    (edge_step self keep x_dict st o edge_type ei)
    (edge_step self keep' x_dict st o' edge_type ei').
Proof.
  intros HP Hrate Ho. unfold edge_step.
  destruct edge_type as [[src_type r] dst_type].
  do 7 (apply result_rel_same; intros ?).
  apply (result_rel_bind (edgewise3 ei ei'));
    [now apply gather_row1_edgewise|]. intros q_i q_i' Hq.
  apply (result_rel_bind (edgewise3 ei ei'));
    [now apply gather_row0_edgewise|]. intros v_j v_j' Hv.
  apply (result_rel_bind (edgewise3 ei ei'));
    [now apply gather_row0_edgewise|]. intros k_j k_j' Hk.
  do 2 (apply result_rel_same; intros ?).
  apply (result_rel_bind tensor2_eq); [now apply propagate_edge_order|].
  intros out out' Hout.
  apply (result_rel_bind (Forall2 tensor2_eq));
    [now apply getitem_same_collected|].
  intros l l' Hl. cbn. apply setitem_same_collected; [exact Ho|].
  apply Forall2_app; [exact Hl|]. constructor; [exact Hout|constructor].
Qed.

Lemma edge_loop_edge_order (self : HGTConv)
    (keep keep' : nat -> nat -> nat -> bool) (x_dict : dict Tensor2)
    (st : Projections) (items items' : list (EdgeType * EdgeIndex)) :
  dropout_rate self = 0%R -> edges_permuted items items' ->
  forall n o o', same_collected o o' ->
  result_rel same_collected
    (edge_loop self keep x_dict st n items o)
    (edge_loop self keep' x_dict st n items' o').
Proof.
  intros Hrate HE.
  induction HE as [|[et ei] [et' ei'] items items' [Het HP] _ IH];
    intros n o o' Ho; cbn [edge_loop].
  - exact Ho.
  - cbn in Het, HP. subst et'.
    apply (result_rel_bind same_collected).
    + now apply edge_step_edge_order.
    + intros o1 o1' Ho1. now apply IH.
Qed.

Lemma bidx_in_range (a b c i : nat) :
  bdim a b = Some c -> i < c -> bidx a i < a /\ bidx b i < b.
Proof.
  intros Hb Hi. apply bdim_Some_iff in Hb. unfold bidx.
  destruct (Nat.eqb_spec a 1), (Nat.eqb_spec b 1); lia.
Qed.

Lemma same_shape_eq (o o' t t' : Tensor2) :
  tensor2_eq o o' -> tensor2_eq t t' -> same_shape o t = same_shape o' t'.
Proof.
  intros (R1 & C1 & _) (R2 & C2 & _). unfold same_shape. congruence.
Qed.

Lemma Forall2_nth_rel {A : Type} (R : A -> A -> Prop) (l l' : list A)
    (d d' : A) (k : nat) :
  Forall2 R l l' -> R d d' -> R (nth k l d) (nth k l' d').
Proof.
  intros HF Hd. revert k. induction HF; intros [|k]; cbn; auto.
Qed.

Lemma stacked_shapes (o : Tensor2) (rest : list Tensor2) (k : nat) :
  forallb (same_shape o) rest = true ->
  rows2 (nth k (o :: rest) o) = rows2 o /\ cols2 (nth k (o :: rest) o) = cols2 o.
Proof.
  intros HF. destruct k as [|k]; cbn [nth]; [auto|].
  destruct (nth_in_or_default k rest o) as [Hin| ->]; [|auto].
  rewrite forallb_forall in HF. specialize (HF _ Hin).
  unfold same_shape in HF. apply andb_true_iff in HF.
  destruct HF as [H1 H2]. apply Nat.eqb_eq in H1, H2. auto.
Qed.

Lemma stack_rel (outs outs' : list Tensor2) :
  Forall2 tensor2_eq outs outs' ->
  result_rel tensor3_eq (stack outs) (stack outs').
Proof.
  intros HF. destruct HF as [|o o' rest rest' Ho Hrest]; [reflexivity|].
  unfold stack.
  assert (Hb : forallb (same_shape o) rest = forallb (same_shape o') rest').
  { induction Hrest as [|t t' rest rest' Ht _ IH]; cbn; [reflexivity|].
    now rewrite IH, (same_shape_eq o o' t t' Ho Ht). }
  rewrite <- Hb. destruct (forallb (same_shape o) rest) eqn:Hs; [|reflexivity].
  cbn [result_rel]. unfold tensor3_eq. cbn [dim0 dim1 dim2 at3 length].
  pose proof (Forall2_length Hrest) as HL.
  destruct Ho as (R1 & C1 & E1).
  split; [lia|]. split; [exact R1|]. split; [exact C1|].
  intros k i j Hk Hi Hj.
  assert (HR : tensor2_eq (nth k (o :: rest) o) (nth k (o' :: rest') o')).
  { apply Forall2_nth_rel; [constructor; [|exact Hrest]|];
      unfold tensor2_eq; auto. }
  destruct (stacked_shapes o rest k Hs) as [Sr Sc].
  destruct HR as (_ & _ & HE). apply HE; lia.
Qed.

Lemma reduce_sum_first_rel (t t' : Tensor3) :
  tensor3_eq t t' -> tensor2_eq (reduce_sum_first t) (reduce_sum_first t').
Proof.
  intros (D0 & D1 & D2 & E). unfold tensor2_eq. cbn.
  split; [exact D1|]. split; [exact D2|].
  intros i j Hi Hj. rewrite <- D0. apply sum_upto_ext.
  intros k Hk. now apply E.
Qed.

Lemma Linear_forward_rel (l : Linear) (x x' : Tensor2) :
  tensor2_eq x x' ->
  result_rel tensor2_eq (Linear_forward l x) (Linear_forward l x').
Proof.
  intros (R & C & E). unfold Linear_forward. rewrite <- C.
  destruct (cols2 x =? in_features l) eqn:Ec; [|reflexivity].
  apply Nat.eqb_eq in Ec. cbn [result_rel]. unfold tensor2_eq. cbn.
  split; [exact R|]. split; [reflexivity|].
  intros i j Hi Hj. f_equal. f_equal. apply sum_upto_ext.
  intros k Hk. rewrite E by lia. reflexivity.
Qed.

Lemma blend_rel (alpha : R) (out out' x : Tensor2) :
  tensor2_eq out out' ->
  result_rel tensor2_eq (blend alpha out x) (blend alpha out' x).
Proof.
  intros (R & C & E). unfold blend. rewrite <- R, <- C.
  destruct (bdim (rows2 out) (rows2 x)) as [r|] eqn:Br; [|reflexivity].
  destruct (bdim (cols2 out) (cols2 x)) as [c|] eqn:Bc; [|reflexivity].
  cbn [result_rel]. unfold tensor2_eq. cbn.
  split; [reflexivity|]. split; [reflexivity|].
  intros i j Hi Hj.
  destruct (bidx_in_range _ _ _ i Br Hi) as [Hi' _].
  destruct (bidx_in_range _ _ _ j Bc Hj) as [Hj' _].
  now rewrite E.
Qed.

Lemma update_node_rel (self : HGTConv) (x_dict : dict Tensor2)
    (node_type : string) (outs outs' : list Tensor2) :
  Forall2 tensor2_eq outs outs' ->
  result_rel tensor2_eq
    (update_node self x_dict node_type outs)
    (update_node self x_dict node_type outs').
Proof.
  intros HF. unfold update_node.
  apply (result_rel_bind tensor3_eq); [now apply stack_rel|].
  intros t t' Ht. apply result_rel_same. intros lin.
  apply (result_rel_bind tensor2_eq).
  { now apply Linear_forward_rel, reduce_sum_first_rel. }
  intros p p' Hp. do 2 (apply result_rel_same; intros ?).
  now apply blend_rel.
Qed.

Lemma update_all_rel (self : HGTConv) (x_dict : dict Tensor2)
    (o o' : dict (list Tensor2)) :
  same_collected o o' ->
  result_rel same_outputs (update_all self x_dict o)
    (update_all self x_dict o').
Proof.
  induction 1 as [|[k l] [k' l'] o o' [Hk Hl] _ IH]; cbn [update_all].
  - constructor.
  - cbn in Hk, Hl. subst k'.
    apply (result_rel_bind tensor2_eq); [now apply update_node_rel|].
    intros t t' Ht.
    apply (result_rel_bind same_outputs); [exact IH|].
    intros d d' Hd. cbn. constructor; [split; [reflexivity|exact Ht]|exact Hd].
Qed.

(* ================================================================= *)
(** ** Calls on concrete graphs *)

Lemma relu6_id (x : R) : (0 <= x <= 6)%R -> relu6 x = x.
Proof.
  intros [H0 H6]. unfold relu6. rewrite Rmax_left by lra.
  now rewrite Rmin_left.
Qed.

Lemma sigmoid_pos (x : R) : (0 < sigmoid x)%R.
Proof.
  unfold sigmoid. pose proof (exp_pos (- x)).
  apply Rdiv_lt_0_compat; lra.
Qed.

Ltac real_eval :=
  repeat match goal with
    | |- context [Req_dec_T ?a ?a] =>
        destruct (Req_dec_T a a); [|contradiction]
    | |- context [exp (?a - ?a)] =>
        replace (a - a)%R with 0%R
          by (unfold Rminus; now rewrite Rplus_opp_r);
        rewrite exp_0
    | |- context [relu6 ?x] => rewrite (relu6_id x) by lra
    end.

(** C2, on the code.  A layer built with [group='mean'] and two relations
    into node type a, each delivering the aggregated value 1 to the node:
    [forward] blends the projection of their sum 2, not of their mean 1,
    with the input feature. *)
Theorem forward_sums_relations_under_mean :
  group layer_mean = "mean"%string
  /\ exists st collected o1 o2 done final,
       project_all layer_mean 1 1 x_a
         {| k_dict := []; q_dict := []; v_dict := []; out_dict := [] |}
       = Ok st
       /\ edge_loop layer_mean keep_all x_a st 0 edges_two (out_dict st)
          = Ok collected
       /\ lookup "a" collected = Some [o1; o2]
       /\ at2 o1 0 0 = 1%R /\ at2 o2 0 0 = 1%R
       /\ forward layer_mean keep_all x_a edges_two = Ok done
       /\ lookup "a" done = Some final
       /\ at2 final 0 0 = (sigmoid 1 * 2 + (1 - sigmoid 1) * 1)%R
       /\ at2 final 0 0 <> (sigmoid 1 * 1 + (1 - sigmoid 1) * 1)%R.
Proof.
  split; [reflexivity|].
  do 6 eexists.
  split; [run; reflexivity|].
  split; [run; reflexivity|].
  split; [run; reflexivity|].
  split; [run; real_eval; field|].
  split; [run; real_eval; field|].
  split; [run; reflexivity|].
  split; [run; reflexivity|].
  assert (E : forall y, y = (sigmoid 1 * 2 + (1 - sigmoid 1) * 1)%R ->
              y = (sigmoid 1 * 2 + (1 - sigmoid 1) * 1)%R
              /\ y <> (sigmoid 1 * 1 + (1 - sigmoid 1) * 1)%R).
  { intros y ->. split; [reflexivity|]. pose proof (sigmoid_pos 1). lra. }
  apply E. run. real_eval. field.
Qed.

(** C6, on the code.  Node types a and b both have features, the only edge
    type goes from a to b: type a is the destination of no edge type, its
    list of per-relation outputs is empty, and [forward] raises at
    [tlx.stack]. *)
Theorem forward_raises_without_incoming_edge_type :
  forward layer_ab keep_all x_ab edges_a_to_b = Err EmptySequence.
Proof. run. reflexivity. Qed.

(** C10, as the code has it.  In the update of node type [t], with the
    stacked outputs fit for the output projection, the blend of the
    projection (width [out_channels]) with the input feature (width
    [in_channels[t]]) returns exactly when the two widths are equal or one
    of them is 1, by broadcasting; in every other case it is a shape
    mismatch. *)
Theorem blend_needs_broadcastable_widths (self : HGTConv)
    (x_dict : dict Tensor2) (node_type : string) (outs : list Tensor2)
    (stacked : Tensor3) (lin : Linear) (s : R) (x : Tensor2) (w : nat) :
  stack outs = Ok stacked ->
  lookup node_type (a_lin self) = Some lin ->
  in_features lin = dim2 stacked ->
  out_features lin = out_channels self ->
  lookup node_type (skip self) = Some s ->
  lookup node_type x_dict = Some x ->
  rows2 x = dim1 stacked ->
  lookup node_type (in_channels self) = Some w ->
  cols2 x = w ->
  ((exists final, update_node self x_dict node_type outs = Ok final)
   <-> w = out_channels self \/ w = 1 \/ out_channels self = 1)
  /\ (~ (w = out_channels self \/ w = 1 \/ out_channels self = 1) ->
      update_node self x_dict node_type outs = Err ShapeMismatch).
Proof.
  intros Hst Hl Hin Hout Hs Hx Hr _ Hw.
  unfold update_node, getitem. rewrite Hst, Hl, Hs, Hx. cbn [bind].
  unfold Linear_forward. cbn [reduce_sum_first rows2 cols2].
  rewrite Hin, Nat.eqb_refl. cbn [bind].
  match goal with
  | |- context [blend ?a ?o x] => set (projected := o)
  end.
  assert (Hrows : rows2 projected = rows2 x) by (now rewrite Hr).
  pose proof (blend_ok_iff (sigmoid s) projected x Hrows) as Hb.
  cbn [projected cols2] in Hb. rewrite Hout, Hw in Hb.
  split; [exact Hb|].
  intros Hn. unfold blend. rewrite Hrows, bdim_same.
  destruct (bdim (cols2 projected) (cols2 x)) eqn:E; [|reflexivity].
  exfalso. apply Hn. apply Hb. unfold blend.
  rewrite Hrows, bdim_same, E. eexists. reflexivity.
Qed.

Lemma C10_witness :
  (exists final,
     update_node layer_narrow x_a "a" [const2 1 2 0%R] = Ok final)
  <-> 1 = out_channels layer_narrow \/ 1 = 1
      \/ out_channels layer_narrow = 1.
Proof.
  apply (blend_needs_broadcastable_widths layer_narrow x_a "a"
           [const2 1 2 0%R]
           {| dim0 := 1; dim1 := 1; dim2 := 2;
              at3 := fun k i j => at2 (nth k [const2 1 2 0%R]
                                         (const2 1 2 0%R)) i j |}
           (new_Linear unit_init "a" "a" 2 2) 1%R (of_rows 1 [[1%R]]) 1);
    reflexivity.
Defined.

(** C10 as stated fails: a layer with input width 1 and output width 2
    returns from [forward], the blend broadcasting the one input column. *)
Lemma forward_returns_with_unequal_widths :
  ~ (forall self keep x_dict edge_index_dict done node_type x w,
       forward self keep x_dict edge_index_dict = Ok done ->
       lookup node_type x_dict = Some x ->
       lookup node_type (in_channels self) = Some w ->
       w = out_channels self).
Proof.
  intros H.
  assert (E : exists done,
             forward layer_narrow keep_all x_a edges_loop = Ok done)
    by (eexists; run; reflexivity).
  destruct E as [done E].
  specialize (H layer_narrow keep_all x_a edges_loop done "a"%string
                (of_rows 1 [[1%R]]) 1 E eq_refl eq_refl).
  discriminate H.
Qed.

Lemma C4_witness :
  exists done final,
    forward layer_ab keep_all x_ab edges_ab = Ok done
    /\ lookup "a" done = Some final
    /\ forall i j, i < 1 -> j < 1 ->
         exists projected,
           at2 final i j
           = (sigmoid 1 * projected + (1 - sigmoid 1) * 1)%R.
Proof.
  assert (E : exists done, forward layer_ab keep_all x_ab edges_ab = Ok done)
    by (eexists; run; reflexivity).
  destruct E as [done E].
  destruct (update_stage_is_gated_blend layer_ab keep_all x_ab edges_ab done
              "a" (of_rows 1 [[1%R]]) E eq_refl)
    as (st & collected & outs & stacked & lin & projected & s & final
        & _ & _ & _ & _ & _ & _ & Hs & Hd & Hv & _).
  exists done, final. split; [exact E|]. split; [exact Hd|].
  intros i j Hi Hj. eexists. rewrite Hv.
  injection Hs as <-.
  destruct i; [|lia]. destruct j; [|lia]. reflexivity.
Defined.

Lemma C8_witness :
  propagate layer_ab (fun _ _ => true) [(0, 0)] "sum" [] = Err MissingArgument.
Proof.
  apply (propagate_missing_argument layer_ab (fun _ _ => true) [(0, 0)]
           "sum" [] "k_j").
  - left. reflexivity.
  - discriminate.
  - reflexivity.
Defined.

(* ================================================================= *)
(** ** What a returning call of [forward] implies *)

Lemma project_all_out_nil (self : HGTConv) (H D : nat) (items : dict Tensor2)
    (st st' : Projections) (node_type : string) :
  project_all self H D items st = Ok st' ->
  lookup node_type items <> None
  \/ lookup node_type (out_dict st) = Some [] ->
  lookup node_type (out_dict st') = Some [].
Proof.
  revert st. induction items as [|[nt x] items IH]; intros st Hp Hk.
  - injection Hp as <-. destruct Hk as [Hk|Hk]; [now cbn in Hk|exact Hk].
  - cbn [project_all] in Hp. apply bind_Ok in Hp.
    destruct Hp as (st1 & H1 & Hp). apply (IH st1 Hp).
    rewrite (project_out_dict _ _ _ _ _ _ _ H1), lookup_setitem.
    cbn [lookup] in Hk.
    destruct (String.eqb node_type nt) eqn:E; [now right|exact Hk].
Qed.

Lemma edge_step_other_destination (self : HGTConv)
    (keep : nat -> nat -> bool) (x_dict : dict Tensor2) (st : Projections)
    (o o' : dict (list Tensor2)) (edge_type : EdgeType) (ei : EdgeIndex)
    (node_type : string) :
  edge_step self keep x_dict st o edge_type ei = Ok o' ->
  dst_type_of edge_type <> node_type ->
  lookup node_type o' = lookup node_type o.
Proof.
  unfold edge_step, dst_type_of.
  destruct edge_type as [[src_type r] dst_type]. cbn [snd].
  intros Hs Hd.
  repeat (apply bind_Ok in Hs; destruct Hs as (? & _ & Hs)).
  injection Hs as <-. rewrite lookup_setitem.
  destruct (String.eqb node_type dst_type) eqn:E; [|reflexivity].
  apply String.eqb_eq in E. congruence.
Qed.

Lemma edge_loop_other_destinations (self : HGTConv)
    (keep : nat -> nat -> nat -> bool) (x_dict : dict Tensor2)
    (st : Projections) (items : list (EdgeType * EdgeIndex))
    (node_type : string) :
  (forall et ei, In (et, ei) items -> dst_type_of et <> node_type) ->
  forall n o o',
    edge_loop self keep x_dict st n items o = Ok o' ->
    lookup node_type o' = lookup node_type o.
Proof.
  induction items as [|[et ei] items IH]; intros Hd n o o' Hl.
  - now injection Hl as <-.
  - cbn [edge_loop] in Hl. apply bind_Ok in Hl.
    destruct Hl as (o1 & H1 & Hl).
    rewrite (IH (fun et' ei' Hin => Hd et' ei' (or_intror Hin)) _ _ _ Hl).
    apply (edge_step_other_destination _ _ _ _ _ _ _ _ _ H1).
    apply (Hd et ei). now left.
Qed.

Lemma update_node_nil (self : HGTConv) (x_dict : dict Tensor2)
    (node_type : string) :
  update_node self x_dict node_type [] = Err EmptySequence.
Proof. reflexivity. Qed.

Lemma destination_dec (items : list (EdgeType * EdgeIndex))
    (node_type : string) :
  (exists et ei, In (et, ei) items /\ dst_type_of et = node_type)
  \/ (forall et ei, In (et, ei) items -> dst_type_of et <> node_type).
Proof.
  induction items as [|[et ei] items [(et' & ei' & Hin & Hd)|IH]].
  - right. intros ? ? [].
  - left. exists et', ei'. split; [now right|exact Hd].
  - destruct (string_dec (dst_type_of et) node_type) as [E|E].
    + left. exists et, ei. split; [now left|exact E].
    + right. intros et' ei' [[= <- <-]|Hin]; [exact E|now apply (IH et' ei')].
Qed.

(** When [forward] returns, every node type of [x_dict] is the destination of
    at least one edge type of [edge_index_dict]: the features of a node type
    that no edge type ends in make the call raise. *)
Theorem forward_needs_an_incoming_edge_type (self : HGTConv)
    (keep : nat -> nat -> nat -> bool) (x_dict : dict Tensor2)
    (edge_index_dict : list (EdgeType * EdgeIndex)) (done : dict Tensor2)
    (node_type : string) (x : Tensor2) :
  forward self keep x_dict edge_index_dict = Ok done ->
  lookup node_type x_dict = Some x ->
  exists edge_type edge_index,
    In (edge_type, edge_index) edge_index_dict
    /\ dst_type_of edge_type = node_type.
Proof.
  intros Hf Hx.
  destruct (destination_dec edge_index_dict node_type) as [He|Hn];
    [exact He|exfalso].
  destruct (forward_inv _ _ _ _ _ Hf) as (_ & st & collected & H1 & H2 & H3).
  assert (Hnil : lookup node_type (out_dict st) = Some []).
  { apply (project_all_out_nil _ _ _ _ _ _ _ H1). left. now rewrite Hx. }
  rewrite <- (edge_loop_other_destinations _ _ _ _ _ _ Hn _ _ _ H2) in Hnil.
  destruct (update_all_lookup _ _ _ _ _ _ H3 Hnil) as (final & _ & Hu).
  now rewrite update_node_nil in Hu.
Qed.

Lemma forward_needs_an_incoming_edge_type_witness :
  exists edge_type edge_index,
    In (edge_type, edge_index) edges_ab /\ dst_type_of edge_type = "a"%string.
Proof.
  assert (E : exists done, forward layer_ab keep_all x_ab edges_ab = Ok done)
    by (eexists; run; reflexivity).
  destruct E as [done E].
  exact (forward_needs_an_incoming_edge_type layer_ab keep_all x_ab edges_ab
           done "a" (of_rows 1 [[1%R]]) E eq_refl).
Defined.

Lemma getitem_Ok {V : Type} (d : dict V) (key : string) (v : V) :
  getitem d key = Ok v <-> lookup key d = Some v.
Proof.
  unfold getitem. destruct (lookup key d); split; congruence.
Qed.

Lemma project_inv (self : HGTConv) (H D : nat) (st st' : Projections)
    (node_type : string) (x : Tensor2) :
  project self H D st node_type x = Ok st' ->
  exists kl kx k ql qx q vl vx v,
    lookup node_type (k_lin self) = Some kl
    /\ Linear_forward kl x = Ok kx /\ reshape_2_3 kx H D = Ok k
    /\ lookup node_type (q_lin self) = Some ql
    /\ Linear_forward ql x = Ok qx /\ reshape_2_3 qx H D = Ok q
    /\ lookup node_type (v_lin self) = Some vl
    /\ Linear_forward vl x = Ok vx /\ reshape_2_3 vx H D = Ok v
    /\ st' = {| k_dict := setitem node_type k (k_dict st);
                q_dict := setitem node_type q (q_dict st);
                v_dict := setitem node_type v (v_dict st);
                out_dict := setitem node_type [] (out_dict st) |}.
Proof.
  unfold project. intros Hp.
  apply bind_Ok in Hp. destruct Hp as (kl & H1 & Hp).
  apply bind_Ok in Hp. destruct Hp as (kx & H2 & Hp).
  apply bind_Ok in Hp. destruct Hp as (k & H3 & Hp).
  apply bind_Ok in Hp. destruct Hp as (ql & H4 & Hp).
  apply bind_Ok in Hp. destruct Hp as (qx & H5 & Hp).
  apply bind_Ok in Hp. destruct Hp as (q & H6 & Hp).
  apply bind_Ok in Hp. destruct Hp as (vl & H7 & Hp).
  apply bind_Ok in Hp. destruct Hp as (vx & H8 & Hp).
  apply bind_Ok in Hp. destruct Hp as (v & H9 & Hp).
  injection Hp as <-. apply getitem_Ok in H1, H4, H7.
  exists kl, kx, k, ql, qx, q, vl, vx, v. auto 12.
Qed.

Lemma edge_step_inv (self : HGTConv) (keep : nat -> nat -> bool)
    (x_dict : dict Tensor2) (st : Projections)
    (o o' : dict (list Tensor2)) (src_type r dst_type : string)
    (ei : EdgeIndex) :
  edge_step self keep x_dict st o (src_type, r, dst_type) ei = Ok o' ->
  exists a ks k m vs v qd q_i v_j k_j rel xd out outs,
    lookup (join (src_type, r, dst_type) ++ "a") (a_rel self) = Some a
    /\ lookup src_type (k_dict st) = Some ks
    /\ rel_transform ks a = Ok k
    /\ lookup (join (src_type, r, dst_type) ++ "m") (m_rel self) = Some m
    /\ lookup src_type (v_dict st) = Some vs
    /\ rel_transform vs m = Ok v
    /\ lookup dst_type (q_dict st) = Some qd
    /\ gather qd (row1 ei) = Ok q_i
    /\ gather v (row0 ei) = Ok v_j
    /\ gather k (row0 ei) = Ok k_j
    /\ lookup (join (src_type, r, dst_type)) (p_rel self) = Some rel
    /\ lookup dst_type x_dict = Some xd
    /\ propagate self keep ei "sum"
         [("q_i", VTensor3 q_i); ("k_j", VTensor3 k_j);
          ("v_j", VTensor3 v_j); ("rel", VTensor1 rel);
          ("num_nodes", VInt (rows2 xd))]%string = Ok out
    /\ lookup dst_type o = Some outs
    /\ o' = setitem dst_type (outs ++ [out]) o.
Proof.
  unfold edge_step. intros Hs.
  apply bind_Ok in Hs. destruct Hs as (a & H1 & Hs).
  apply bind_Ok in Hs. destruct Hs as (ks & H2 & Hs).
  apply bind_Ok in Hs. destruct Hs as (k & H3 & Hs).
  apply bind_Ok in Hs. destruct Hs as (m & H4 & Hs).
  apply bind_Ok in Hs. destruct Hs as (vs & H5 & Hs).
  apply bind_Ok in Hs. destruct Hs as (v & H6 & Hs).
  apply bind_Ok in Hs. destruct Hs as (qd & H7 & Hs).
  apply bind_Ok in Hs. destruct Hs as (q_i & H8 & Hs).
  apply bind_Ok in Hs. destruct Hs as (v_j & H9 & Hs).
  apply bind_Ok in Hs. destruct Hs as (k_j & H10 & Hs).
  apply bind_Ok in Hs. destruct Hs as (rel & H11 & Hs).
  apply bind_Ok in Hs. destruct Hs as (xd & H12 & Hs).
  apply bind_Ok in Hs. destruct Hs as (out & H13 & Hs).
  apply bind_Ok in Hs. destruct Hs as (outs & H14 & Hs).
  injection Hs as <-.
  apply getitem_Ok in H1, H2, H4, H5, H7, H11, H12, H14.
  exists a, ks, k, m, vs, v, qd, q_i, v_j, k_j, rel, xd, out, outs.
  auto 20.
Qed.

Lemma lookup_None_keys {V : Type} (key : string) (d : dict V) :
  lookup key d = None <-> ~ In key (keys d).
Proof.
  induction d as [|[k v] d IH]; cbn.
  - tauto.
  - destruct (String.eqb_spec key k) as [->|Hn].
    + split; [discriminate|]. intros H. exfalso. apply H. now left.
    + rewrite IH. split; [intros H [E|E]; [congruence|auto]|auto].
Qed.

Lemma keys_setitem_present {V : Type} (key : string) (v : V) (d : dict V) :
  lookup key d <> None -> keys (setitem key v d) = keys d.
Proof.
  induction d as [|[k w] d IH]; cbn; [congruence|].
  destruct (String.eqb key k) eqn:E; cbn; [reflexivity|].
  intros H. f_equal. now apply IH.
Qed.

Lemma keys_setitem_absent {V : Type} (key : string) (v : V) (d : dict V) :
  lookup key d = None -> keys (setitem key v d) = keys d ++ [key].
Proof.
  induction d as [|[k w] d IH]; cbn; [reflexivity|].
  destruct (String.eqb key k) eqn:E; [discriminate|]. cbn.
  intros H. f_equal. now apply IH.
Qed.

Lemma project_all_out_keys (self : HGTConv) (H D : nat)
    (items : dict Tensor2) :
  NoDup (keys items) ->
  forall st st',
    (forall k, In k (keys items) -> lookup k (out_dict st) = None) ->
    project_all self H D items st = Ok st' ->
    keys (out_dict st') = keys (out_dict st) ++ keys items.
Proof.
  induction items as [|[nt x] items IH]; intros Hnd st st' Hfresh Hp.
  - injection Hp as <-. cbn. now rewrite app_nil_r.
  - cbn [project_all] in Hp. apply bind_Ok in Hp.
    destruct Hp as (st1 & H1 & Hp).
    cbn [keys map fst] in Hnd. apply NoDup_cons_iff in Hnd.
    destruct Hnd as [Hnot Hnd].
    pose proof (project_out_dict _ _ _ _ _ _ _ H1) as Ho.
    rewrite (IH Hnd st1 st'); [| |exact Hp].
    + rewrite Ho, keys_setitem_absent by (apply Hfresh; now left).
      cbn [keys map fst]. now rewrite <- app_assoc.
    + intros k Hk. rewrite Ho, lookup_setitem.
      destruct (String.eqb_spec k nt) as [->|_]; [contradiction|].
      apply Hfresh. now right.
Qed.

Lemma edge_loop_out_keys (self : HGTConv)
    (keep : nat -> nat -> nat -> bool) (x_dict : dict Tensor2)
    (st : Projections) (items : list (EdgeType * EdgeIndex)) :
  forall n o o',
    edge_loop self keep x_dict st n items o = Ok o' -> keys o' = keys o.
Proof.
  induction items as [|[[[s r] d] ei] items IH]; intros n o o' Hl.
  - now injection Hl as <-.
  - cbn [edge_loop] in Hl. apply bind_Ok in Hl.
    destruct Hl as (o1 & H1 & Hl). rewrite (IH _ _ _ Hl).
    destruct (edge_step_inv _ _ _ _ _ _ _ _ _ _ H1)
      as (? & ? & ? & ? & ? & ? & ? & ? & ? & ? & ? & ? & out & outs & E).
    decompose [and] E. subst o1. apply keys_setitem_present. congruence.
Qed.

Lemma update_all_keys (self : HGTConv) (x_dict : dict Tensor2)
    (items : dict (list Tensor2)) (done : dict Tensor2) :
  update_all self x_dict items = Ok done -> keys done = keys items.
Proof.
  revert done. induction items as [|[nt o] items IH]; intros done H.
  - now injection H as <-.
  - cbn [update_all] in H.
    apply bind_Ok in H. destruct H as (out & _ & H).
    apply bind_Ok in H. destruct H as (rest & H2 & H).
    injection H as <-. cbn. f_equal. now apply IH.
Qed.

(** The result of [forward] has the node types of [x_dict], in the same
    order: no type is added and none is dropped. *)
Theorem forward_keeps_the_node_types (self : HGTConv)
    (keep : nat -> nat -> nat -> bool) (x_dict : dict Tensor2)
    (edge_index_dict : list (EdgeType * EdgeIndex)) (done : dict Tensor2) :
  NoDup (keys x_dict) ->
  forward self keep x_dict edge_index_dict = Ok done ->
  keys done = keys x_dict.
Proof.
  intros Hnd Hf.
  destruct (forward_inv _ _ _ _ _ Hf) as (_ & st & collected & H1 & H2 & H3).
  rewrite (update_all_keys _ _ _ _ H3), (edge_loop_out_keys _ _ _ _ _ _ _ _ H2).
  pose proof (project_all_out_keys self (heads self)
                (out_channels self / heads self) x_dict Hnd
                {| k_dict := []; q_dict := []; v_dict := []; out_dict := [] |}
                st) as Hk.
  cbn [out_dict keys map app] in Hk. apply Hk; [|exact H1].
  intros k _. reflexivity.
Qed.

Lemma forward_keeps_the_node_types_witness :
  exists done,
    forward layer_ab keep_all x_ab edges_ab = Ok done
    /\ keys done = ["a"; "b"]%string.
Proof.
  assert (E : exists done, forward layer_ab keep_all x_ab edges_ab = Ok done)
    by (eexists; run; reflexivity).
  destruct E as [done E]. exists done. split; [exact E|].
  apply (forward_keeps_the_node_types layer_ab keep_all x_ab edges_ab done);
    [|exact E].
  repeat constructor; cbn; intuition discriminate.
Defined.

Lemma project_all_each (self : HGTConv) (H D : nat) (items : dict Tensor2)
    (node_type : string) (x : Tensor2) :
  In (node_type, x) items ->
  forall st st',
    project_all self H D items st = Ok st' ->
    exists st0 st1, project self H D st0 node_type x = Ok st1.
Proof.
  induction items as [|[nt y] items IH]; intros Hin st st' Hp; [contradiction|].
  cbn [project_all] in Hp. apply bind_Ok in Hp.
  destruct Hp as (st1 & H1 & Hp).
  destruct Hin as [[= -> ->]|Hin].
  - now exists st, st1.
  - now apply (IH Hin st1 st').
Qed.

Lemma edge_loop_each (self : HGTConv) (keep : nat -> nat -> nat -> bool)
    (x_dict : dict Tensor2) (st : Projections)
    (items : list (EdgeType * EdgeIndex)) (et : EdgeType) (ei : EdgeIndex) :
  In (et, ei) items ->
  forall n o o',
    edge_loop self keep x_dict st n items o = Ok o' ->
    exists m o0 o1, edge_step self (keep m) x_dict st o0 et ei = Ok o1.
Proof.
  induction items as [|[et' ei'] items IH]; intros Hin n o o' Hl;
    [contradiction|].
  cbn [edge_loop] in Hl. apply bind_Ok in Hl.
  destruct Hl as (o1 & H1 & Hl).
  destruct Hin as [[= -> ->]|Hin].
  - now exists n, o, o1.
  - now apply (IH Hin (S n) o1 o').
Qed.

Lemma project_all_k_keys (self : HGTConv) (H D : nat) (items : dict Tensor2)
    (node_type : string) :
  forall st st',
    project_all self H D items st = Ok st' ->
    lookup node_type (k_dict st') <> None ->
    lookup node_type items <> None \/ lookup node_type (k_dict st) <> None.
Proof.
  induction items as [|[nt x] items IH]; intros st st' Hp Hk.
  - injection Hp as <-. now right.
  - cbn [project_all] in Hp. apply bind_Ok in Hp.
    destruct Hp as (st1 & H1 & Hp). cbn [lookup].
    destruct (String.eqb node_type nt) eqn:E; [left; discriminate|].
    destruct (IH st1 st' Hp Hk) as [Hi|Hi]; [now left|right].
    destruct (project_inv _ _ _ _ _ _ _ H1)
      as (? & ? & k & ? & ? & ? & ? & ? & ? & _ & _ & _ & _ & _ & _ & _ & _
          & _ & ->).
    cbn [k_dict] in Hi. rewrite lookup_setitem, E in Hi. exact Hi.
Qed.

Lemma Linear_forward_Ok (l : Linear) (x out : Tensor2) :
  Linear_forward l x = Ok out ->
  cols2 x = in_features l /\ rows2 out = rows2 x
  /\ cols2 out = out_features l.
Proof.
  unfold Linear_forward.
  destruct (cols2 x =? in_features l) eqn:E; [|discriminate].
  apply Nat.eqb_eq in E. intros [= <-]. cbn. auto.
Qed.

(** [forward] returns only on types it knows: every node type of [x_dict]
    has its three input projections, whose input width is the width of its
    features, its output projection and its gate; every edge type of
    [edge_index_dict] has its two relation transforms and its importance
    vector, and features for its source and its destination type. *)
Theorem forward_returns_only_on_known_types (self : HGTConv)
    (keep : nat -> nat -> nat -> bool) (x_dict : dict Tensor2)
    (edge_index_dict : list (EdgeType * EdgeIndex)) (done : dict Tensor2) :
  forward self keep x_dict edge_index_dict = Ok done ->
  (forall node_type x, In (node_type, x) x_dict ->
     exists kl ql vl,
       lookup node_type (k_lin self) = Some kl
       /\ lookup node_type (q_lin self) = Some ql
       /\ lookup node_type (v_lin self) = Some vl
       /\ in_features kl = cols2 x /\ in_features ql = cols2 x
       /\ in_features vl = cols2 x)
  /\ (forall node_type x, lookup node_type x_dict = Some x ->
        lookup node_type (a_lin self) <> None
        /\ lookup node_type (skip self) <> None)
  /\ (forall edge_type edge_index,
        In (edge_type, edge_index) edge_index_dict ->
        lookup (join edge_type ++ "a") (a_rel self) <> None
        /\ lookup (join edge_type ++ "m") (m_rel self) <> None
        /\ lookup (join edge_type) (p_rel self) <> None
        /\ lookup (src_type_of edge_type) x_dict <> None
        /\ lookup (dst_type_of edge_type) x_dict <> None).
Proof.
  intros Hf.
  destruct (forward_inv _ _ _ _ _ Hf) as (_ & st & collected & H1 & H2 & H3).
  split; [|split].
  - intros nt x Hin.
    destruct (project_all_each _ _ _ _ _ _ Hin _ _ H1) as (st0 & st1 & Hp).
    destruct (project_inv _ _ _ _ _ _ _ Hp)
      as (kl & kx & k & ql & qx & q & vl & vx & v & L1 & F1 & _ & L2 & F2 & _
          & L3 & F3 & _).
    exists kl, ql, vl.
    apply Linear_forward_Ok in F1, F2, F3.
    repeat split; try assumption; symmetry; tauto.
  - intros nt x Hx.
    assert (Hk : lookup nt collected <> None).
    { apply (edge_loop_keys _ _ _ _ _ _ _ _ _ H2).
      apply (project_all_keys _ _ _ _ _ _ _ H1). left. now rewrite Hx. }
    destruct (lookup nt collected) as [outs|] eqn:Ho; [|congruence].
    destruct (update_all_lookup _ _ _ _ _ _ H3 Ho) as (final & _ & Hu).
    destruct (update_node_inv _ _ _ _ _ Hu)
      as (? & lin & ? & s & ? & _ & U2 & _ & U4 & _).
    apply getitem_Ok in U2, U4. split; congruence.
  - intros [[s r] d] ei Hin.
    destruct (edge_loop_each _ _ _ _ _ _ _ Hin _ _ _ H2) as (m & o0 & o1 & Hs).
    destruct (edge_step_inv _ _ _ _ _ _ _ _ _ _ Hs)
      as (a & ks & ? & mr & ? & ? & ? & ? & ? & ? & rel & xd & ? & ? & E).
    decompose [and] E. cbn [src_type_of dst_type_of fst snd].
    repeat split; try congruence.
    destruct (project_all_k_keys self _ _ x_dict s _ _ H1) as [Hs'|Hs'];
      [congruence|exact Hs'|now cbn in Hs'].
Qed.

(* ================================================================= *)
(** ** Construction *)

Lemma fold_left_ext {A B : Type} (f g : A -> B -> A) (l : list B) (a : A) :
  (forall d x, f d x = g d x) -> fold_left f l a = fold_left g l a.
Proof.
  intros H. revert a. induction l as [|x l IH]; intros a; cbn;
    [reflexivity|]. now rewrite H, IH.
Qed.

Lemma fold_left_ext_in {A B : Type} (f g : A -> B -> A) (l : list B)
    (a : A) :
  (forall d x, In x l -> f d x = g d x) -> fold_left f l a = fold_left g l a.
Proof.
  revert a. induction l as [|x l IH]; intros a H; cbn; [reflexivity|].
  rewrite H by (now left). apply IH. intros d y Hy. apply H. now right.
Qed.

Lemma lookup_fold_by_key {X V : Type} (key : X -> string) (val : X -> V)
    (l : list X) (acc : dict V) (k : string) (v : V) :
  lookup k (fold_left (fun d x => setitem (key x) (val x) d) l acc) = Some v ->
  (exists x, In x l /\ key x = k /\ v = val x) \/ lookup k acc = Some v.
Proof.
  revert acc. induction l as [|x l IH]; intros acc H; cbn in H.
  - now right.
  - destruct (IH _ H) as [(y & Hin & Hk & Hv)|Hacc].
    + left. exists y. split; [now right|auto].
    + rewrite lookup_setitem in Hacc.
      destruct (String.eqb_spec k (key x)) as [->|_]; [|now right].
      left. exists x. split; [now left|]. split; congruence.
Qed.

Lemma lookup_fold_present {X V : Type} (key : X -> string) (val : X -> V)
    (l : list X) (acc : dict V) (k : string) :
  (exists x, In x l /\ key x = k) \/ lookup k acc <> None ->
  lookup k (fold_left (fun d x => setitem (key x) (val x) d) l acc) <> None.
Proof.
  revert acc. induction l as [|x l IH]; intros acc H; cbn.
  - destruct H as [(x & [] & _)|H]; exact H.
  - apply IH. rewrite lookup_setitem.
    destruct (String.eqb_spec k (key x)) as [->|Hn]; [right; discriminate|].
    destruct H as [(y & [->|Hin] & Hk)|H]; [congruence| |now right].
    left. now exists y.
Qed.

(** A fold of [setitem] whose values are a function of the key. *)
Lemma lookup_fold_function_of_key {X V : Type} (key : X -> string)
    (g : string -> V) (l : list X) (k : string) :
  In k (map key l) ->
  lookup k (fold_left (fun d x => setitem (key x) (g (key x)) d) l []) =
  Some (g k).
Proof.
  intros Hin. apply in_map_iff in Hin. destruct Hin as (x & Hk & Hin).
  destruct (lookup k (fold_left (fun d x => setitem (key x) (g (key x)) d)
                        l [])) as [v|] eqn:E.
  - destruct (lookup_fold_by_key key (fun x => g (key x)) l [] k v E)
      as [(y & _ & Hy & ->)|Hacc]; [congruence|discriminate].
  - exfalso. revert E. apply lookup_fold_present. left. now exists x.
Qed.

(** The loop over the node types raises at the first dense layer of input
    width 0, and otherwise fills the five dictionaries key by key. *)
Lemma init_node_types_spec (ini : Initial) (oc : nat) (items : dict nat)
    (acc : NodeParams) :
  init_node_types ini oc items acc
  = if existsb (fun x : string * nat => (snd x =? 0) || (oc =? 0)) items
    then Err ZeroWidth
    else
      Ok {| nk_lin :=
              fold_left (fun d (x : string * nat) =>
                           setitem (fst x)
                             (new_Linear ini "k" (fst x) (snd x) oc) d)
                items (nk_lin acc);
            nq_lin :=
              fold_left (fun d (x : string * nat) =>
                           setitem (fst x)
                             (new_Linear ini "q" (fst x) (snd x) oc) d)
                items (nq_lin acc);
            nv_lin :=
              fold_left (fun d (x : string * nat) =>
                           setitem (fst x)
                             (new_Linear ini "v" (fst x) (snd x) oc) d)
                items (nv_lin acc);
            na_lin :=
              fold_left (fun d (x : string * nat) =>
                           setitem (fst x) (new_Linear ini "a" (fst x) oc oc)
                             d)
                items (na_lin acc);
            nskip :=
              fold_left (fun d (x : string * nat) => setitem (fst x) 1%R d)
                items (nskip acc) |}.
Proof.
  destruct (oc =? 0) eqn:Eoc; revert acc;
    induction items as [|[nt n] items IH]; intros acc;
    cbn [init_node_types existsb fold_left fst snd];
    try (destruct acc; reflexivity);
    unfold Linear_init; rewrite Eoc; destruct (n =? 0); cbn [bind orb];
    try reflexivity.
  rewrite IH. reflexivity.
Qed.

(** The dictionary an integer [in_channels] stands for gives every node type
    that width. *)
Lemma in_channels_entries (n : nat) (node_types : list string)
    (x : string * nat) :
  In x (fold_left (fun d node_type => setitem node_type n d) node_types []) ->
  snd x = n.
Proof.
  assert (G : forall (l : list string) acc,
            (forall y, In y acc -> snd y = n) ->
            forall y, In y (fold_left (fun d nt => setitem nt n d) l acc) ->
                      snd y = n).
  { clear. induction l as [|a l IH]; intros acc Hacc y Hy; cbn in Hy;
      [now apply Hacc|].
    apply (IH (setitem a n acc)); [|exact Hy]. clear -Hacc.
    induction acc as [|[k w] acc IHa]; cbn.
    - intros y [<-|[]]. reflexivity.
    - destruct (String.eqb a k).
      + intros y [<-|Hy]; [reflexivity|apply Hacc; now right].
      + intros y [<-|Hy]; [apply (Hacc (k, w)); now left|].
        apply IHa; [|exact Hy]. intros z Hz. apply Hacc. now right. }
  apply (G node_types [] (fun _ F => match F with end) x).
Qed.

Lemma existsb_zero_width (oc : nat) (items : dict nat) :
  oc <> 0 -> (forall x, In x items -> snd x <> 0) ->
  existsb (fun x : string * nat => (snd x =? 0) || (oc =? 0)) items = false.
Proof.
  intros Hoc Hall. destruct (existsb _ items) eqn:E; [|reflexivity].
  apply existsb_exists in E. destruct E as (x & Hin & Hx).
  apply orb_true_iff in Hx. destruct Hx as [Hx|Hx]; apply Nat.eqb_eq in Hx.
  - now apply Hall in Hin.
  - contradiction.
Qed.

Lemma init_well_formed (in_ch : nat + dict nat) (out_ch : nat)
    (metadata : list string * list EdgeType) (n_heads : nat) (grp : string)
    (rate : R) (ini : Initial) :
  n_heads <> 0 -> out_ch <> 0 -> n_heads * (out_ch / n_heads) = out_ch ->
  (forall n, in_ch = inl n -> n <> 0) ->
  (forall d nt n, in_ch = inr d -> In (nt, n) d -> n <> 0) ->
  exists self,
    HGTConv_init in_ch out_ch metadata n_heads grp rate ini = Ok self
    /\ well_formed self
    /\ heads self = n_heads /\ out_channels self = out_ch
    /\ group self = grp /\ dropout_rate self = rate.
Proof.
  intros Hh Hc Hdiv Hn Hd. unfold HGTConv_init.
  rewrite init_node_types_spec, existsb_zero_width; [|exact Hc|].
  2:{ destruct in_ch as [n|d].
      - intros x Hx. rewrite (in_channels_entries n _ x Hx). now apply Hn.
      - intros [nt n] Hx. now apply (Hd d nt n). }
  cbn [bind].
  apply Nat.eqb_neq in Hh. rewrite Hh. apply Nat.eqb_neq in Hh.
  eexists. split; [reflexivity|].
  split; [|cbn; auto].
  unfold well_formed, head_dim.
  cbn [heads out_channels k_lin q_lin v_lin a_lin a_rel m_rel p_rel
       nk_lin nq_lin nv_lin na_lin].
  do 3 (split; [assumption|]).
  split; [|split; [|split; [|split; [|split; [|split]]]]].
  - intros nt l H. apply lookup_fold_by_key in H.
    destruct H as [(x & _ & _ & ->)|H]; [reflexivity|discriminate].
  - intros nt l H. apply lookup_fold_by_key in H.
    destruct H as [(x & _ & _ & ->)|H]; [reflexivity|discriminate].
  - intros nt l H. apply lookup_fold_by_key in H.
    destruct H as [(x & _ & _ & ->)|H]; [reflexivity|discriminate].
  - intros nt l H. apply lookup_fold_by_key in H.
    destruct H as [(x & _ & _ & ->)|H]; [split; reflexivity|discriminate].
  - intros name t H.
    apply (lookup_fold_by_key (fun et => (join et ++ "a")%string)
             (fun et => get_weights ini (join et ++ "a") n_heads
                          (out_ch / n_heads) (out_ch / n_heads))) in H.
    destruct H as [(x & _ & _ & ->)|H]; [reflexivity|discriminate].
  - intros name t H.
    apply (lookup_fold_by_key (fun et => (join et ++ "m")%string)
             (fun et => get_weights ini (join et ++ "m") n_heads
                          (out_ch / n_heads) (out_ch / n_heads))) in H.
    destruct H as [(x & _ & _ & ->)|H]; [reflexivity|discriminate].
  - intros name t H.
    apply (lookup_fold_by_key join (fun _ => ones n_heads)) in H.
    destruct H as [(x & _ & _ & ->)|H]; [reflexivity|discriminate].
Qed.

(** [__init__] returns for a head count that divides a positive number of
    output channels and positive input widths; the layer it returns has
    projections into [out_channels] columns, relation transforms of shape
    (heads, head_dim, head_dim) and importance vectors of length [heads],
    whatever the metadata and the initial values. *)
Theorem init_gives_well_formed_layer (in_ch : nat + dict nat) (out_ch : nat)
    (metadata : list string * list EdgeType) (n_heads : nat) (grp : string)
    (rate : R) (ini : Initial) :
  n_heads <> 0 -> out_ch <> 0 -> n_heads * (out_ch / n_heads) = out_ch ->
  (forall n, in_ch = inl n -> n <> 0) ->
  (forall d nt n, in_ch = inr d -> In (nt, n) d -> n <> 0) ->
  exists self,
    HGTConv_init in_ch out_ch metadata n_heads grp rate ini = Ok self
    /\ well_formed self
    /\ heads self = n_heads /\ out_channels self = out_ch
    /\ group self = grp /\ dropout_rate self = rate.
Proof. apply init_well_formed. Qed.

Lemma init_gives_well_formed_layer_witness : well_formed layer_ab.
Proof.
  destruct (init_gives_well_formed_layer (inl 1) 1
              (["a"; "b"], [("a", "to", "b"); ("b", "to", "a")])%string
              1 "sum" 0%R unit_init) as (self & E & Hwf & _);
    [discriminate|discriminate|reflexivity|intros n [= <-]; discriminate
    |discriminate|].
  unfold layer_ab. rewrite E. exact Hwf.
Defined.

Lemma init_allocation (n out_ch : nat) (node_types : list string)
    (edge_types : list EdgeType) (n_heads : nat) (grp : string) (rate : R)
    (ini : Initial) (self : HGTConv) :
  HGTConv_init (inl n) out_ch (node_types, edge_types) n_heads grp rate ini
  = Ok self ->
  (forall nt, In nt node_types ->
     lookup nt (in_channels self) = Some n
     /\ lookup nt (k_lin self) = Some (new_Linear ini "k" nt n out_ch)
     /\ lookup nt (q_lin self) = Some (new_Linear ini "q" nt n out_ch)
     /\ lookup nt (v_lin self) = Some (new_Linear ini "v" nt n out_ch)
     /\ lookup nt (a_lin self) = Some (new_Linear ini "a" nt out_ch out_ch)
     /\ lookup nt (skip self) = Some 1%R)
  /\ (forall et, In et edge_types ->
        lookup (join et ++ "a") (a_rel self)
        = Some (get_weights ini (join et ++ "a") n_heads
                  (out_ch / n_heads) (out_ch / n_heads))
        /\ lookup (join et ++ "m") (m_rel self)
           = Some (get_weights ini (join et ++ "m") n_heads
                     (out_ch / n_heads) (out_ch / n_heads))
        /\ lookup (join et) (p_rel self) = Some (ones n_heads)).
Proof.
  unfold HGTConv_init. rewrite init_node_types_spec.
  destruct (existsb _ _); [discriminate|]. cbn [bind].
  destruct (n_heads =? 0); [discriminate|].
  intros [= <-].
  cbn [in_channels k_lin q_lin v_lin a_lin skip a_rel m_rel p_rel fst snd
       nk_lin nq_lin nv_lin na_lin nskip].
  set (ic := fold_left (fun d node_type => setitem node_type n d)
               node_types []).
  assert (Hic : forall nt, In nt node_types -> lookup nt ic = Some n).
  { intros nt Hin.
    apply (lookup_fold_function_of_key (fun nt : string => nt) (fun _ => n)).
    now rewrite map_id. }
  assert (Hentry : forall x, In x ic -> snd x = n).
  { intros x. apply in_channels_entries. }
  assert (Hkey : forall nt, In nt node_types -> In nt (map fst ic)).
  { intros nt Hin. destruct (in_dec string_dec nt (map fst ic)) as [|Hn];
      [assumption|].
    apply (lookup_None_keys nt ic) in Hn. now rewrite Hic in Hn. }
  assert (Hlin : forall (g : string -> nat -> Linear) nt,
            In nt node_types ->
            lookup nt (fold_left (fun d (x : string * nat) =>
                                    setitem (fst x) (g (fst x) (snd x)) d)
                         ic [])
            = Some (g nt n)).
  { intros g nt Hin.
    rewrite (fold_left_ext_in _ (fun d (x : string * nat) =>
                                   setitem (fst x) (g (fst x) n) d)).
    - apply (lookup_fold_function_of_key fst (fun k => g k n)).
      now apply Hkey.
    - intros d x Hx. now rewrite (Hentry x Hx). }
  split.
  - intros nt Hin. split; [now apply Hic|].
    split; [apply (Hlin (fun k m => new_Linear ini "k" k m out_ch) nt Hin)|].
    split; [apply (Hlin (fun k m => new_Linear ini "q" k m out_ch) nt Hin)|].
    split; [apply (Hlin (fun k m => new_Linear ini "v" k m out_ch) nt Hin)|].
    split.
    + apply (lookup_fold_function_of_key fst
               (fun k => new_Linear ini "a" k out_ch out_ch)).
      now apply Hkey.
    + apply (lookup_fold_function_of_key fst (fun _ => 1%R)).
      now apply Hkey.
  - intros et Hin. split; [|split].
    + apply (lookup_fold_function_of_key
               (fun et => (join et ++ "a")%string)
               (fun name => get_weights ini name n_heads
                              (out_ch / n_heads) (out_ch / n_heads))).
      apply in_map_iff. now exists et.
    + apply (lookup_fold_function_of_key
               (fun et => (join et ++ "m")%string)
               (fun name => get_weights ini name n_heads
                              (out_ch / n_heads) (out_ch / n_heads))).
      apply in_map_iff. now exists et.
    + apply (lookup_fold_function_of_key join (fun _ => ones n_heads)).
      apply in_map_iff. now exists et.
Qed.

(** With one input width for all node types, [__init__] gives every node
    type of the metadata its four dense layers, of the documented sizes, and
    the gate scalar 1.0, and every edge type its two relation transforms of
    shape (heads, dim, dim) and an importance vector of ones. *)
Theorem init_allocates_every_type (n out_ch : nat) (node_types : list string)
    (edge_types : list EdgeType) (n_heads : nat) (grp : string) (rate : R)
    (ini : Initial) (self : HGTConv) :
  HGTConv_init (inl n) out_ch (node_types, edge_types) n_heads grp rate ini
  = Ok self ->
  (forall nt, In nt node_types ->
     lookup nt (in_channels self) = Some n
     /\ lookup nt (k_lin self) = Some (new_Linear ini "k" nt n out_ch)
     /\ lookup nt (q_lin self) = Some (new_Linear ini "q" nt n out_ch)
     /\ lookup nt (v_lin self) = Some (new_Linear ini "v" nt n out_ch)
     /\ lookup nt (a_lin self) = Some (new_Linear ini "a" nt out_ch out_ch)
     /\ lookup nt (skip self) = Some 1%R)
  /\ (forall et, In et edge_types ->
        lookup (join et ++ "a") (a_rel self)
        = Some (get_weights ini (join et ++ "a") n_heads
                  (out_ch / n_heads) (out_ch / n_heads))
        /\ lookup (join et ++ "m") (m_rel self)
           = Some (get_weights ini (join et ++ "m") n_heads
                     (out_ch / n_heads) (out_ch / n_heads))
        /\ lookup (join et) (p_rel self) = Some (ones n_heads)).
Proof. apply init_allocation. Qed.

(* ================================================================= *)
(** ** [forward] returns on inputs that fit the layer *)

Lemma reshape_2_3_ok (t : Tensor2) (H D : nat) :
  H * D <> 0 -> cols2 t = H * D ->
  exists t3, reshape_2_3 t H D = Ok t3 /\ shape3 t3 = (rows2 t, H, D).
Proof.
  intros Hn Hc. unfold reshape_2_3. rewrite Hc.
  apply Nat.eqb_neq in Hn. rewrite Hn. apply Nat.eqb_neq in Hn.
  rewrite Nat.Div0.mod_mul, Nat.eqb_refl.
  eexists. split; [reflexivity|]. unfold shape3. cbn.
  now rewrite Nat.div_mul.
Qed.

Lemma project_ok (self : HGTConv) (st : Projections) (nt : string)
    (x : Tensor2) (kl ql vl : Linear) :
  well_formed self ->
  lookup nt (k_lin self) = Some kl -> lookup nt (q_lin self) = Some ql ->
  lookup nt (v_lin self) = Some vl ->
  in_features kl = cols2 x -> in_features ql = cols2 x ->
  in_features vl = cols2 x ->
  exists k q v,
    shape3 k = (rows2 x, heads self, head_dim self)
    /\ shape3 q = (rows2 x, heads self, head_dim self)
    /\ shape3 v = (rows2 x, heads self, head_dim self)
    /\ project self (heads self) (head_dim self) st nt x
       = Ok {| k_dict := setitem nt k (k_dict st);
               q_dict := setitem nt q (q_dict st);
               v_dict := setitem nt v (v_dict st);
               out_dict := setitem nt [] (out_dict st) |}.
Proof.
  intros (Hh & Hc & Hdiv & Wk & Wq & Wv & _) Lk Lq Lv Ik Iq Iv.
  assert (HD : heads self * head_dim self <> 0) by congruence.
  unfold project, getitem. rewrite Lk, Lq, Lv. cbn [bind].
  unfold Linear_forward. rewrite Ik, Iq, Iv, Nat.eqb_refl. cbn [bind].
  destruct (reshape_2_3_ok
              {| rows2 := rows2 x; cols2 := out_features kl;
                 at2 := fun i j =>
                   relu6 (sum_upto (cols2 x)
                            (fun k => (at2 x i k * weights kl k j)%R)
                          + biases kl j)%R |}
              (heads self) (head_dim self) HD) as (k & Ek & Sk).
  { cbn. rewrite (Wk nt kl Lk). now rewrite Hdiv. }
  destruct (reshape_2_3_ok
              {| rows2 := rows2 x; cols2 := out_features ql;
                 at2 := fun i j =>
                   relu6 (sum_upto (cols2 x)
                            (fun k => (at2 x i k * weights ql k j)%R)
                          + biases ql j)%R |}
              (heads self) (head_dim self) HD) as (q & Eq & Sq).
  { cbn. rewrite (Wq nt ql Lq). now rewrite Hdiv. }
  destruct (reshape_2_3_ok
              {| rows2 := rows2 x; cols2 := out_features vl;
                 at2 := fun i j =>
                   relu6 (sum_upto (cols2 x)
                            (fun k => (at2 x i k * weights vl k j)%R)
                          + biases vl j)%R |}
              (heads self) (head_dim self) HD) as (v & Ev & Sv).
  { cbn. rewrite (Wv nt vl Lv). now rewrite Hdiv. }
  rewrite Ek. cbn [bind]. rewrite Eq. cbn [bind]. rewrite Ev. cbn [bind].
  exists k, q, v. auto.
Qed.

Lemma project_all_frame (self : HGTConv) (H D : nat) (items : dict Tensor2)
    (nt : string) :
  ~ In nt (keys items) ->
  forall st st',
    project_all self H D items st = Ok st' ->
    lookup nt (k_dict st') = lookup nt (k_dict st)
    /\ lookup nt (q_dict st') = lookup nt (q_dict st)
    /\ lookup nt (v_dict st') = lookup nt (v_dict st)
    /\ lookup nt (out_dict st') = lookup nt (out_dict st).
Proof.
  induction items as [|[k x] items IH]; intros Hn st st' Hp.
  - injection Hp as <-. auto.
  - cbn [project_all] in Hp. apply bind_Ok in Hp.
    destruct Hp as (st1 & H1 & Hp). cbn [keys map fst] in Hn.
    destruct (IH (fun F => Hn (or_intror F)) st1 st' Hp)
      as (E1 & E2 & E3 & E4).
    rewrite E1, E2, E3, E4.
    destruct (project_inv _ _ _ _ _ _ _ H1)
      as (? & ? & ? & ? & ? & ? & ? & ? & ? & _ & _ & _ & _ & _ & _ & _ & _
          & _ & ->).
    cbn [k_dict q_dict v_dict out_dict]. rewrite !lookup_setitem.
    destruct (String.eqb_spec nt k) as [->|_]; [|auto].
    exfalso. apply Hn. now left.
Qed.

Lemma project_all_ok (self : HGTConv) (items : dict Tensor2) :
  well_formed self -> NoDup (keys items) ->
  (forall nt x, In (nt, x) items ->
     exists kl ql vl,
       lookup nt (k_lin self) = Some kl /\ lookup nt (q_lin self) = Some ql
       /\ lookup nt (v_lin self) = Some vl
       /\ in_features kl = cols2 x /\ in_features ql = cols2 x
       /\ in_features vl = cols2 x) ->
  forall st,
  exists st',
    project_all self (heads self) (head_dim self) items st = Ok st'
    /\ forall nt x, In (nt, x) items -> projected_for self st' nt x.
Proof.
  intros Hwf. induction items as [|[nt x] items IH]; intros Hnd Hall st.
  - exists st. split; [reflexivity|]. intros ? ? [].
  - cbn [keys map fst] in Hnd. apply NoDup_cons_iff in Hnd.
    destruct Hnd as [Hnot Hnd].
    destruct (Hall nt x (or_introl eq_refl))
      as (kl & ql & vl & Lk & Lq & Lv & Ik & Iq & Iv).
    destruct (project_ok self st nt x kl ql vl Hwf Lk Lq Lv Ik Iq Iv)
      as (k & q & v & Sk & Sq & Sv & Ep).
    destruct (IH Hnd (fun nt' x' Hin => Hall nt' x' (or_intror Hin))
                {| k_dict := setitem nt k (k_dict st);
                   q_dict := setitem nt q (q_dict st);
                   v_dict := setitem nt v (v_dict st);
                   out_dict := setitem nt [] (out_dict st) |})
      as (st' & Hp & Hrest).
    exists st'. cbn [project_all]. rewrite Ep. cbn [bind].
    split; [exact Hp|].
    intros nt' x' [[= <- <-]|Hin]; [|now apply Hrest].
    destruct (project_all_frame _ _ _ _ nt Hnot _ _ Hp) as (E1 & E2 & E3 & _).
    exists k, q, v. rewrite E1, E2, E3. cbn [k_dict q_dict v_dict].
    rewrite !lookup_setitem_same. auto 10.
Qed.

Lemma NoDup_keys_lookup {V : Type} (d : dict V) (k : string) (v : V) :
  NoDup (keys d) -> In (k, v) d -> lookup k d = Some v.
Proof.
  induction d as [|[k' v'] d IH]; intros Hnd Hin; [contradiction|].
  cbn [keys map fst] in Hnd. apply NoDup_cons_iff in Hnd.
  destruct Hnd as [Hnot Hnd]. cbn [lookup].
  destruct Hin as [[= -> ->]|Hin].
  - now rewrite String.eqb_refl.
  - destruct (String.eqb_spec k k') as [->|_]; [|now apply IH].
    exfalso. apply Hnot. apply in_map_iff. now exists (k', v).
Qed.

Lemma lookup_In {V : Type} (d : dict V) (k : string) (v : V) :
  lookup k d = Some v -> In (k, v) d.
Proof.
  induction d as [|[k' v'] d IH]; cbn; [discriminate|].
  destruct (String.eqb_spec k k') as [->|_].
  - intros [= ->]. now left.
  - intros H. right. now apply IH.
Qed.

Lemma gather_ok (t : Tensor3) (index : list nat) :
  Forall (fun i => i < dim0 t) index ->
  exists g, gather t index = Ok g
            /\ shape3 g = (length index, dim1 t, dim2 t).
Proof.
  intros HF. unfold gather. apply forallb_ltb in HF. rewrite HF.
  eexists. split; reflexivity.
Qed.


(** Lines 126 to 137 on the inputs of [forward]: for [E] edges into [n]
    destination nodes the call returns a (n, out_channels) tensor. *)
Lemma propagate_ok (self : HGTConv) (keep : nat -> nat -> bool)
    (ei : EdgeIndex) (q_i k_j v_j : Tensor3) (rel : Tensor1) (n : nat) :
  well_formed self ->
  message_inputs (length ei) (heads self) (head_dim self) n k_j q_i v_j rel
    (row1 ei) ->
  exists out,
    propagate self keep ei "sum"
      [("q_i", VTensor3 q_i); ("k_j", VTensor3 k_j); ("v_j", VTensor3 v_j);
       ("rel", VTensor1 rel); ("num_nodes", VInt n)]%string = Ok out
    /\ rows2 out = n /\ cols2 out = out_channels self.
Proof.
  intros (Hh & Hc & Hdiv & _) Hin. rewrite propagate_forward_call.
  destruct (message_value self keep k_j q_i v_j rel (row1 ei) (length ei)
              (heads self) (head_dim self) n Hin)
    as (msg & Hm & Hr & Hcol & _); [congruence|exact Hdiv|].
  rewrite Hm. cbn [bind]. unfold aggregate, MessagePassing_aggregate.
  cbn [aggr_op String.eqb Ascii.eqb Bool.eqb bind].
  destruct Hin as (_ & _ & _ & _ & Hlen & HF).
  rewrite segment_reduce_ok by (try exact HF; now rewrite Hr, length_row1).
  cbn [bind]. eexists. split; [reflexivity|]. cbn. split; congruence.
Qed.

Lemma Forall_row0 (ei : EdgeIndex) (n m : nat) :
  Forall (fun p => fst p < n /\ snd p < m) ei ->
  Forall (fun i => i < n) (row0 ei) /\ Forall (fun i => i < m) (row1 ei).
Proof.
  intros HF. unfold row0, row1. split; apply Forall_map;
    eapply Forall_impl; try exact HF; cbn; intros p [? ?]; assumption.
Qed.

Lemma edge_step_ok (self : HGTConv) (keep : nat -> nat -> bool)
    (x_dict : dict Tensor2) (st : Projections) (o : dict (list Tensor2))
    (et : EdgeType) (ei : EdgeIndex) :
  well_formed self ->
  (forall nt x, lookup nt x_dict = Some x -> projected_for self st nt x) ->
  edge_type_ok self x_dict et ei ->
  collected_ok self x_dict o ->
  exists o' outs out,
    edge_step self keep x_dict st o et ei = Ok o'
    /\ lookup (dst_type_of et) o = Some outs
    /\ o' = setitem (dst_type_of et) (outs ++ [out]) o
    /\ collected_ok self x_dict o'.
Proof.
  intros Hwf Hproj (La & Lm & Lp & xs & xd & Lxs & Lxd & HF) (Hkeys & Hok).
  destruct et as [[s r] d]. cbn [src_type_of dst_type_of fst snd] in *.
  pose proof Hwf as (Hh & Hc & Hdiv & _ & _ & _ & _ & Wa & Wm & Wp).
  destruct (lookup (join (s, r, d) ++ "a") (a_rel self)) as [a|] eqn:Ea;
    [|congruence].
  destruct (lookup (join (s, r, d) ++ "m") (m_rel self)) as [m|] eqn:Em;
    [|congruence].
  destruct (lookup (join (s, r, d)) (p_rel self)) as [rel|] eqn:Er;
    [|congruence].
  destruct (Hproj s xs Lxs) as (ks & qs & vs & Lks & _ & Lvs & Sks & _ & Svs).
  destruct (Hproj d xd Lxd) as (kd & qd & vd & _ & Lqd & _ & _ & Sqd & _).
  apply shape3_inv in Sks, Svs, Sqd.
  destruct Sks as (K0 & K1 & K2), Svs as (V0 & V1 & V2),
    Sqd as (Q0 & Q1 & Q2).
  pose proof (Wa _ _ Ea) as Sa. pose proof (Wm _ _ Em) as Sm.
  apply shape3_inv in Sa, Sm.
  destruct Sa as (A0 & A1 & A2), Sm as (M0 & M1 & M2).
  destruct (rel_transform_spec ks a) as (k & Ek & Kd0 & Kd1 & Kd2 & _);
    [congruence|congruence|].
  destruct (rel_transform_spec vs m) as (v & Ev & Vd0 & Vd1 & Vd2 & _);
    [congruence|congruence|].
  destruct (Forall_row0 ei _ _ HF) as [HF0 HF1].
  destruct (gather_ok qd (row1 ei)) as (q_i & Eq & Sq);
    [now rewrite Q0|].
  destruct (gather_ok v (row0 ei)) as (v_j & Evj & Svj);
    [now rewrite Vd0, V0|].
  destruct (gather_ok k (row0 ei)) as (k_j & Ekj & Skj);
    [now rewrite Kd0, K0|].
  rewrite length_row1 in Sq. rewrite length_row0 in Svj, Skj.
  destruct (propagate_ok self keep ei q_i k_j v_j rel (rows2 xd) Hwf)
    as (out & Eout & Ro & Co).
  { unfold message_inputs. rewrite Skj, Sq, Svj.
    rewrite Kd1, Kd2, Vd1, Vd2, K1, V1, A2, M2, Q1, Q2.
    repeat split; [apply (Wp _ _ Er)|apply length_row1|exact HF1]. }
  assert (Hd : lookup d o <> None).
  { intros Hn. apply lookup_None_keys in Hn. rewrite Hkeys in Hn.
    apply Hn. apply in_map_iff. exists (d, xd). split; [reflexivity|].
    now apply lookup_In. }
  destruct (lookup d o) as [outs|] eqn:Eo; [|congruence].
  exists (setitem d (outs ++ [out]) o), outs, out.
  split; [|split; [reflexivity|split; [reflexivity|]]].
  - unfold edge_step, getitem.
    rewrite Ea, Lks, Em, Lvs, Lqd, Er, Lxd. cbn [bind].
    rewrite Ek. cbn [bind]. rewrite Ev. cbn [bind].
    rewrite Eq. cbn [bind]. rewrite Evj. cbn [bind].
    rewrite Ekj. cbn [bind]. rewrite Eout. cbn [bind].
    rewrite Eo. reflexivity.
  - split.
    + rewrite keys_setitem_present by congruence. exact Hkeys.
    + intros nt l. rewrite lookup_setitem.
      destruct (String.eqb_spec nt d) as [->|_]; [|apply Hok].
      intros [= <-]. destruct (Hok d outs Eo) as (x & Lx & Fx).
      exists x. split; [exact Lx|]. apply Forall_app. split; [exact Fx|].
      constructor; [|constructor]. rewrite Lxd in Lx. injection Lx as <-.
      auto.
Qed.

Lemma edge_loop_ok (self : HGTConv) (keep : nat -> nat -> nat -> bool)
    (x_dict : dict Tensor2) (st : Projections)
    (items : list (EdgeType * EdgeIndex)) :
  well_formed self ->
  (forall nt x, lookup nt x_dict = Some x -> projected_for self st nt x) ->
  (forall et ei, In (et, ei) items -> edge_type_ok self x_dict et ei) ->
  forall n o,
    collected_ok self x_dict o ->
    exists o',
      edge_loop self keep x_dict st n items o = Ok o'
      /\ collected_ok self x_dict o'
      /\ forall nt, lookup nt o' = Some [] ->
           lookup nt o = Some []
           /\ forall et ei, In (et, ei) items -> dst_type_of et <> nt.
Proof.
  intros Hwf Hproj. induction items as [|[et ei] items IH]; intros Hall n o Ho.
  - exists o. split; [reflexivity|]. split; [exact Ho|].
    intros nt Hn. split; [exact Hn|]. intros ? ? [].
  - destruct (edge_step_ok self (keep n) x_dict st o et ei Hwf Hproj
                (Hall et ei (or_introl eq_refl)) Ho)
      as (o1 & outs & out & E1 & Lo & -> & Ho1).
    destruct (IH (fun et' ei' Hin => Hall et' ei' (or_intror Hin)) (S n) _ Ho1)
      as (o' & Eloop & Ho' & Hnil).
    exists o'. cbn [edge_loop]. rewrite E1. cbn [bind].
    split; [exact Eloop|]. split; [exact Ho'|].
    intros nt Hn. destruct (Hnil nt Hn) as [Hn1 Hrest].
    rewrite lookup_setitem in Hn1.
    destruct (String.eqb_spec nt (dst_type_of et)) as [->|Hne].
    + injection Hn1 as Hn1. now destruct outs.
    + split; [exact Hn1|].
      intros et' ei' [[= <- <-]|Hin]; [congruence|now apply (Hrest et' ei')].
Qed.

Lemma stack_ok (outs : list Tensor2) (n c : nat) :
  outs <> [] ->
  Forall (fun t => rows2 t = n /\ cols2 t = c) outs ->
  exists stacked,
    stack outs = Ok stacked
    /\ shape3 stacked = (length outs, n, c).
Proof.
  destruct outs as [|o rest]; [congruence|]. intros _ HF.
  apply Forall_cons_iff in HF. destruct HF as [[Hr Hc] HF].
  unfold stack.
  assert (Hs : forallb (same_shape o) rest = true).
  { apply forallb_forall. intros t Ht. rewrite Forall_forall in HF.
    destruct (HF t Ht) as [Hr' Hc']. unfold same_shape.
    rewrite Hr, Hc, Hr', Hc', !Nat.eqb_refl. reflexivity. }
  rewrite Hs. eexists. split; [reflexivity|].
  unfold shape3. cbn [dim0 dim1 dim2]. congruence.
Qed.

Lemma update_node_ok (self : HGTConv) (x_dict : dict Tensor2) (nt : string)
    (outs : list Tensor2) (x : Tensor2) :
  well_formed self ->
  outs <> [] ->
  Forall (fun t => rows2 t = rows2 x /\ cols2 t = out_channels self) outs ->
  lookup nt (a_lin self) <> None -> lookup nt (skip self) <> None ->
  lookup nt x_dict = Some x ->
  cols2 x = out_channels self \/ cols2 x = 1 \/ out_channels self = 1 ->
  exists final,
    update_node self x_dict nt outs = Ok final
    /\ rows2 final = rows2 x
    /\ bdim (out_channels self) (cols2 x) = Some (cols2 final).
Proof.
  intros (_ & _ & _ & _ & _ & _ & Wa & _) Hne HF La Ls Lx Hw.
  destruct (stack_ok outs _ _ Hne HF) as (stacked & Est & Sst).
  apply shape3_inv in Sst. destruct Sst as (S0 & S1 & S2).
  destruct (lookup nt (a_lin self)) as [al|] eqn:Ea; [|congruence].
  destruct (lookup nt (skip self)) as [s|] eqn:Es; [|congruence].
  destruct (Wa nt al Ea) as [Ia Oa].
  unfold update_node, getitem. rewrite Est, Ea, Es, Lx. cbn [bind].
  unfold Linear_forward. cbn [reduce_sum_first rows2 cols2].
  rewrite S2, Ia, Nat.eqb_refl. cbn [bind].
  unfold blend. cbn [rows2 cols2]. rewrite S1, bdim_same, Oa.
  destruct (bdim (out_channels self) (cols2 x)) as [c|] eqn:Eb.
  - eexists. split; [reflexivity|]. cbn. auto.
  - apply bdim_None_iff in Eb. lia.
Qed.

Lemma update_all_ok (self : HGTConv) (x_dict : dict Tensor2)
    (items : dict (list Tensor2)) :
  (forall nt outs, In (nt, outs) items ->
     exists final, update_node self x_dict nt outs = Ok final) ->
  exists done, update_all self x_dict items = Ok done.
Proof.
  induction items as [|[nt outs] items IH]; intros Hall.
  - now exists [].
  - destruct (Hall nt outs (or_introl eq_refl)) as (final & Ef).
    destruct (IH (fun nt' o' Hin => Hall nt' o' (or_intror Hin)))
      as (done & Ed).
    exists ((nt, final) :: done). cbn [update_all].
    rewrite Ef. cbn [bind]. rewrite Ed. reflexivity.
Qed.

Lemma forward_on_valid_input (self : HGTConv)
    (keep : nat -> nat -> nat -> bool) (x_dict : dict Tensor2)
    (edge_index_dict : list (EdgeType * EdgeIndex)) :
  well_formed self -> valid_input self x_dict edge_index_dict ->
  exists done,
    forward self keep x_dict edge_index_dict = Ok done
    /\ keys done = keys x_dict
    /\ forall nt x, lookup nt x_dict = Some x ->
         exists final,
           lookup nt done = Some final
           /\ rows2 final = rows2 x
           /\ bdim (out_channels self) (cols2 x) = Some (cols2 final).
Proof.
  intros Hwf (Hnd & Hnodes & Hedges).
  pose proof Hwf as (Hh & _).
  destruct (project_all_ok self x_dict Hwf Hnd
              (fun nt x Hin => proj1 (Hnodes nt x Hin))
              {| k_dict := []; q_dict := []; v_dict := []; out_dict := [] |})
    as (st & Ep & Hproj).
  assert (Hproj' : forall nt x, lookup nt x_dict = Some x ->
                     projected_for self st nt x).
  { intros nt x Hl. apply Hproj. now apply lookup_In. }
  assert (Hk0 : keys (out_dict st) = keys x_dict).
  { pose proof (project_all_out_keys self (heads self) (head_dim self)
                  x_dict Hnd
                  {| k_dict := []; q_dict := []; v_dict := []; out_dict := [] |}
                  st) as Hk.
    cbn [out_dict keys map app] in Hk. apply Hk; [|exact Ep].
    intros k _. reflexivity. }
  assert (Hnil0 : forall nt, lookup nt (out_dict st) <> None ->
                    lookup nt (out_dict st) = Some []).
  { intros nt Hn. apply (project_all_out_nil _ _ _ _ _ _ _ Ep). left.
    intros Hx. apply lookup_None_keys in Hx. rewrite <- Hk0 in Hx.
    apply lookup_None_keys in Hx. contradiction. }
  assert (Hc0 : collected_ok self x_dict (out_dict st)).
  { split; [exact Hk0|]. intros nt outs Ho.
    assert (Hn : lookup nt (out_dict st) = Some [])
      by (apply Hnil0; congruence).
    rewrite Hn in Ho. injection Ho as <-.
    destruct (lookup nt x_dict) as [x|] eqn:Ex.
    - exists x. split; [reflexivity|constructor].
    - apply lookup_None_keys in Ex. rewrite <- Hk0 in Ex.
      apply lookup_None_keys in Ex. congruence. }
  destruct (edge_loop_ok self keep x_dict st edge_index_dict Hwf Hproj'
              Hedges 0 _ Hc0) as (collected & El & (Hkc & Hokc) & Hnil).
  assert (Hupd : forall nt outs, In (nt, outs) collected ->
            exists final,
              update_node self x_dict nt outs = Ok final
              /\ forall x, lookup nt x_dict = Some x ->
                   rows2 final = rows2 x
                   /\ bdim (out_channels self) (cols2 x)
                      = Some (cols2 final)).
  { intros nt outs Hin.
    assert (Lo : lookup nt collected = Some outs).
    { apply NoDup_keys_lookup; [|exact Hin]. now rewrite Hkc. }
    destruct (Hokc nt outs Lo) as (x & Lx & Fx).
    destruct (Hnodes nt x (lookup_In _ _ _ Lx))
      as (_ & La & Ls & Hw & et & ei & Hine & Hdst).
    destruct (update_node_ok self x_dict nt outs x Hwf) as (final & Ef & P);
      try assumption.
    - intros ->. destruct (Hnil nt Lo) as [_ Hno].
      now apply (Hno et ei Hine).
    - exists final. split; [exact Ef|]. intros x' Lx'.
      rewrite Lx in Lx'. now injection Lx' as <-. }
  destruct (update_all_ok self x_dict collected) as (done & Ed).
  { intros nt outs Hin. destruct (Hupd nt outs Hin) as (final & Ef & _).
    now exists final. }
  exists done. split.
  - unfold forward. apply Nat.eqb_neq in Hh. rewrite Hh.
    fold (head_dim self). rewrite Ep. cbn [bind]. rewrite El. exact Ed.
  - split.
    + now rewrite (update_all_keys _ _ _ _ Ed), Hkc.
    + intros nt x Lx.
      assert (Hk : lookup nt collected <> None).
      { intros Hn. apply lookup_None_keys in Hn. rewrite Hkc in Hn.
        apply lookup_None_keys in Hn. congruence. }
      destruct (lookup nt collected) as [outs|] eqn:Lo; [|congruence].
      destruct (update_all_lookup _ _ _ _ _ _ Ed Lo) as (final & Ld & Eu).
      exists final. split; [exact Ld|].
      destruct (Hupd nt outs (lookup_In _ _ _ Lo)) as (final' & Ef & P).
      rewrite Eu in Ef. injection Ef as <-. now apply P.
Qed.

(** [forward] returns on every input that fits a well-formed layer, also
    when an edge type has no edge and when nodes have no incoming edge; the
    result has the node types of the input, and for each of them a tensor
    with one row per node and the broadcast of [out_channels] and the input
    width as its width. *)
Theorem forward_returns_on_valid_input (self : HGTConv)
    (keep : nat -> nat -> nat -> bool) (x_dict : dict Tensor2)
    (edge_index_dict : list (EdgeType * EdgeIndex)) :
  well_formed self -> valid_input self x_dict edge_index_dict ->
  exists done,
    forward self keep x_dict edge_index_dict = Ok done
    /\ keys done = keys x_dict
    /\ forall nt x, lookup nt x_dict = Some x ->
         exists final,
           lookup nt done = Some final
           /\ rows2 final = rows2 x
           /\ bdim (out_channels self) (cols2 x) = Some (cols2 final).
Proof. apply forward_on_valid_input. Qed.

Lemma valid_input_sparse : valid_input layer_ab x_two edges_sparse.
Proof.
  split; [|split].
  - repeat constructor; cbn; intuition discriminate.
  - intros nt x [[= <- <-]|[[= <- <-]|[]]].
    + split.
      { do 3 eexists. do 5 (split; [run; reflexivity|]). reflexivity. }
      split; [discriminate|]. split; [discriminate|].
      split; [now left|].
      exists ("b", "to", "a")%string, [(0, 0)].
      split; [right; now left|reflexivity].
    + split.
      { do 3 eexists. do 5 (split; [run; reflexivity|]). reflexivity. }
      split; [discriminate|]. split; [discriminate|].
      split; [now left|].
      exists ("a", "to", "b")%string, []. split; [now left|reflexivity].
  - intros et ei [[= <- <-]|[[= <- <-]|[]]].
    + split; [discriminate|]. split; [discriminate|]. split; [discriminate|].
      do 2 eexists. split; [run; reflexivity|].
      split; [run; reflexivity|constructor].
    + split; [discriminate|]. split; [discriminate|]. split; [discriminate|].
      do 2 eexists. split; [run; reflexivity|]. split; [run; reflexivity|].
      constructor; [cbn; lia|constructor].
Defined.

Ltac enum H :=
  apply lookup_In in H; run_in H;
  repeat (destruct H as [H|H];
          [injection H as <- <-; try split; reflexivity|]);
  contradiction.

Lemma layer_ab_well_formed : well_formed layer_ab.
Proof.
  unfold well_formed, head_dim.
  split; [discriminate|]. split; [discriminate|]. split; [reflexivity|].
  do 6 (split; [intros k t H; enum H|]).
  intros k t H; enum H.
Defined.

Lemma forward_returns_on_valid_input_witness :
  exists done,
    forward layer_ab keep_all x_two edges_sparse = Ok done
    /\ keys done = keys x_two.
Proof.
  destruct (forward_returns_on_valid_input layer_ab keep_all x_two
              edges_sparse layer_ab_well_formed valid_input_sparse)
    as (done & E & K & _).
  exists done. split; [exact E|exact K].
Defined.

(* ================================================================= *)
(** ** Index ranges *)

Lemma project_all_entries (self : HGTConv) (H D : nat)
    (items : dict Tensor2) (st st' : Projections) :
  project_all self H D items st = Ok st' ->
  forall nt x, In (nt, x) items ->
    exists kl ql vl,
      lookup nt (k_lin self) = Some kl /\ lookup nt (q_lin self) = Some ql
      /\ lookup nt (v_lin self) = Some vl
      /\ in_features kl = cols2 x /\ in_features ql = cols2 x
      /\ in_features vl = cols2 x.
Proof.
  intros Hp nt x Hin.
  destruct (project_all_each _ _ _ _ _ _ Hin _ _ Hp) as (st0 & st1 & Hp1).
  destruct (project_inv _ _ _ _ _ _ _ Hp1)
    as (kl & kx & k & ql & qx & q & vl & vx & v & L1 & F1 & _ & L2 & F2 & _
        & L3 & F3 & _).
  exists kl, ql, vl. apply Linear_forward_Ok in F1, F2, F3.
  repeat split; try assumption; symmetry; tauto.
Qed.

Lemma project_all_projected (self : HGTConv) (x_dict : dict Tensor2)
    (st : Projections) :
  well_formed self -> NoDup (keys x_dict) ->
  project_all self (heads self) (head_dim self) x_dict
    {| k_dict := []; q_dict := []; v_dict := []; out_dict := [] |} = Ok st ->
  forall nt x, lookup nt x_dict = Some x -> projected_for self st nt x.
Proof.
  intros Hwf Hnd Hp nt x Hl.
  destruct (project_all_ok self x_dict Hwf Hnd
              (project_all_entries _ _ _ _ _ _ Hp)
              {| k_dict := []; q_dict := []; v_dict := []; out_dict := [] |})
    as (st' & Hp' & Hall).
  rewrite Hp in Hp'. injection Hp' as <-.
  apply Hall. now apply lookup_In.
Qed.

Lemma rel_transform_dim0 (t rel r : Tensor3) :
  rel_transform t rel = Ok r -> dim0 r = dim0 t.
Proof.
  unfold rel_transform, matmul. cbn [transpose dim0 dim1 dim2].
  destruct (bdim (dim1 t) (dim0 rel)); [|discriminate].
  destruct (dim2 t =? dim1 rel); [|discriminate].
  cbn. now intros [= <-].
Qed.

Lemma gather_Ok_range (t g : Tensor3) (index : list nat) :
  gather t index = Ok g -> Forall (fun i => i < dim0 t) index.
Proof.
  unfold gather. destruct (forallb _ index) eqn:E; [|discriminate].
  intros _. now apply forallb_ltb.
Qed.

(** When [forward] returns on a well-formed layer, every edge of every edge
    type has its source index below the node count of the source type and
    its target index below the node count of the destination type. *)
Theorem forward_indices_in_range (self : HGTConv)
    (keep : nat -> nat -> nat -> bool) (x_dict : dict Tensor2)
    (edge_index_dict : list (EdgeType * EdgeIndex)) (done : dict Tensor2)
    (edge_type : EdgeType) (edge_index : EdgeIndex) :
  well_formed self -> NoDup (keys x_dict) ->
  forward self keep x_dict edge_index_dict = Ok done ->
  In (edge_type, edge_index) edge_index_dict ->
  exists xs xd,
    lookup (src_type_of edge_type) x_dict = Some xs
    /\ lookup (dst_type_of edge_type) x_dict = Some xd
    /\ Forall (fun p => fst p < rows2 xs /\ snd p < rows2 xd) edge_index.
Proof.
  intros Hwf Hnd Hf Hin.
  destruct (forward_inv _ _ _ _ _ Hf) as (_ & st & collected & H1 & H2 & _).
  fold (head_dim self) in H1.
  pose proof (project_all_projected self x_dict st Hwf Hnd H1) as Hproj.
  destruct edge_type as [[s r] d].
  destruct (edge_loop_each _ _ _ _ _ _ _ Hin _ _ _ H2) as (m & o0 & o1 & Hs).
  destruct (edge_step_inv _ _ _ _ _ _ _ _ _ _ Hs)
    as (a & ks & k & mr & vs & v & qd & q_i & v_j & k_j & rel & xd & out
        & outs & La & Lks & Ek & Lm & Lvs & Ev & Lqd & Gq & Gv & Gk & _
        & Lxd & _).
  cbn [src_type_of dst_type_of fst snd].
  assert (Lxs : lookup s x_dict <> None).
  { destruct (project_all_k_keys self _ _ x_dict s _ _ H1) as [Hs'|Hs'];
      [congruence|exact Hs'|now cbn in Hs']. }
  destruct (lookup s x_dict) as [xs|] eqn:Exs; [|congruence].
  exists xs, xd. split; [reflexivity|]. split; [exact Lxd|].
  destruct (Hproj s xs Exs) as (ks' & _ & _ & Lks' & _ & _ & Sks & _).
  destruct (Hproj d xd Lxd) as (_ & qd' & _ & _ & Lqd' & _ & _ & Sqd & _).
  rewrite Lks in Lks'. injection Lks' as <-.
  rewrite Lqd in Lqd'. injection Lqd' as <-.
  apply shape3_inv in Sks, Sqd.
  apply gather_Ok_range in Gq, Gk.
  rewrite (rel_transform_dim0 _ _ _ Ek) in Gk.
  destruct Sks as (K0 & _), Sqd as (Q0 & _). rewrite K0 in Gk.
  rewrite Q0 in Gq. unfold row0 in Gk. unfold row1 in Gq.
  rewrite Forall_map in Gk, Gq. rewrite Forall_forall in *.
  intros p Hp. split; [now apply Gk|now apply Gq].
Qed.

Lemma forward_indices_in_range_witness :
  exists xs xd,
    lookup "b" x_two = Some xs /\ lookup "a" x_two = Some xd
    /\ Forall (fun p => fst p < rows2 xs /\ snd p < rows2 xd) [(0, 0)].
Proof.
  assert (E : exists done,
             forward layer_ab keep_all x_two edges_sparse = Ok done)
    by (eexists; run; reflexivity).
  destruct E as [done E].
  apply (forward_indices_in_range layer_ab keep_all x_two edges_sparse done
           ("b", "to", "a")%string [(0, 0)] layer_ab_well_formed).
  - repeat constructor; cbn; intuition discriminate.
  - exact E.
  - right. left. reflexivity.
Defined.

(* ================================================================= *)
(** ** Nodes without incoming edges *)

Lemma update_all_lookup_inv (self : HGTConv) (x_dict : dict Tensor2)
    (items : dict (list Tensor2)) (done : dict Tensor2)
    (node_type : string) (final : Tensor2) :
  update_all self x_dict items = Ok done ->
  lookup node_type done = Some final ->
  exists outs,
    lookup node_type items = Some outs
    /\ update_node self x_dict node_type outs = Ok final.
Proof.
  revert done. induction items as [|[nt o] items IH]; intros done H Hl.
  - injection H as <-. discriminate.
  - cbn [update_all] in H.
    apply bind_Ok in H. destruct H as (out & H1 & H).
    apply bind_Ok in H. destruct H as (rest & H2 & H).
    injection H as <-. cbn [lookup] in *.
    destruct (String.eqb node_type nt) eqn:E.
    + apply String.eqb_eq in E. subst nt. injection Hl as <-.
      exists o. auto.
    + now apply (IH rest).
Qed.

Lemma propagate_sum_inv (self : HGTConv) (keep : nat -> nat -> bool)
    (ei : EdgeIndex) (q_i k_j v_j : Tensor3) (rel : Tensor1) (n : nat)
    (out : Tensor2) :
  propagate self keep ei "sum"
    [("q_i", VTensor3 q_i); ("k_j", VTensor3 k_j); ("v_j", VTensor3 v_j);
     ("rel", VTensor1 rel); ("num_nodes", VInt n)]%string = Ok out ->
  exists msg,
    message self keep k_j q_i v_j rel (row1 ei) n = Ok msg
    /\ rows2 out = n /\ cols2 out = cols2 msg
    /\ forall g c,
         at2 out g c
         = Rsum (map (fun e => at2 msg e c) (members (row1 ei) g)).
Proof.
  rewrite propagate_forward_call. intros H.
  apply bind_Ok in H. destruct H as (msg & Hm & H).
  apply bind_Ok in H. destruct H as (x & Ha & H).
  injection H as <-. exists msg. split; [exact Hm|].
  unfold aggregate, MessagePassing_aggregate in Ha.
  cbn [aggr_op String.eqb Ascii.eqb Bool.eqb bind] in Ha.
  unfold segment_reduce in Ha.
  destruct (negb (rows2 msg =? length (row1 ei))); [discriminate|].
  destruct (forallb _ (row1 ei)); [|discriminate].
  injection Ha as <-. cbn. auto.
Qed.

Lemma members_nil (ei : EdgeIndex) (g : nat) :
  (forall p, In p ei -> snd p <> g) -> members (row1 ei) g = [].
Proof.
  intros Hn. destruct (members (row1 ei) g) as [|e l] eqn:E; [reflexivity|].
  assert (He : In e (members (row1 ei) g)) by (rewrite E; now left).
  apply members_spec in He. destruct He as [He Hg].
  rewrite length_row1 in He. rewrite nth_row1 in Hg.
  exfalso. apply (Hn (nth e ei (0, 0))); [now apply nth_In|exact Hg].
Qed.

Lemma sum_upto_zero (n : nat) (f : nat -> R) :
  (forall i, i < n -> f i = 0%R) -> sum_upto n f = 0%R.
Proof.
  intros H. unfold sum_upto.
  assert (G : forall l, (forall i, In i l -> f i = 0%R) ->
                        Rsum (map f l) = 0%R).
  { induction l as [|a l IH]; intros Hl; [reflexivity|].
    change (Rsum (map f (a :: l))) with (f a + Rsum (map f l))%R.
    rewrite Hl by (now left). rewrite IH; [lra|].
    intros i Hi. apply Hl. now right. }
  apply G. intros i Hi. apply in_seq in Hi. apply H. lia.
Qed.

Lemma edge_loop_zero_rows (self : HGTConv)
    (keep : nat -> nat -> nat -> bool) (x_dict : dict Tensor2)
    (st : Projections) (nt : string) (x : Tensor2) (g : nat)
    (items : list (EdgeType * EdgeIndex)) :
  lookup nt x_dict = Some x ->
  (forall et ei p, In (et, ei) items -> dst_type_of et = nt -> In p ei ->
                   snd p <> g) ->
  forall n o o',
    (forall outs, lookup nt o = Some outs ->
       Forall (fun t => rows2 t = rows2 x /\ forall c, at2 t g c = 0%R) outs) ->
    edge_loop self keep x_dict st n items o = Ok o' ->
    forall outs, lookup nt o' = Some outs ->
      Forall (fun t => rows2 t = rows2 x /\ forall c, at2 t g c = 0%R) outs.
Proof.
  intros Lx. induction items as [|[[[s r] d] ei] items IH];
    intros Hno n o o' Ho Hl.
  - now injection Hl as <-.
  - cbn [edge_loop] in Hl. apply bind_Ok in Hl.
    destruct Hl as (o1 & H1 & Hl).
    apply (IH (fun et ei' p Hin => Hno et ei' p (or_intror Hin)) (S n) o1 o');
      [|exact Hl].
    destruct (edge_step_inv _ _ _ _ _ _ _ _ _ _ H1)
      as (a & ks & k & mr & vs & v & qd & q_i & v_j & k_j & rel & xd & out
          & outs0 & _ & _ & _ & _ & _ & _ & _ & _ & _ & _ & _ & Lxd & Hp
          & Lo & ->).
    intros outs. rewrite lookup_setitem.
    destruct (String.eqb_spec nt d) as [->|_]; [|apply Ho].
    intros [= <-]. apply Forall_app. split; [now apply Ho|].
    constructor; [|constructor].
    destruct (propagate_sum_inv _ _ _ _ _ _ _ _ _ Hp)
      as (msg & _ & Hr & _ & Hv).
    rewrite Lx in Lxd. injection Lxd as <-. split; [exact Hr|].
    intros c. rewrite Hv, members_nil; [reflexivity|].
    intros p Hin. apply (Hno (s, r, d) ei p); [now left|reflexivity|exact Hin].
Qed.

(** A node without an incoming edge gets the blend of the activation of the
    output projection's bias with its own feature: for node [g] of type
    [nt], when no edge of an edge type that ends in [nt] has target [g],
    [final[g, j] = gate * relu6(bias[j]) + (1 - gate) * x[g, j]]. *)
Theorem output_of_node_without_incoming_edge (self : HGTConv)
    (keep : nat -> nat -> nat -> bool) (x_dict : dict Tensor2)
    (edge_index_dict : list (EdgeType * EdgeIndex)) (done : dict Tensor2)
    (nt : string) (x final : Tensor2) (al : Linear) (s : R) (g : nat) :
  forward self keep x_dict edge_index_dict = Ok done ->
  lookup nt x_dict = Some x ->
  lookup nt done = Some final ->
  lookup nt (a_lin self) = Some al ->
  lookup nt (skip self) = Some s ->
  g < rows2 x ->
  (forall et ei p, In (et, ei) edge_index_dict -> dst_type_of et = nt ->
                   In p ei -> snd p <> g) ->
  forall j,
    at2 final g j
    = (sigmoid s * relu6 (biases al (bidx (out_features al) j))
       + (1 - sigmoid s) * at2 x g (bidx (cols2 x) j))%R.
Proof.
  intros Hf Lx Ld La Ls Hg Hno j.
  destruct (forward_inv _ _ _ _ _ Hf) as (_ & st & collected & H1 & H2 & H3).
  destruct (update_all_lookup_inv _ _ _ _ _ _ H3 Ld) as (outs & Lo & Hu).
  assert (Hz : Forall (fun t => rows2 t = rows2 x
                                /\ forall c, at2 t g c = 0%R) outs).
  { apply (edge_loop_zero_rows self keep x_dict st nt x g edge_index_dict
             Lx Hno 0 (out_dict st) collected); [|exact H2|exact Lo].
    intros outs0 Lo0.
    assert (Hnil : lookup nt (out_dict st) = Some []).
    { apply (project_all_out_nil _ _ _ _ _ _ _ H1). left. congruence. }
    rewrite Hnil in Lo0. injection Lo0 as <-. constructor. }
  destruct (update_node_inv _ _ _ _ _ Hu)
    as (stacked & lin & projected & s' & x' & U1 & U2 & U3 & U4 & U5 & U6).
  apply getitem_Ok in U2, U4, U5.
  rewrite La in U2. injection U2 as <-.
  rewrite Ls in U4. injection U4 as <-.
  rewrite Lx in U5. injection U5 as <-.
  destruct outs as [|o rest]; [discriminate|].
  unfold stack in U1. destruct (forallb (same_shape o) rest); [|discriminate].
  injection U1 as <-.
  unfold Linear_forward in U3. cbn [reduce_sum_first rows2 cols2 dim1 dim2] in U3.
  destruct (cols2 o =? in_features al); [|discriminate].
  injection U3 as <-.
  destruct (blend_value _ _ _ _ U6) as (_ & _ & B).
  rewrite B. cbn [rows2 cols2 at2 at3 dim0].
  pose proof Hz as Hz'. apply Forall_cons_iff in Hz'.
  destruct Hz' as [[Ro _] _].
  rewrite Ro, !(bidx_lt (rows2 x) g) by exact Hg.
  f_equal. f_equal. f_equal.
  rewrite sum_upto_zero; [lra|].
  intros k _. rewrite sum_upto_zero; [lra|].
  intros t Ht. cbn [length] in Ht.
  rewrite Forall_forall in Hz.
  destruct (Hz (nth t (o :: rest) o)) as [_ Hzero];
    [apply nth_In; cbn [length]; lia|]. apply Hzero.
Qed.

Lemma output_of_node_without_incoming_edge_witness :
  exists done final,
    forward layer_ab keep_all x_two edges_sparse = Ok done
    /\ lookup "a" done = Some final
    /\ forall j,
         at2 final 1 j
         = (sigmoid 1
            * relu6 (biases (new_Linear unit_init "a" "a" 1 1) (bidx 1 j))
            + (1 - sigmoid 1)
              * at2 (of_rows 1 [[1%R]; [2%R]]) 1 (bidx 1 j))%R.
Proof.
  do 2 eexists.
  split; [run; reflexivity|]. split; [run; reflexivity|].
  eapply (output_of_node_without_incoming_edge layer_ab keep_all x_two
           edges_sparse _ "a" (of_rows 1 [[1%R]; [2%R]]) _
           (new_Linear unit_init "a" "a" 1 1) 1%R 1).
  - run. reflexivity.
  - reflexivity.
  - run. reflexivity.
  - reflexivity.
  - reflexivity.
  - cbn. lia.
  - intros et ei p [[= <- <-]|[[= <- <-]|[]]] Hd Hp.
    + discriminate Hd.
    + destruct Hp as [<-|[]]. discriminate.
Defined.

(* ================================================================= *)
(** ** What [forward] does not depend on *)

Lemma edges_permuted_refl (d : list (EdgeType * EdgeIndex)) :
  edges_permuted d d.
Proof.
  induction d as [|p d IH]; constructor; [|exact IH].
  split; [reflexivity|apply Permutation_refl].
Qed.

(** With dropout rate 0 the random draw of the dropout layer has no effect:
    two calls of [forward] on the same input raise the same exception or
    return the same output, whatever the draws. *)
Theorem forward_ignores_the_draw_at_rate_0 (self : HGTConv)
    (keep keep' : nat -> nat -> nat -> bool) (x_dict : dict Tensor2)
    (edge_index_dict : list (EdgeType * EdgeIndex)) :
  dropout_rate self = 0%R ->
  result_rel same_outputs
    (forward self keep x_dict edge_index_dict)
    (forward self keep' x_dict edge_index_dict).
Proof.
  intros Hrate. unfold forward.
  destruct (heads self =? 0); [reflexivity|].
  apply result_rel_same. intros st.
  apply (result_rel_bind same_collected).
  - apply edge_loop_edge_order;
      [exact Hrate|apply edges_permuted_refl|apply same_collected_refl].
  - intros o o' Ho. now apply update_all_rel.
Qed.

Lemma forward_ignores_the_draw_at_rate_0_witness :
  result_rel same_outputs
    (forward layer_ab keep_all x_ab edges_ab)
    (forward layer_ab (fun _ _ _ => false) x_ab edges_ab).
Proof.
  apply (forward_ignores_the_draw_at_rate_0 layer_ab keep_all
           (fun _ _ _ => false) x_ab edges_ab).
  reflexivity.
Defined.

Lemma forward_returns_only_on_known_types_witness :
  exists kl ql vl,
    lookup "a" (k_lin layer_ab) = Some kl
    /\ lookup "a" (q_lin layer_ab) = Some ql
    /\ lookup "a" (v_lin layer_ab) = Some vl
    /\ in_features kl = 1 /\ in_features ql = 1 /\ in_features vl = 1.
Proof.
  assert (E : exists done, forward layer_ab keep_all x_ab edges_ab = Ok done)
    by (eexists; run; reflexivity).
  destruct E as [done E].
  destruct (forward_returns_only_on_known_types layer_ab keep_all x_ab
              edges_ab done E) as (H1 & _).
  exact (H1 "a"%string (of_rows 1 [[1%R]]) (or_introl eq_refl)).
Defined.

Lemma init_allocates_every_type_witness :
  lookup "b" (skip layer_ab) = Some 1%R
  /\ lookup "a__to__b" (p_rel layer_ab) = Some (ones 1).
Proof.
  destruct (init_allocates_every_type 1 1 ["a"; "b"]%string
              [("a", "to", "b"); ("b", "to", "a")]%string 1 "sum" 0%R
              unit_init layer_ab eq_refl) as (Hn & He).
  split.
  - apply (Hn "b"%string). right. left. reflexivity.
  - apply (He ("a", "to", "b")%string). left. reflexivity.
Defined.

(* ================================================================= *)
(** ** Routing of the keyword arguments *)

Lemma lookup_fold_setitem_NoDup {V : Type} (items : dict V) (k : string) :
  NoDup (keys items) ->
  lookup k (fold_left (fun d '(k', v) => setitem k' v d) items [])
  = lookup k items.
Proof.
  intros Hnd.
  rewrite (fold_left_ext _ (fun d (x : string * V) =>
                              setitem (fst x) (snd x) d))
    by (intros d [a b]; reflexivity).
  destruct (lookup k items) as [v|] eqn:E.
  - destruct (lookup k (fold_left (fun d (x : string * V) =>
                                     setitem (fst x) (snd x) d) items []))
      as [v'|] eqn:E'.
    + apply lookup_fold_by_key in E'.
      destruct E' as [([a b] & Hin & Hk & ->)|E']; [|discriminate].
      cbn in Hk. subst a.
      rewrite (NoDup_keys_lookup items k b Hnd Hin) in E. cbn. congruence.
    + exfalso. revert E'. apply lookup_fold_present. left.
      exists (k, v). split; [now apply lookup_In|reflexivity].
  - destruct (lookup k (fold_left (fun d (x : string * V) =>
                                     setitem (fst x) (snd x) d) items []))
      as [v'|] eqn:E'; [|reflexivity].
    apply lookup_fold_by_key in E'.
    destruct E' as [([a b] & Hin & Hk & _)|E']; [|discriminate].
    cbn in Hk. subst a.
    now rewrite (NoDup_keys_lookup items k b Hnd Hin) in E.
Qed.

(** [propagate] hands each keyword value to the parameter of [message] of
    the same name, in whatever order the caller lists them and whatever
    other keywords come along; the target index always is row 1 of the edge
    index, also when the caller passes a [target_index] of its own. *)
Theorem propagate_routes_by_name (self : HGTConv)
    (keep : nat -> nat -> bool) (edge_index : EdgeIndex) (aggr : string)
    (kwargs : dict value) (q_i k_j v_j : Tensor3) (rel : Tensor1)
    (n : nat) :
  NoDup (keys kwargs) ->
  lookup "k_j" kwargs = Some (VTensor3 k_j) ->
  lookup "q_i" kwargs = Some (VTensor3 q_i) ->
  lookup "v_j" kwargs = Some (VTensor3 v_j) ->
  lookup "rel" kwargs = Some (VTensor1 rel) ->
  lookup "num_nodes" kwargs = Some (VInt n) ->
  propagate self keep edge_index aggr kwargs
  = (msg <- message self keep k_j q_i v_j rel (row1 edge_index) n ;;
     x <- aggregate msg edge_index n aggr ;;
     Ok (update x)).
Proof.
  intros Hnd Lk Lq Lv Lr Ln. unfold propagate.
  cbn [distribute message_params].
  rewrite !lookup_setitem. cbn [String.eqb Ascii.eqb Bool.eqb].
  rewrite !lookup_fold_setitem_NoDup by exact Hnd.
  rewrite Lk, Lq, Lv, Lr, Ln. cbn [bind].
  unfold call_message, kwarg.
  cbn [lookup String.eqb Ascii.eqb Bool.eqb bind as_tensor3 as_tensor1
       as_index as_int].
  rewrite Ln. cbn [bind as_int]. reflexivity.
Qed.

Lemma propagate_routes_by_name_witness :
  propagate layer_ab (fun _ _ => true) [(0, 0)] "sum"
    [("target_index", VIndex [7]); ("num_nodes", VInt 1);
     ("rel", VTensor1 (ones 1)); ("v_j", VTensor3 (const3 1 1 1 2%R));
     ("q_i", VTensor3 (const3 1 1 1 1%R));
     ("k_j", VTensor3 (const3 1 1 1 1%R))]%string
  = (msg <- message layer_ab (fun _ _ => true) (const3 1 1 1 1%R)
              (const3 1 1 1 1%R) (const3 1 1 1 2%R) (ones 1)
              (row1 [(0, 0)]) 1 ;;
     x <- aggregate msg [(0, 0)] 1 "sum" ;;
     Ok (update x)).
Proof.
  apply (propagate_routes_by_name layer_ab (fun _ _ => true) [(0, 0)] "sum"
           _ (const3 1 1 1 1%R) (const3 1 1 1 1%R) (const3 1 1 1 2%R)
           (ones 1) 1); try reflexivity.
  repeat constructor; cbn; intuition discriminate.
Defined.

(* ================================================================= *)
(** ** The keys of the relation parameters *)

Lemma append_assoc (a b c : string) :
  ((a ++ b) ++ c)%string = (a ++ (b ++ c))%string.
Proof.
  induction a as [|ch a IH]; cbn; [reflexivity|]. now rewrite IH.
Qed.

Lemma length_append (a b : string) :
  String.length (a ++ b) = String.length a + String.length b.
Proof.
  induction a as [|ch a IH]; cbn; [reflexivity|]. now rewrite IH.
Qed.

(** The key of the relation parameters does not determine the edge type:
    moving a double underscore from the source type into the relation label
    gives a different edge type with the same key, hence with the same
    transforms and importance vector. *)
Theorem join_is_not_injective (s r r' d : string) :
  ((s ++ "__" ++ r)%string, r', d) <> (s, (r ++ "__" ++ r')%string, d)
  /\ join ((s ++ "__" ++ r)%string, r', d)
     = join (s, (r ++ "__" ++ r')%string, d).
Proof.
  split.
  - intros [= Hs _]. apply (f_equal String.length) in Hs.
    rewrite !length_append in Hs. cbn in Hs. lia.
  - unfold join. now rewrite !append_assoc.
Qed.

(* ================================================================= *)
(** ** Applying the layer again *)

(** The output of [forward] is an input again: on a well-formed layer and a
    valid input whose features all have width [out_channels], the result is
    a valid input for the same edges, with features of width [out_channels],
    so the layer (or the next one of the same sizes) can be applied to it. *)
Theorem forward_output_is_a_valid_input (self : HGTConv)
    (keep : nat -> nat -> nat -> bool) (x_dict : dict Tensor2)
    (edge_index_dict : list (EdgeType * EdgeIndex)) :
  well_formed self -> valid_input self x_dict edge_index_dict ->
  (forall nt x, In (nt, x) x_dict -> cols2 x = out_channels self) ->
  exists done,
    forward self keep x_dict edge_index_dict = Ok done
    /\ valid_input self done edge_index_dict
    /\ (forall nt y, In (nt, y) done -> cols2 y = out_channels self)
    /\ exists again, forward self keep done edge_index_dict = Ok again.
Proof.
  intros Hwf Hvalid Hw.
  destruct (forward_on_valid_input self keep x_dict edge_index_dict Hwf
              Hvalid) as (done & Ef & Hk & Hout).
  destruct Hvalid as (Hnd & Hnodes & Hedges).
  assert (Hback : forall nt y, In (nt, y) done ->
            exists x, In (nt, x) x_dict /\ rows2 y = rows2 x
                      /\ cols2 y = out_channels self).
  { intros nt y Hin.
    assert (Hnd' : NoDup (keys done)) by (now rewrite Hk).
    pose proof (NoDup_keys_lookup done nt y Hnd' Hin) as Ly.
    destruct (lookup nt x_dict) as [x|] eqn:Lx.
    - destruct (Hout nt x Lx) as (final & Lf & Hr & Hb).
      rewrite Ly in Lf. injection Lf as <-.
      exists x. split; [now apply lookup_In|]. split; [exact Hr|].
      rewrite (Hw nt x (lookup_In _ _ _ Lx)), bdim_same in Hb.
      now injection Hb.
    - exfalso. apply lookup_None_keys in Lx. rewrite <- Hk in Lx.
      apply lookup_None_keys in Lx. congruence. }
  assert (Hvalid' : valid_input self done edge_index_dict).
  { split; [now rewrite Hk|]. split.
    - intros nt y Hin. destruct (Hback nt y Hin) as (x & Hx & _ & Hc).
      destruct (Hnodes nt x Hx)
        as ((kl & ql & vl & L1 & L2 & L3 & I1 & I2 & I3) & La & Ls & _ & He).
      pose proof (Hw nt x Hx) as Hcx.
      split; [exists kl, ql, vl; repeat split; congruence|].
      split; [exact La|]. split; [exact Ls|]. split; [now left|exact He].
    - intros et ei Hin.
      destruct (Hedges et ei Hin) as (La & Lm & Lp & xs & xd & Ls & Ld & HF).
      split; [exact La|]. split; [exact Lm|]. split; [exact Lp|].
      destruct (Hout _ xs Ls) as (ys & Lys & Rs & _).
      destruct (Hout _ xd Ld) as (yd & Lyd & Rd & _).
      exists ys, yd. split; [exact Lys|]. split; [exact Lyd|].
      now rewrite Rs, Rd. }
  exists done. split; [exact Ef|]. split; [exact Hvalid'|].
  split; [intros nt y Hin; now destruct (Hback nt y Hin) as (_ & _ & _ & Hc)|].
  destruct (forward_on_valid_input self keep done edge_index_dict Hwf
              Hvalid') as (again & Ea & _).
  now exists again.
Qed.

Lemma forward_output_is_a_valid_input_witness :
  exists done again,
    forward layer_ab keep_all x_two edges_sparse = Ok done
    /\ forward layer_ab keep_all done edges_sparse = Ok again.
Proof.
  destruct (forward_output_is_a_valid_input layer_ab keep_all x_two
              edges_sparse layer_ab_well_formed valid_input_sparse)
    as (done & E & _ & _ & again & Ea).
  - intros nt x [[= <- <-]|[[= <- <-]|[]]]; reflexivity.
  - exists done, again. split; [exact E|exact Ea].
Defined.

(* ================================================================= *)
(** ** Construction followed by a call *)

(** Construction and call fit together: a layer built by [__init__] with
    one positive input width [n] (equal to [out_channels], or one of them 1)
    runs
    [forward] on every graph over its metadata: node types of the metadata
    without duplicates, features of width [n], every node type the
    destination of an edge type, edge types of the metadata with indices
    inside the node ranges. *)
Theorem forward_after_init (n out_ch : nat) (node_types : list string)
    (edge_types : list EdgeType) (n_heads : nat) (grp : string) (rate : R)
    (ini : Initial) (keep : nat -> nat -> nat -> bool)
    (x_dict : dict Tensor2) (edge_index_dict : list (EdgeType * EdgeIndex)) :
  n_heads <> 0 -> out_ch <> 0 -> n_heads * (out_ch / n_heads) = out_ch ->
  n <> 0 -> (n = out_ch \/ n = 1 \/ out_ch = 1) ->
  NoDup (keys x_dict) ->
  (forall nt x, In (nt, x) x_dict ->
     In nt node_types /\ cols2 x = n
     /\ exists et ei, In (et, ei) edge_index_dict /\ dst_type_of et = nt) ->
  (forall et ei, In (et, ei) edge_index_dict ->
     In et edge_types
     /\ exists xs xd,
          lookup (src_type_of et) x_dict = Some xs
          /\ lookup (dst_type_of et) x_dict = Some xd
          /\ Forall (fun p => fst p < rows2 xs /\ snd p < rows2 xd) ei) ->
  exists self done,
    HGTConv_init (inl n) out_ch (node_types, edge_types) n_heads grp rate ini
    = Ok self
    /\ forward self keep x_dict edge_index_dict = Ok done
    /\ keys done = keys x_dict.
Proof.
  intros Hh Hc Hdiv Hn0 Hn Hnd Hnodes Hedges.
  destruct (init_well_formed (inl n) out_ch (node_types, edge_types) n_heads
              grp rate ini Hh Hc Hdiv)
    as (self & Hinit & Hwf & _ & Hout & _);
    [intros m [= <-]; exact Hn0|discriminate|].
  destruct (init_allocation n out_ch node_types edge_types n_heads grp rate
              ini self Hinit) as [Hnt Het].
  assert (Hvalid : valid_input self x_dict edge_index_dict).
  { split; [exact Hnd|]. split.
    - intros nt x Hin. destruct (Hnodes nt x Hin) as (Hm & Hw & He).
      destruct (Hnt nt Hm) as (_ & Lk & Lq & Lv & La & Ls).
      split; [do 3 eexists; repeat split; try eassumption; cbn; congruence|].
      rewrite La, Ls. split; [discriminate|]. split; [discriminate|].
      split; [rewrite Hout, Hw; exact Hn|exact He].
    - intros et ei Hin. destruct (Hedges et ei Hin) as (Hm & Hx).
      destruct (Het et Hm) as (La & Lm & Lp). rewrite La, Lm, Lp.
      split; [discriminate|]. split; [discriminate|].
      split; [discriminate|exact Hx]. }
  destruct (forward_on_valid_input self keep x_dict edge_index_dict Hwf
              Hvalid) as (done & Hf & Hk & _).
  exists self, done. split; [exact Hinit|]. split; [exact Hf|exact Hk].
Qed.

Lemma forward_after_init_witness :
  exists self done,
    HGTConv_init (inl 1) 1
      (["a"; "b"], [("a", "to", "b"); ("b", "to", "a")])%string
      1 "sum" 0%R unit_init = Ok self
    /\ forward self keep_all x_two edges_sparse = Ok done
    /\ keys done = keys x_two.
Proof.
  apply (forward_after_init 1 1 ["a"; "b"]%string
           [("a", "to", "b"); ("b", "to", "a")]%string 1 "sum"%string 0%R
           unit_init keep_all x_two edges_sparse).
  - discriminate.
  - discriminate.
  - reflexivity.
  - discriminate.
  - now left.
  - repeat constructor; cbn; intuition discriminate.
  - intros nt x [[= <- <-]|[[= <- <-]|[]]].
    + split; [now left|]. split; [reflexivity|].
      exists ("b", "to", "a")%string, [(0, 0)].
      split; [right; now left|reflexivity].
    + split; [right; now left|]. split; [reflexivity|].
      exists ("a", "to", "b")%string, []. split; [now left|reflexivity].
  - intros et ei [[= <- <-]|[[= <- <-]|[]]].
    + split; [now left|]. do 2 eexists. split; [reflexivity|].
      split; [reflexivity|constructor].
    + split; [right; now left|]. do 2 eexists. split; [reflexivity|].
      split; [reflexivity|]. repeat constructor.
Defined.

(* ================================================================= *)
(** ** Heads that do not divide the output channels *)


(** With a head dimension of 0 (more heads than output channels) or no head
    at all, [forward] raises on every input with a node type: at the latest
    the first reshape of a projection to (-1, heads, 0) fails, so the message
    stage is never reached. *)
Theorem forward_raises_with_zero_head_dim (self : HGTConv)
    (keep : nat -> nat -> nat -> bool) (x_dict : dict Tensor2)
    (edge_index_dict : list (EdgeType * EdgeIndex)) :
  heads self * (out_channels self / heads self) = 0 -> x_dict <> [] ->
  exists e, forward self keep x_dict edge_index_dict = Err e.
Proof.
  intros HD Hx. unfold forward.
  destruct (heads self =? 0); [now exists ZeroDivision|].
  destruct x_dict as [|[nt x] rest]; [contradiction|].
  cbn [project_all]. unfold project.
  destruct (getitem (k_lin self) nt) as [kl|e]; cbn [bind]; [|now exists e].
  destruct (Linear_forward kl x) as [kx|e]; cbn [bind]; [|now exists e].
  unfold reshape_2_3. rewrite HD. cbn [Nat.eqb bind].
  now exists ShapeMismatch.
Qed.

Lemma forward_raises_with_zero_head_dim_witness :
  exists e, forward layer_two_heads keep_all x_ab edges_ab = Err e.
Proof.
  apply (forward_raises_with_zero_head_dim layer_two_heads keep_all x_ab
           edges_ab).
  - reflexivity.
  - discriminate.
Defined.

(* ================================================================= *)
(** ** The relation transform inside [forward] *)






(* ================================================================= *)
(** ** Shapes and exceptions do not depend on elements or on order *)

Lemma shape2_eq_refl (t : Tensor2) : shape2_eq t t.
Proof. split; reflexivity. Qed.

Lemma shape2_eq_trans (a b c : Tensor2) :
  shape2_eq a b -> shape2_eq b c -> shape2_eq a c.
Proof. intros [R1 C1] [R2 C2]. split; congruence. Qed.

Lemma result_rel_Ok {A B : Type} (R : A -> B -> Prop) (c : result A)
    (c' : result B) (a : A) :
  result_rel R c c' -> c = Ok a -> exists b, c' = Ok b /\ R a b.
Proof.
  intros H ->. destruct c' as [b|e]; [|contradiction]. now exists b.
Qed.

Lemma result_rel_trans {A : Type} (R : A -> A -> Prop) (x y z : result A) :
  (forall a b c, R a b -> R b c -> R a c) ->
  result_rel R x y -> result_rel R y z -> result_rel R x z.
Proof.
  intros HT. destruct x, y, z; cbn; try contradiction; try congruence.
  apply HT.
Qed.

Lemma gather_shapes (t : Tensor3) (l l' : list nat) :
  Permutation l l' -> result_rel shape3_eq (gather t l) (gather t l').
Proof.
  intros HP. unfold gather. rewrite (forallb_Permutation _ l l' HP).
  destruct (forallb _ l'); [|reflexivity].
  cbn. split; [now apply Permutation_length|]. split; reflexivity.
Qed.

Lemma mul3_shapes (a a' b b' : Tensor3) :
  shape3_eq a a' -> shape3_eq b b' ->
  result_rel shape3_eq (mul3 a b) (mul3 a' b').
Proof.
  intros (A0 & A1 & A2) (B0 & B1 & B2). unfold mul3.
  rewrite <- A0, <- A1, <- A2, <- B0, <- B1, <- B2.
  destruct (bdim (dim0 a) (dim0 b)); [|reflexivity].
  destruct (bdim (dim1 a) (dim1 b)); [|reflexivity].
  destruct (bdim (dim2 a) (dim2 b)); [|reflexivity].
  cbn. repeat split.
Qed.

Lemma mul2_vec_shapes (x x' : Tensor2) (v : Tensor1) :
  shape2_eq x x' -> result_rel shape2_eq (mul2_vec x v) (mul2_vec x' v).
Proof.
  intros [R C]. unfold mul2_vec. rewrite <- C.
  destruct (bdim (cols2 x) (len1 v)); [|reflexivity].
  cbn. split; [exact R|reflexivity].
Qed.

Lemma segment_reduce_shapes (op : reduce_op) (v v' : Tensor2)
    (ids ids' : list nat) (n : nat) :
  shape2_eq v v' -> Permutation ids ids' ->
  result_rel shape2_eq (segment_reduce op v ids n)
    (segment_reduce op v' ids' n).
Proof.
  intros [R C] HP. unfold segment_reduce.
  rewrite <- R, <- (Permutation_length HP), (forallb_Permutation _ _ _ HP).
  destruct (negb _); [reflexivity|].
  destruct (forallb _ ids'); [|reflexivity].
  cbn. split; [reflexivity|exact C].
Qed.

Lemma segment_softmax_shapes (a a' : Tensor2) (ids ids' : list nat)
    (n : nat) :
  shape2_eq a a' -> Permutation ids ids' ->
  result_rel shape2_eq (segment_softmax a ids n) (segment_softmax a' ids' n).
Proof.
  intros Ha HP. unfold segment_softmax.
  apply (result_rel_bind shape2_eq); [now apply segment_reduce_shapes|].
  intros mx mx' _.
  apply (result_rel_bind shape2_eq).
  { apply segment_reduce_shapes; [exact Ha|exact HP]. }
  intros sm sm' _. exact Ha.
Qed.

Lemma reshape_3_2_shapes (t t' : Tensor3) (C : nat) :
  shape3_eq t t' -> result_rel shape2_eq (reshape_3_2 t C) (reshape_3_2 t' C).
Proof.
  intros (D0 & D1 & D2). unfold reshape_3_2. rewrite <- D0, <- D1, <- D2.
  destruct (C =? 0); [reflexivity|].
  destruct (_ mod C =? 0); [|reflexivity].
  cbn. split; reflexivity.
Qed.

Lemma attention_shapes (self : HGTConv) (keep keep' : nat -> nat -> bool)
    (k k' q q' : Tensor3) (rel : Tensor1) (tgt tgt' : list nat) (n : nat) :
  shape3_eq k k' -> shape3_eq q q' -> Permutation tgt tgt' ->
  result_rel shape2_eq (attention self keep k q rel tgt n)
    (attention self keep' k' q' rel tgt' n).
Proof.
  intros Hk Hq HP. unfold attention.
  apply (result_rel_bind shape3_eq); [now apply mul3_shapes|].
  intros kq kq' (K0 & K1 & K2).
  apply (result_rel_bind shape2_eq).
  { apply mul2_vec_shapes. split; [exact K0|exact K1]. }
  intros al al' Hal.
  apply (result_rel_bind shape2_eq).
  { apply segment_softmax_shapes; [exact Hal|exact HP]. }
  intros sm sm' Hs. exact Hs.
Qed.

(** The message stage: its exception or the shape of its result depends on
    the shapes of its inputs only, not on their elements, the order of the
    target indices or the dropout draw. *)
Lemma message_shapes (self : HGTConv) (keep keep' : nat -> nat -> bool)
    (k k' q q' v v' : Tensor3) (rel : Tensor1) (tgt tgt' : list nat)
    (n : nat) :
  shape3_eq k k' -> shape3_eq q q' -> shape3_eq v v' ->
  Permutation tgt tgt' ->
  result_rel shape2_eq (message self keep k q v rel tgt n)
    (message self keep' k' q' v' rel tgt' n).
Proof.
  intros Hk Hq Hv HP. unfold message, weighted_values.
  apply (result_rel_bind shape3_eq); [|intros; now apply reshape_3_2_shapes].
  apply (result_rel_bind shape2_eq); [now apply attention_shapes|].
  intros al al' [A0 A1].
  apply mul3_shapes; [exact Hv|]. repeat split; assumption.
Qed.

Lemma aggregate_shapes (msg msg' : Tensor2) (ei ei' : EdgeIndex) (n : nat)
    (aggr : string) :
  shape2_eq msg msg' -> Permutation ei ei' ->
  result_rel shape2_eq (aggregate msg ei n aggr) (aggregate msg' ei' n aggr).
Proof.
  intros Hm HP. unfold aggregate, MessagePassing_aggregate.
  apply result_rel_same. intros op.
  apply segment_reduce_shapes; [exact Hm|]. now apply Permutation_map.
Qed.

Lemma propagate_shapes (self : HGTConv) (keep keep' : nat -> nat -> bool)
    (ei ei' : EdgeIndex) (q_i q_i' k_j k_j' v_j v_j' : Tensor3)
    (rel : Tensor1) (n : nat) (aggr : string) :
  Permutation ei ei' ->
  shape3_eq k_j k_j' -> shape3_eq q_i q_i' -> shape3_eq v_j v_j' ->
  result_rel shape2_eq
    (propagate self keep ei aggr
       [("q_i", VTensor3 q_i); ("k_j", VTensor3 k_j); ("v_j", VTensor3 v_j);
        ("rel", VTensor1 rel); ("num_nodes", VInt n)]%string)
    (propagate self keep' ei' aggr
       [("q_i", VTensor3 q_i'); ("k_j", VTensor3 k_j');
        ("v_j", VTensor3 v_j'); ("rel", VTensor1 rel);
        ("num_nodes", VInt n)]%string).
Proof.
  intros HP Hk Hq Hv. rewrite !propagate_forward_call.
  apply (result_rel_bind shape2_eq).
  { apply message_shapes; try assumption. now apply Permutation_map. }
  intros msg msg' Hm.
  apply (result_rel_bind shape2_eq); [now apply aggregate_shapes|].
  intros x x' Hx. exact Hx.
Qed.

Lemma edge_step_edge_out (self : HGTConv) (keep : nat -> nat -> bool)
    (x_dict : dict Tensor2) (st : Projections) (o : dict (list Tensor2))
    (edge_type : EdgeType) (ei : EdgeIndex) :
  edge_step self keep x_dict st o edge_type ei
  = (out <- edge_out self keep x_dict st edge_type ei ;;
     outs <- getitem o (dst_type_of edge_type) ;;
     Ok (setitem (dst_type_of edge_type) (outs ++ [out]) o)).
Proof.
  destruct edge_type as [[src_type r] dst_type].
  unfold edge_step, edge_out, dst_type_of. cbn [snd].
  repeat (match goal with
          | |- bind ?c _ = bind (bind ?c _) _ =>
              destruct c; cbn [bind]; [|reflexivity]
          end).
  reflexivity.
Qed.

Lemma edge_out_shapes (self : HGTConv) (keep keep' : nat -> nat -> bool)
    (x_dict : dict Tensor2) (st : Projections) (edge_type : EdgeType)
    (ei ei' : EdgeIndex) :
  Permutation ei ei' ->
  result_rel shape2_eq (edge_out self keep x_dict st edge_type ei)
    (edge_out self keep' x_dict st edge_type ei').
Proof.
  intros HP. unfold edge_out.
  destruct edge_type as [[src_type r] dst_type].
  do 7 (apply result_rel_same; intros ?).
  apply (result_rel_bind shape3_eq);
    [apply gather_shapes; now apply Permutation_map|]. intros q_i q_i' Hq.
  apply (result_rel_bind shape3_eq);
    [apply gather_shapes; now apply Permutation_map|]. intros v_j v_j' Hv.
  apply (result_rel_bind shape3_eq);
    [apply gather_shapes; now apply Permutation_map|]. intros k_j k_j' Hk.
  do 2 (apply result_rel_same; intros ?).
  now apply propagate_shapes.
Qed.

Lemma Forall2_shape2_eq_refl (l : list Tensor2) : Forall2 shape2_eq l l.
Proof. induction l; constructor; auto using shape2_eq_refl. Qed.

Lemma Forall2_shape2_eq_trans (l m n : list Tensor2) :
  Forall2 shape2_eq l m -> Forall2 shape2_eq m n -> Forall2 shape2_eq l n.
Proof.
  intros H. revert n. induction H as [|a b l m Hab _ IH]; intros n Hn.
  - inversion Hn. constructor.
  - inversion Hn as [|b' c m' n' Hbc Hmn]; subst. constructor.
    + eapply shape2_eq_trans; eassumption.
    + now apply IH.
Qed.

Lemma outs_shapes_refl (l : list Tensor2) : outs_shapes l l.
Proof.
  exists l. split; [apply Permutation_refl|apply Forall2_shape2_eq_refl].
Qed.

Lemma outs_shapes_trans (l m n : list Tensor2) :
  outs_shapes l m -> outs_shapes m n -> outs_shapes l n.
Proof.
  intros (l1 & P1 & F1) (m1 & P2 & F2).
  destruct (Permutation_Forall2 P2 (Forall2_flip F1)) as (l2 & P3 & F3).
  exists l2. split.
  - eapply Permutation_trans; eassumption.
  - eapply Forall2_shape2_eq_trans; [|exact F2]. now apply Forall2_flip.
Qed.

Lemma collected_shapes_refl (o : dict (list Tensor2)) : collected_shapes o o.
Proof.
  induction o as [|[k l] o IH]; constructor; [|exact IH].
  split; [reflexivity|apply outs_shapes_refl].
Qed.

Lemma collected_shapes_trans (a b c : dict (list Tensor2)) :
  collected_shapes a b -> collected_shapes b c -> collected_shapes a c.
Proof.
  intros H. revert c. induction H as [|p q a b [Hk Hl] _ IH]; intros c Hc.
  - inversion Hc. constructor.
  - inversion Hc as [|q' r b' c' [Hk' Hl'] Hbc]; subst. constructor.
    + split; [congruence|]. eapply outs_shapes_trans; eassumption.
    + now apply IH.
Qed.

Lemma getitem_collected_shapes (o o' : dict (list Tensor2)) (key : string) :
  collected_shapes o o' ->
  result_rel outs_shapes (getitem o key) (getitem o' key).
Proof.
  unfold getitem. induction 1 as [|[k l] [k' l'] o o' [Hk Hl] _ IH]; cbn.
  - reflexivity.
  - cbn in Hk, Hl. subst k'. destruct (String.eqb key k); [exact Hl|exact IH].
Qed.

Lemma setitem_collected_shapes (o o' : dict (list Tensor2)) (key : string)
    (l l' : list Tensor2) :
  collected_shapes o o' -> outs_shapes l l' ->
  collected_shapes (setitem key l o) (setitem key l' o').
Proof.
  intros Ho Hl. induction Ho as [|[k a] [k' a'] o o' [Hk Ha] Ho IH]; cbn.
  - constructor; [split; [reflexivity|exact Hl]|constructor].
  - cbn in Hk, Ha. subst k'. destruct (String.eqb key k).
    + constructor; [split; [reflexivity|exact Hl]|exact Ho].
    + constructor; [split; [reflexivity|exact Ha]|exact IH].
Qed.

Lemma outs_shapes_app (l l' a a' : list Tensor2) :
  outs_shapes l l' -> Forall2 shape2_eq a a' ->
  outs_shapes (l ++ a) (l' ++ a').
Proof.
  intros (m & P & F) Ha. exists (m ++ a). split.
  - now apply Permutation_app_tail.
  - now apply Forall2_app.
Qed.

Lemma setitem_twice {V : Type} (key : string) (v w : V) (d : dict V) :
  setitem key v (setitem key w d) = setitem key v d.
Proof.
  induction d as [|[k u] d IH]; cbn.
  - now rewrite String.eqb_refl.
  - destruct (String.eqb key k) eqn:E; cbn; rewrite E; [reflexivity|].
    now rewrite IH.
Qed.

Lemma setitem_swap {V : Type} (a b : string) (v w : V) (d : dict V) :
  a <> b -> lookup a d <> None -> lookup b d <> None ->
  setitem a v (setitem b w d) = setitem b w (setitem a v d).
Proof.
  intros Hab. induction d as [|[k u] d IH]; cbn; [congruence|].
  destruct (String.eqb_spec a k) as [->|Ha], (String.eqb_spec b k) as [->|Hb];
    cbn.
  - congruence.
  - intros _ _. rewrite String.eqb_refl.
    destruct (String.eqb_spec b k); [congruence|reflexivity].
  - intros _ _. rewrite String.eqb_refl.
    destruct (String.eqb_spec a k); [congruence|reflexivity].
  - intros H1 H2.
    destruct (String.eqb_spec a k), (String.eqb_spec b k); try congruence.
    now rewrite IH.
Qed.

(** One step of the loop over edge types, on collections of the same
    shapes and two orders of the edges. *)
Lemma edge_step_shapes (self : HGTConv) (keep keep' : nat -> nat -> bool)
    (x_dict : dict Tensor2) (st : Projections)
    (o o' : dict (list Tensor2)) (edge_type : EdgeType) (ei ei' : EdgeIndex) :
  Permutation ei ei' -> collected_shapes o o' ->
  result_rel collected_shapes
    (edge_step self keep x_dict st o edge_type ei)
    (edge_step self keep' x_dict st o' edge_type ei').
Proof.
  intros HP Ho. rewrite !edge_step_edge_out.
  apply (result_rel_bind shape2_eq); [now apply edge_out_shapes|].
  intros out out' Hout.
  apply (result_rel_bind outs_shapes);
    [now apply getitem_collected_shapes|].
  intros l l' Hl. cbn. apply setitem_collected_shapes; [exact Ho|].
  apply outs_shapes_app; [exact Hl|]. constructor; [exact Hout|constructor].
Qed.

Lemma edge_loop_shapes (self : HGTConv)
    (keep keep' : nat -> nat -> nat -> bool) (x_dict : dict Tensor2)
    (st : Projections) (items items' : list (EdgeType * EdgeIndex)) :
  edges_permuted items items' ->
  forall n n' o o', collected_shapes o o' ->
  result_rel collected_shapes
    (edge_loop self keep x_dict st n items o)
    (edge_loop self keep' x_dict st n' items' o').
Proof.
  intros HE.
  induction HE as [|[et ei] [et' ei'] items items' [Het HP] _ IH];
    intros n n' o o' Ho; cbn [edge_loop].
  - exact Ho.
  - cbn in Het, HP. subst et'.
    apply (result_rel_bind collected_shapes).
    + now apply edge_step_shapes.
    + intros o1 o1' Ho1. now apply IH.
Qed.

(** Two consecutive steps of the loop over edge types, taken in the other
    order. *)
Lemma edge_step_swap (self : HGTConv) (k1 k2 k3 k4 : nat -> nat -> bool)
    (x_dict : dict Tensor2) (st : Projections)
    (o o1 o2 : dict (list Tensor2)) (et1 et2 : EdgeType)
    (ei1 ei2 : EdgeIndex) :
  edge_step self k1 x_dict st o et1 ei1 = Ok o1 ->
  edge_step self k2 x_dict st o1 et2 ei2 = Ok o2 ->
  exists o3 o4,
    edge_step self k3 x_dict st o et2 ei2 = Ok o3
    /\ edge_step self k4 x_dict st o3 et1 ei1 = Ok o4
    /\ collected_shapes o2 o4.
Proof.
  intros H1 H2. rewrite edge_step_edge_out in H1, H2.
  apply bind_Ok in H1. destruct H1 as (t1 & E1 & H1).
  apply bind_Ok in H1. destruct H1 as (l1 & G1 & H1).
  injection H1 as <-.
  apply bind_Ok in H2. destruct H2 as (t2 & E2 & H2).
  apply bind_Ok in H2. destruct H2 as (l2 & G2 & H2).
  injection H2 as <-.
  destruct (result_rel_Ok _ _ _ _
              (edge_out_shapes self k1 k4 x_dict st et1 ei1 ei1
                 (Permutation_refl _)) E1)
    as (t1' & E1' & T1).
  destruct (result_rel_Ok _ _ _ _
              (edge_out_shapes self k2 k3 x_dict st et2 ei2 ei2
                 (Permutation_refl _)) E2)
    as (t2' & E2' & T2).
  apply getitem_Ok in G1, G2.
  set (d1 := dst_type_of et1) in *. set (d2 := dst_type_of et2) in *.
  destruct (String.eqb_spec d2 d1) as [Hd|Hd].
  - rewrite Hd in *. rewrite lookup_setitem_same in G2. injection G2 as <-.
    exists (setitem d1 (l1 ++ [t2']) o).
    exists (setitem d1 ((l1 ++ [t2']) ++ [t1'])
              (setitem d1 (l1 ++ [t2']) o)).
    split; [|split].
    + rewrite edge_step_edge_out, E2'. cbn [bind]. fold d2. rewrite Hd.
      apply getitem_Ok in G1. now rewrite G1.
    + rewrite edge_step_edge_out, E1'. cbn [bind]. fold d1.
      unfold getitem. now rewrite lookup_setitem_same.
    + rewrite !setitem_twice.
      apply setitem_collected_shapes; [apply collected_shapes_refl|].
      exists ((l1 ++ [t2]) ++ [t1]). split.
      * rewrite <- !app_assoc. apply Permutation_app_head. cbn.
        apply perm_swap.
      * apply Forall2_app; [apply Forall2_app|].
        -- apply Forall2_shape2_eq_refl.
        -- constructor; [exact T2|constructor].
        -- constructor; [exact T1|constructor].
  - rewrite lookup_setitem in G2.
    destruct (String.eqb_spec d2 d1); [contradiction|].
    exists (setitem d2 (l2 ++ [t2']) o).
    exists (setitem d1 (l1 ++ [t1']) (setitem d2 (l2 ++ [t2']) o)).
    split; [|split].
    + rewrite edge_step_edge_out, E2'. cbn [bind]. fold d2.
      unfold getitem. now rewrite G2.
    + rewrite edge_step_edge_out, E1'. cbn [bind]. fold d1.
      unfold getitem. rewrite lookup_setitem.
      destruct (String.eqb_spec d1 d2); [congruence|]. now rewrite G1.
    + rewrite (setitem_swap d2 d1) by congruence.
      apply setitem_collected_shapes.
      * apply setitem_collected_shapes; [apply collected_shapes_refl|].
        apply outs_shapes_app; [apply outs_shapes_refl|].
        constructor; [exact T2|constructor].
      * apply outs_shapes_app; [apply outs_shapes_refl|].
        constructor; [exact T1|constructor].
Qed.

(** The loop over edge types, over two orders of the same edge types. *)
Lemma edge_loop_edge_type_order (self : HGTConv) (x_dict : dict Tensor2)
    (st : Projections) (items items' : list (EdgeType * EdgeIndex)) :
  Permutation items items' ->
  forall keep keep' n n' o o1,
    edge_loop self keep x_dict st n items o = Ok o1 ->
    exists o1',
      edge_loop self keep' x_dict st n' items' o = Ok o1'
      /\ collected_shapes o1 o1'.
Proof.
  intros HP.
  induction HP
    as [|[et ei] l l' _ IH|[et1 ei1] [et2 ei2] l|l l' l'' _ IH1 _ IH2];
    intros keep keep' n n' o o1 H.
  - exists o1. split; [exact H|apply collected_shapes_refl].
  - cbn [edge_loop] in *. apply bind_Ok in H. destruct H as (oa & Ha & H).
    destruct (result_rel_Ok _ _ _ _
                (edge_step_shapes self (keep n) (keep' n') x_dict st o o
                   et ei ei (Permutation_refl _) (collected_shapes_refl o))
                Ha)
      as (oa' & Ha' & Ra).
    rewrite Ha'. cbn [bind].
    destruct (IH keep keep' (S n) (S n') oa o1 H) as (o2 & H2 & R2).
    destruct (result_rel_Ok _ _ _ _
                (edge_loop_shapes self keep' keep' x_dict st l' l'
                   (edges_permuted_refl l') (S n') (S n') oa oa' Ra) H2)
      as (o3 & H3 & R3).
    exists o3. split; [exact H3|].
    eapply collected_shapes_trans; eassumption.
  - cbn [edge_loop] in *. apply bind_Ok in H. destruct H as (oa & Ha & H).
    apply bind_Ok in H. destruct H as (ob & Hb & H).
    destruct (edge_step_swap self _ _ (keep' n') (keep' (S n')) x_dict st
                _ _ _ _ _ _ _ Ha Hb) as (oc & od & Hc & Hd & Rd).
    rewrite Hc. cbn [bind]. rewrite Hd. cbn [bind].
    eapply result_rel_Ok; [|exact H].
    apply edge_loop_shapes; [apply edges_permuted_refl|assumption].
  - destruct (IH1 keep keep' n n' o o1 H) as (o2 & H2 & R2).
    destruct (IH2 keep' keep' n' n' o o2 H2) as (o3 & H3 & R3).
    exists o3. split; [exact H3|].
    eapply collected_shapes_trans; eassumption.
Qed.

Lemma same_shape_refl (o : Tensor2) : same_shape o o = true.
Proof. unfold same_shape. now rewrite !Nat.eqb_refl. Qed.

Lemma same_shape_true (o t : Tensor2) :
  same_shape o t = true <-> rows2 o = rows2 t /\ cols2 o = cols2 t.
Proof.
  unfold same_shape. now rewrite andb_true_iff, !Nat.eqb_eq.
Qed.

Lemma same_shape_shapes (o o' t t' : Tensor2) :
  shape2_eq o o' -> shape2_eq t t' -> same_shape o t = same_shape o' t'.
Proof. intros [R1 C1] [R2 C2]. unfold same_shape. congruence. Qed.

Lemma forallb_same_shape_shapes (o o' : Tensor2) (l l' : list Tensor2) :
  shape2_eq o o' -> Forall2 shape2_eq l l' ->
  forallb (same_shape o) l = forallb (same_shape o') l'.
Proof.
  intros Ho. induction 1 as [|t t' l l' Ht _ IH]; cbn [forallb];
    [reflexivity|].
  now rewrite IH, (same_shape_shapes o o' t t' Ho Ht).
Qed.

Lemma stack_shapes_Permutation (o o' : Tensor2) (rest rest' : list Tensor2) :
  Permutation (o :: rest) (o' :: rest') ->
  forallb (same_shape o) rest = true ->
  forallb (same_shape o') rest' = true /\ same_shape o o' = true.
Proof.
  intros HP HF.
  assert (HA : Forall (fun t => same_shape o t = true) (o :: rest)).
  { constructor; [apply same_shape_refl|]. apply Forall_forall.
    now apply forallb_forall. }
  apply (Permutation_Forall HP) in HA.
  inversion HA as [|? ? Ho Hrest]; subst. split; [|exact Ho].
  apply forallb_forall. intros t Ht.
  rewrite Forall_forall in Hrest. specialize (Hrest t Ht).
  apply same_shape_true in Ho, Hrest. apply same_shape_true.
  destruct Ho, Hrest. split; congruence.
Qed.

(** Stacking: the exception, or the shape of one slice of the stack,
    depends on the shapes of the tensors only, not on their order. *)
Lemma stack_shapes (l l' : list Tensor2) :
  outs_shapes l l' ->
  result_rel (fun t t' => dim1 t = dim1 t' /\ dim2 t = dim2 t')
    (stack l) (stack l').
Proof.
  intros (m & HP & HF).
  apply (result_rel_trans _ _ (stack m)).
  - intros a b c [A1 A2] [B1 B2]. split; congruence.
  - destruct l as [|o rest], m as [|o' rest'].
    + reflexivity.
    + now apply Permutation_nil_cons in HP.
    + apply Permutation_sym in HP. now apply Permutation_nil_cons in HP.
    + unfold stack. destruct (forallb (same_shape o) rest) eqn:Hs.
      * destruct (stack_shapes_Permutation o o' rest rest' HP Hs)
          as [Hs' Ho].
        rewrite Hs'. apply same_shape_true in Ho. exact Ho.
      * destruct (forallb (same_shape o') rest') eqn:Hs'; [|reflexivity].
        apply Permutation_sym in HP.
        destruct (stack_shapes_Permutation o' o rest' rest HP Hs')
          as [Hc _].
        congruence.
  - destruct HF as [|o o' rest rest' Ho Hrest]; [reflexivity|].
    unfold stack.
    rewrite <- (forallb_same_shape_shapes o o' rest rest' Ho Hrest). destruct (forallb (same_shape o) rest); [|reflexivity].
    exact Ho.
Qed.

Lemma Linear_forward_shapes (l : Linear) (x x' : Tensor2) :
  shape2_eq x x' ->
  result_rel shape2_eq (Linear_forward l x) (Linear_forward l x').
Proof.
  intros [R C]. unfold Linear_forward. rewrite <- C.
  destruct (cols2 x =? in_features l); [|reflexivity].
  split; [exact R|reflexivity].
Qed.

Lemma blend_shapes (alpha : R) (out out' x : Tensor2) :
  shape2_eq out out' ->
  result_rel shape2_eq (blend alpha out x) (blend alpha out' x).
Proof.
  intros [R C]. unfold blend. rewrite <- R, <- C.
  destruct (bdim (rows2 out) (rows2 x)); [|reflexivity].
  destruct (bdim (cols2 out) (cols2 x)); [|reflexivity].
  split; reflexivity.
Qed.

Lemma update_node_shapes (self : HGTConv) (x_dict : dict Tensor2)
    (node_type : string) (outs outs' : list Tensor2) :
  outs_shapes outs outs' ->
  result_rel shape2_eq
    (update_node self x_dict node_type outs)
    (update_node self x_dict node_type outs').
Proof.
  intros HF. unfold update_node.
  eapply result_rel_bind; [apply stack_shapes, HF|].
  cbv beta. intros t t' [T1 T2]. apply result_rel_same. intros lin.
  apply (result_rel_bind shape2_eq).
  { apply Linear_forward_shapes. split; assumption. }
  intros p p' Hp. do 2 (apply result_rel_same; intros ?).
  now apply blend_shapes.
Qed.

Lemma update_all_shapes (self : HGTConv) (x_dict : dict Tensor2)
    (o o' : dict (list Tensor2)) :
  collected_shapes o o' ->
  result_rel same_shapes (update_all self x_dict o)
    (update_all self x_dict o').
Proof.
  induction 1 as [|[k l] [k' l'] o o' [Hk Hl] _ IH]; cbn [update_all].
  - constructor.
  - cbn in Hk, Hl. subst k'.
    apply (result_rel_bind shape2_eq); [now apply update_node_shapes|].
    intros t t' Ht.
    apply (result_rel_bind same_shapes); [exact IH|].
    intros d d' Hd. cbn. constructor; [split; [reflexivity|exact Ht]|exact Hd].
Qed.

(** Permuting the edges of edge types changes neither the exception
    [forward] raises nor the node types and shapes of what it returns,
    whatever the dropout rate and the draws. *)
Lemma forward_shapes_edge_order (self : HGTConv)
    (keep keep' : nat -> nat -> nat -> bool) (x_dict : dict Tensor2)
    (edge_index_dict edge_index_dict' : list (EdgeType * EdgeIndex)) :
  edges_permuted edge_index_dict edge_index_dict' ->
  result_rel same_shapes
    (forward self keep x_dict edge_index_dict)
    (forward self keep' x_dict edge_index_dict').
Proof.
  intros HE. unfold forward.
  destruct (heads self =? 0); [reflexivity|].
  apply result_rel_same. intros st.
  apply (result_rel_bind collected_shapes).
  - apply edge_loop_shapes; [exact HE|apply collected_shapes_refl].
  - intros o o' Ho. now apply update_all_shapes.
Qed.

(* ================================================================= *)
(** ** The order of the edges of an edge type *)

(** C5, as the code has it.  Permuting the edges of edge types (the columns
    of an edge index, sources and targets together) changes neither the
    exception [forward] raises nor the node types and shapes of what it
    returns, whatever the dropout rate and the draws.  With dropout inactive
    (rate 0) the two calls also return the same elements: every element is
    the same sum of the same terms, in exact arithmetic. *)
Theorem forward_edge_order (self : HGTConv)
    (keep keep' : nat -> nat -> nat -> bool) (x_dict : dict Tensor2)
    (edge_index_dict edge_index_dict' : list (EdgeType * EdgeIndex)) :
  edges_permuted edge_index_dict edge_index_dict' ->
  result_rel same_shapes
    (forward self keep x_dict edge_index_dict)
    (forward self keep' x_dict edge_index_dict')
  /\ (dropout_rate self = 0%R ->
      result_rel same_outputs
        (forward self keep x_dict edge_index_dict)
        (forward self keep' x_dict edge_index_dict')).
Proof.
  intros HE. split; [now apply forward_shapes_edge_order|].
  intros Hrate. unfold forward.
  destruct (heads self =? 0); [reflexivity|].
  apply result_rel_same. intros st.
  apply (result_rel_bind same_collected).
  - apply edge_loop_edge_order; auto. apply same_collected_refl.
  - intros o o' Ho. now apply update_all_rel.
Qed.

Lemma C5_witness :
  result_rel same_shapes
    (forward layer_ab keep_all x_two edges_in_order)
    (forward layer_ab keep_all x_two edges_swapped)
  /\ result_rel same_outputs
       (forward layer_ab keep_all x_two edges_in_order)
       (forward layer_ab keep_all x_two edges_swapped).
Proof.
  destruct (forward_edge_order layer_ab keep_all keep_all x_two
              edges_in_order edges_swapped) as [HS HO].
  - constructor; [split; [reflexivity|apply perm_swap]|].
    constructor; [split; [reflexivity|apply Permutation_refl]|constructor].
  - split; [exact HS|]. apply HO. reflexivity.
Defined.

Ltac dropout_eval :=
  repeat match goal with
    | |- context [Req_dec_T (1 / 2) 0] =>
        destruct (Req_dec_T (1 / 2) 0) as [F|_]; [exfalso; lra|]
    end.

Ltac uniform_scores :=
  replace (sqrt (INR 1)) with 1%R by (cbn [INR]; now rewrite sqrt_1);
  replace ((2 * 0 + 0 + 0) * 1 + 0)%R with 0%R by lra;
  replace ((1 * 0 + 0 + 0) * 1 + 0)%R with 0%R by lra;
  rewrite Rmax_left by lra; real_eval.

(** C5 as stated fails: with dropout active the output depends on which
    edge stands where.  A layer with rate 0.5 and scores 0 (uniform softmax),
    two edges into node 0 from nodes with values 1 and 2, and the draw that
    zeroes the weight of the first edge: the surviving weight is
    0.5 / (1 - 0.5) = 1, so the node aggregates the value of the edge that
    stands second, 2 in one order and 1 in the other. *)
Lemma forward_edge_order_with_dropout :
  edges_permuted edges_first edges_second
  /\ exists done done' final final',
       forward layer_dropout keep_but_first x_pair edges_first = Ok done
       /\ forward layer_dropout keep_but_first x_pair edges_second = Ok done'
       /\ lookup "a" done = Some final
       /\ lookup "a" done' = Some final'
       /\ at2 final 0 0 = (sigmoid 1 * 2 + (1 - sigmoid 1) * 1)%R
       /\ at2 final' 0 0 = (sigmoid 1 * 1 + (1 - sigmoid 1) * 1)%R
       /\ at2 final 0 0 <> at2 final' 0 0.
Proof.
  split.
  { constructor; [|constructor]. split; [reflexivity|]. apply perm_swap. }
  assert (E : forall a b : R,
             a = (sigmoid 1 * 2 + (1 - sigmoid 1) * 1)%R ->
             b = (sigmoid 1 * 1 + (1 - sigmoid 1) * 1)%R ->
             a = (sigmoid 1 * 2 + (1 - sigmoid 1) * 1)%R
             /\ b = (sigmoid 1 * 1 + (1 - sigmoid 1) * 1)%R /\ a <> b).
  { intros a b -> ->. split; [reflexivity|]. split; [reflexivity|].
    pose proof (sigmoid_pos 1). lra. }
  do 4 eexists.
  split; [run; reflexivity|].
  split; [run; reflexivity|].
  split; [run; reflexivity|].
  split; [run; reflexivity|].
  apply E.
  - run. dropout_eval. real_eval. uniform_scores. field.
  - run. dropout_eval. real_eval. uniform_scores. field.
Qed.

(* ================================================================= *)
(** ** The order of the edge types *)

(** The insertion order of the edge types in [edge_index_dict] does not
    decide whether [forward] returns, nor the node types and shapes of what
    it returns: if it returns for one order it returns for every other, with
    the same node types and tensors of the same shapes, whatever the dropout
    rate and the draws. *)
Theorem forward_edge_type_order (self : HGTConv)
    (keep keep' : nat -> nat -> nat -> bool) (x_dict : dict Tensor2)
    (edge_index_dict edge_index_dict' : list (EdgeType * EdgeIndex))
    (done : dict Tensor2) :
  Permutation edge_index_dict edge_index_dict' ->
  forward self keep x_dict edge_index_dict = Ok done ->
  exists done',
    forward self keep' x_dict edge_index_dict' = Ok done'
    /\ same_shapes done done'.
Proof.
  intros HP. unfold forward.
  destruct (heads self =? 0); [discriminate|]. intros H.
  apply bind_Ok in H. destruct H as (st & Hst & H). rewrite Hst. cbn [bind].
  apply bind_Ok in H. destruct H as (o & Ho & H).
  destruct (edge_loop_edge_type_order self x_dict st _ _ HP
              keep keep' 0 0 _ _ Ho) as (o' & Ho' & Ro).
  rewrite Ho'. cbn [bind].
  eapply result_rel_Ok; [|exact H]. now apply update_all_shapes.
Qed.

Lemma forward_edge_type_order_witness :
  exists done done',
    forward layer_mean keep_all x_a edges_two = Ok done
    /\ forward layer_mean keep_all x_a (rev edges_two) = Ok done'
    /\ same_shapes done done'.
Proof.
  assert (E : exists done, forward layer_mean keep_all x_a edges_two = Ok done)
    by (eexists; run; reflexivity).
  destruct E as [done E].
  destruct (forward_edge_type_order layer_mean keep_all keep_all x_a
              edges_two (rev edges_two) done) as (done' & E' & HS).
  - apply Permutation_rev.
  - exact E.
  - exists done, done'. split; [exact E|]. split; [exact E'|exact HS].
Defined.
